(** * SmartCalendar: a shallow embedding of the schedule pipeline and event store

    The development follows the TypeScript sources:
    - [types.ts]                      -> module [Types]
    - [contexts/ApiKeyContext.tsx]    -> module [ApiKeyContext]
    - [utils/openRouter.ts]           -> module [OpenRouter]
    - [components/Calendar.tsx]       -> module [Calendar]
    - [components/ApiKeyModal.tsx]    -> module [ApiKeyModal]
    - [components/Chatbot.tsx]        -> module [Chatbot]

    JavaScript strings are sequences of UTF-16 code units; they are modelled
    as [list N].  Literals are written as UTF-8 Rocq strings and decoded by
    [u].  Dates are modelled by their local calendar components. *)

From Stdlib Require Import ZArith NArith Lia QArith Qround String Ascii List Sorted.
From stdpp Require Import gmap list.

Local Open Scope Z_scope.

(* ===================================================================== *)
(** * JavaScript values *)
(* ===================================================================== *)

(** ** Strings *)

Abbreviation jsstring := (list N).

(** UTF-8 decoding of a Rocq string literal into code points. *)
Fixpoint utf8_decode (bs : list N) : list N :=
  match bs with
  | [] => []
  | b0 :: r0 =>
    if (b0 <? 128)%N then b0 :: utf8_decode r0
    else if (b0 <? 224)%N then
      match r0 with
      | b1 :: r1 =>
        N.lor (N.shiftl (N.land b0 31) 6) (N.land b1 63) :: utf8_decode r1
      | _ => []
      end
    else if (b0 <? 240)%N then
      match r0 with
      | b1 :: b2 :: r2 =>
        N.lor (N.shiftl (N.land b0 15) 12)
          (N.lor (N.shiftl (N.land b1 63) 6) (N.land b2 63)) :: utf8_decode r2
      | _ => []
      end
    else
      match r0 with
      | b1 :: b2 :: b3 :: r3 =>
        N.lor (N.shiftl (N.land b0 7) 18)
          (N.lor (N.shiftl (N.land b1 63) 12)
             (N.lor (N.shiftl (N.land b2 63) 6) (N.land b3 63))) :: utf8_decode r3
      | _ => []
      end
  end.

(** A code point as one or two UTF-16 code units. *)
Definition utf16_units (cp : N) : list N :=
  if (cp <? 65536)%N then [cp]
  else
    let v := (cp - 65536)%N in
    [(55296 + N.shiftr v 10)%N; (56320 + N.land v 1023)%N].

Definition u (s : string) : jsstring :=
  concat (List.map utf16_units
            (utf8_decode (List.map N_of_ascii (list_ascii_of_string s)))).

Definition jsstring_eqb (a b : jsstring) : bool := bool_decide (a = b).

(** [s.startsWith(p)] *)
Fixpoint startsWith (s p : jsstring) : bool :=
  match p, s with
  | [], _ => true
  | c :: p', d :: s' => (c =? d)%N && startsWith s' p'
  | _ :: _, [] => false
  end.

(** [s.includes(k)] *)
Fixpoint includes (s k : jsstring) : bool :=
  startsWith s k ||
  match s with
  | [] => false
  | _ :: s' => includes s' k
  end.

(** The code units [String.prototype.trim] strips: WhiteSpace and
    LineTerminator of ECMA-262.  The same set is the regular-expression
    class [\s]. *)
Definition isWhiteSpace (c : N) : bool :=
  ((9 <=? c) && (c <=? 13) || (c =? 32) || (c =? 160) || (c =? 5760)
   || (8192 <=? c) && (c <=? 8202) || (c =? 8232) || (c =? 8233)
   || (c =? 8239) || (c =? 8287) || (c =? 12288) || (c =? 65279))%N.

Fixpoint trimStart (s : jsstring) : jsstring :=
  match s with
  | c :: s' => if isWhiteSpace c then trimStart s' else s
  | [] => []
  end.

Definition trimEnd (s : jsstring) : jsstring := rev (trimStart (rev s)).

(** [s.trim()] *)
Definition trim (s : jsstring) : jsstring := trimEnd (trimStart s).

(** [s.slice(0, n)] for [0 <= n] *)
Definition slice0 (n : nat) (s : jsstring) : jsstring := firstn n s.

(** [s.split(sep)] for a one-unit separator. *)
Fixpoint split (sep : N) (s : jsstring) : list jsstring :=
  match s with
  | [] => [[]]
  | c :: s' =>
    if (c =? sep)%N then [] :: split sep s'
    else match split sep s' with
         | p :: ps => (c :: p) :: ps
         | [] => [[c]]
         end
  end.

(** [s.indexOf(c)] and [s.lastIndexOf(c)] for a one-unit string [c];
    [None] stands for -1. *)
Fixpoint indexOf (c : N) (s : jsstring) : option nat :=
  match s with
  | [] => None
  | d :: s' => if (d =? c)%N then Some 0%nat else option_map S (indexOf c s')
  end.

Fixpoint lastIndexOf (c : N) (s : jsstring) : option nat :=
  match s with
  | [] => None
  | d :: s' =>
    match lastIndexOf c s' with
    | Some i => Some (S i)
    | None => if (d =? c)%N then Some 0%nat else None
    end
  end.

(** [s.slice(a, b)] for [0 <= a] and [0 <= b] *)
Definition slice (a b : nat) (s : jsstring) : jsstring := firstn (b - a) (skipn a s).

(** [s.slice(-n)] for [0 < n] *)
Definition sliceLast (n : nat) (s : jsstring) : jsstring := skipn (length s - n) s.

(** [s.padStart(n, '0')] *)
Definition padStart0 (n : nat) (s : jsstring) : jsstring :=
  repeat 48%N (n - length s) ++ s.

(** ** Numbers as strings *)

Definition isDigit (c : N) : bool := ((48 <=? c) && (c <=? 57))%N.

Fixpoint digits_of (fuel : nat) (n : N) (acc : jsstring) : jsstring :=
  match fuel with
  | O => acc
  | S f =>
    let acc' := (48 + n mod 10)%N :: acc in
    if (n <? 10)%N then acc' else digits_of f (n / 10)%N acc'
  end.

(** [String(n)] for an integer [n]. *)
Definition String_of_int (n : Z) : jsstring :=
  match n with
  | Z0 => [48%N]
  | Zpos p => digits_of (S (N.size_nat (Npos p))) (Npos p) []
  | Zneg p => 45%N :: digits_of (S (N.size_nat (Npos p))) (Npos p) []
  end.

(** [Number(s)] for a string of decimal digits. *)
Definition Number_of_digits (s : jsstring) : Z :=
  fold_left (fun acc c => 10 * acc + (Z.of_N c - 48)) s 0.

(** ** Dates

    A [Date] is modelled by the local calendar day it denotes
    ([getFullYear], [getMonth], [getDate]); the time of day plays no role
    in the code below, which always rebuilds dates at local midnight. *)

Record Date := mkD { getFullYear : Z; getMonth : Z; getDate : Z }.

Definition isLeap (y : Z) : bool :=
  ((y mod 4 =? 0) && negb (y mod 100 =? 0)) || (y mod 400 =? 0).

(** Days in month [m] (0-based) of year [y]. *)
Definition daysInMonth (y m : Z) : Z :=
  if m =? 1 then (if isLeap y then 29 else 28)
  else if (m =? 3) || (m =? 5) || (m =? 8) || (m =? 10) then 30
  else 31.

Definition succ_day (d : Date) : Date :=
  if getDate d <? daysInMonth (getFullYear d) (getMonth d)
  then mkD (getFullYear d) (getMonth d) (getDate d + 1)
  else if getMonth d <? 11
       then mkD (getFullYear d) (getMonth d + 1) 1
       else mkD (getFullYear d + 1) 0 1.

Definition pred_day (d : Date) : Date :=
  if 1 <? getDate d
  then mkD (getFullYear d) (getMonth d) (getDate d - 1)
  else if 0 <? getMonth d
       then mkD (getFullYear d) (getMonth d - 1)
                (daysInMonth (getFullYear d) (getMonth d - 1))
       else mkD (getFullYear d - 1) 11 31.

Definition add_days (k : Z) (d : Date) : Date :=
  if 0 <=? k then Nat.iter (Z.to_nat k) succ_day d
  else Nat.iter (Z.to_nat (- k)) pred_day d.

(** ECMA-262 MakeDay: day [dt] of month [m] of year [y], where [m] and
    [dt] may lie outside their usual ranges. *)
Definition MakeDay (y m dt : Z) : Date :=
  add_days (dt - 1) (mkD (y + m / 12) (m mod 12) 1).

(** [new Date(y, m, d)]: years 0..99 denote 1900..1999.  The model covers
    the days inside the range of [Date] values (100 000 000 days on either
    side of 1 January 1970, the years -271821 to 275760); beyond it the
    code gets an Invalid Date, which the model does not have.  The local
    time zone is taken to have no skipped local days. *)
Definition newDate (y m d : Z) : Date :=
  MakeDay (if (0 <=? y) && (y <=? 99) then 1900 + y else y) m d.

(** [date.setDate(dt)], for a day inside the range of [Date] as well. *)
Definition setDate (d : Date) (dt : Z) : Date :=
  MakeDay (getFullYear d) (getMonth d) dt.

(** The day number of day [dt] of month [m] of year [y], counted from
    1 January 1970. *)
Definition dayNumber (y m dt : Z) : Z :=
  let ym := y + m / 12 in
  let mn := m mod 12 in
  let shifted := if mn <? 2 then ym - 1 else ym in
  let yearOfEra := shifted mod 400 in
  let dayOfYear := (153 * ((mn + 10) mod 12) + 2) / 5 in
  (shifted / 400) * 146097
  + (yearOfEra * 365 + yearOfEra / 4 - yearOfEra / 100 + dayOfYear)
  - 719468 + (dt - 1).

(** [Number.isNaN(new Date(y, m, d).getTime())]: the day lies more than
    100 000 000 days from 1 January 1970. *)
Definition isInvalidDate (y m d : Z) : bool :=
  100000000 <? Z.abs (dayNumber (if (0 <=? y) && (y <=? 99) then 1900 + y else y) m d).

(** [a < b] on dates. *)
Definition date_ltb (a b : Date) : bool :=
  (getFullYear a <? getFullYear b)
  || ((getFullYear a =? getFullYear b)
      && ((getMonth a <? getMonth b)
          || ((getMonth a =? getMonth b) && (getDate a <? getDate b)))).

(** A date value is always a real calendar day. *)
Definition wf_date (d : Date) : Prop :=
  0 <= getMonth d <= 11 /\
  1 <= getDate d <= daysInMonth (getFullYear d) (getMonth d).


(** ** Date keys ([YYYY-MM-DD]) *)

(** [formatDateKey]: the year is printed as it is, month and day are padded
    to two digits. *)
Definition formatDateKey (date : Date) : jsstring :=
  let year := getFullYear date in
  let month := padStart0 2 (String_of_int (getMonth date + 1)) in
  let day := padStart0 2 (String_of_int (getDate date)) in
  String_of_int year ++ u "-" ++ month ++ u "-" ++ day.

(** [buildDateKeyFromParts]; the chat component writes the same template
    inline. *)
Definition buildDateKeyFromParts (year month day : Z) : jsstring :=
  let safeYear := padStart0 4 (String_of_int year) in
  let safeMonth := padStart0 2 (String_of_int month) in
  let safeDay := padStart0 2 (String_of_int day) in
  safeYear ++ u "-" ++ safeMonth ++ u "-" ++ safeDay.

(** The test [/^\d{4}-\d{2}-\d{2}$/] on a string. *)
Definition isDateKeyLike (value : jsstring) : bool :=
  match value with
  | [y1; y2; y3; y4; h1; m1; m2; h2; d1; d2] =>
    isDigit y1 && isDigit y2 && isDigit y3 && isDigit y4 && (h1 =? 45)%N
    && isDigit m1 && isDigit m2 && (h2 =? 45)%N && isDigit d1 && isDigit d2
  | _ => false
  end.

(** [dateKey.split('-').map(Number)] destructured as [[y, m, d]]; only used
    on strings that passed [isDateKeyLike]. *)
Definition parseDateKeyParts (dateKey : jsstring) : option (Z * Z * Z) :=
  match List.map Number_of_digits (split 45%N dateKey) with
  | [y; m; d] => Some (y, m, d)
  | _ => None
  end.

Definition isValidDateKey (dateKey : jsstring) : bool :=
  if negb (isDateKeyLike dateKey) then false
  else match parseDateKeyParts dateKey with
       | Some (y, m, d) =>
         let obj := newDate y (m - 1) d in
         (getFullYear obj =? y) && (getMonth obj =? m - 1) && (getDate obj =? d)
       | None => false
       end.

(** [a.localeCompare(b)]: on date keys (digits and hyphens at fixed
    positions) the collation order is the order of the code units. *)
Fixpoint compareDateKey (a b : jsstring) : comparison :=
  match a, b with
  | [], [] => Eq
  | [], _ :: _ => Lt
  | _ :: _, [] => Gt
  | c :: a', d :: b' =>
    match (c ?= d)%N with
    | Eq => compareDateKey a' b'
    | r => r
    end
  end.

Definition shiftDateKeyByDays (dateKey : jsstring) (deltaDays : Z) : jsstring :=
  if negb (isValidDateKey dateKey) then dateKey
  else match parseDateKeyParts dateKey with
       | Some (y, m, d) =>
         let next := newDate y (m - 1) d in
         formatDateKey (setDate next (getDate next + deltaDays))
       | None => dateKey
       end.

Definition clampMinDateKey (dateKey minDateKey : jsstring) : jsstring :=
  match compareDateKey dateKey minDateKey with
  | Lt => minDateKey
  | _ => dateKey
  end.

Definition clampMaxDateKey (dateKey maxDateKey : jsstring) : jsstring :=
  match compareDateKey dateKey maxDateKey with
  | Gt => maxDateKey
  | _ => dateKey
  end.


(** ** Regular expressions

    A backtracking matcher with the priorities of ECMAScript: greedy
    quantifiers, leftmost match, capture groups numbered in order. *)

Inductive regex :=
| RChar (c : N)
| RClass (p : N -> bool)
| RSeq (a b : regex)
| ROpt (a : regex)
| RStar (a : regex)
| RGroup (a : regex).

Fixpoint rmatch (r : regex) (s : jsstring) (caps : list jsstring)
    (k : jsstring -> list jsstring -> option (list jsstring))
    : option (list jsstring) :=
  match r with
  | RChar c =>
    match s with
    | d :: s' => if (c =? d)%N then k s' caps else None
    | [] => None
    end
  | RClass p =>
    match s with
    | d :: s' => if p d then k s' caps else None
    | [] => None
    end
  | RSeq a b => rmatch a s caps (fun s' caps' => rmatch b s' caps' k)
  | ROpt a =>
    match rmatch a s caps k with
    | Some res => Some res
    | None => k s caps
    end
  | RStar a =>
    (fix loop (fuel : nat) (s : jsstring) (caps : list jsstring) :=
       match fuel with
       | O => k s caps
       | S fuel' =>
         match rmatch a s caps
                 (fun s' caps' =>
                    if (length s' <? length s)%nat then loop fuel' s' caps'
                    else None) with
         | Some res => Some res
         | None => k s caps
         end
       end) (length s) s caps
  | RGroup a =>
    rmatch a s caps
      (fun s' caps' => k s' (caps' ++ [firstn (length s - length s') s]))
  end.

(** [text.match(re)] without the [g] flag: the captures of the leftmost
    match. *)
Fixpoint regex_match (r : regex) (text : jsstring) : option (list jsstring) :=
  match rmatch r text [] (fun _ caps => Some caps) with
  | Some caps => Some caps
  | None =>
    match text with
    | [] => None
    | _ :: text' => regex_match r text'
    end
  end.

Fixpoint rseq (rs : list regex) : regex :=
  match rs with
  | [] => ROpt (RClass (fun _ => false))
  | [r] => r
  | r :: rs' => RSeq r (rseq rs')
  end.

(** [(\d{1,2})] *)
Definition re_num : regex := RGroup (RSeq (RClass isDigit) (ROpt (RClass isDigit))).
(** [\s*] *)
Definition re_ws : regex := RStar (RClass isWhiteSpace).
(** [[~-]] *)
Definition re_tilde : regex := RClass (fun c => (c =? 126)%N || (c =? 45)%N).
(** [[\/\.]] *)
Definition re_slash : regex := RClass (fun c => (c =? 47)%N || (c =? 46)%N).
Definition re_wol : regex := RChar 50900.       (* \uC6D4 *)
Definition re_il_opt : regex := ROpt (RChar 51068). (* \uC77C? *)

(** ** JSON values

    The result of [JSON.parse].  A number is a finite rational or an
    infinity ([JSON.parse("1e999")]); [undefined] is the absence of a value
    and is modelled by [None] in [option json]. *)

#[local] Set Warnings "-register-all".

Inductive jsnumber :=
| Finite (q : Q)
| Infinite.

Inductive json :=
| JNull
| JBool (b : bool)
| JNum (n : jsnumber)
| JStr (s : jsstring)
| JArr (items : list json)
| JObj (fields : list (jsstring * json)).

(** [v?.name] for the property names used below (none of them is a
    built-in property of a string, number or array).  [JSON.parse] keeps the
    last of several equal keys. *)
Definition prop (v : option json) (name : string) : option json :=
  match v with
  | Some (JObj fields) =>
    match List.find (fun kv => jsstring_eqb (fst kv) (u name)) (rev fields) with
    | Some kv => Some (snd kv)
    | None => None
    end
  | _ => None
  end.

(** [obj[key] = value] on the properties of an object, kept in the order
    in which the keys were created. *)
Definition setProperty (obj : list (jsstring * json)) (key : jsstring) (value : json)
    : list (jsstring * json) :=
  if existsb (fun kv => jsstring_eqb (fst kv) key) obj
  then List.map (fun kv => if jsstring_eqb (fst kv) key then (key, value) else kv) obj
  else obj ++ [(key, value)].

(** [Object.entries(v)] for an object that [JSON.parse] has built from the
    fields of its text: one entry for each key, with the value of the last
    field of that key, in the order in which the keys first appear.  (Keys
    that are array indices come first in JavaScript; the loops below build
    an object from the entries and do not depend on their order.) *)
Definition Object_entries (fields : list (jsstring * json)) : list (jsstring * json) :=
  fold_left (fun obj kv => setProperty obj (fst kv) (snd kv)) fields [].

(** [obj[key] = value] for an object [value] and an [obj] made by [{}],
    which is read afterwards through its own properties only.  The key
    [__proto__] reaches the setter of [Object.prototype]: the assignment
    replaces the prototype of [obj] and creates no property. *)
Definition assignProperty {V} (obj : gmap jsstring V) (key : jsstring) (value : V)
    : gmap jsstring V :=
  if jsstring_eqb key (u "__proto__") then obj else <[key := value]> obj.

(** [typeof v === 'string'] *)
Definition asString (v : option json) : option jsstring :=
  match v with
  | Some (JStr s) => Some s
  | _ => None
  end.

(** Truthiness of a JSON value. *)
Definition truthy (v : option json) : bool :=
  match v with
  | None | Some JNull => false
  | Some (JBool b) => b
  | Some (JNum (Finite q)) => negb (Qeq_bool q 0)
  | Some (JNum Infinite) => true
  | Some (JStr s) => negb (jsstring_eqb s [])
  | Some (JArr _) | Some (JObj _) => true
  end.

(** [Math.trunc] on a finite number. *)
Definition Math_trunc (q : Q) : Z :=
  if Qle_bool 0 q then Qfloor q else Qceiling q.

(* ===================================================================== *)
(** * types.ts *)
(* ===================================================================== *)

Module Types.

Inductive EventCategory :=
| Budget          (* 예산 *)
| Payroll         (* 급여 *)
| Expenditure     (* 지출 *)
| Contract        (* 계약 *)
| Facilities      (* 시설 *)
| Complaints      (* 민원 *)
| Meetings        (* 회의 *)
| SchoolCouncil   (* 학운위 *)
| SharedProperty  (* 공유재산 *)
| Revenue         (* 세입 *)
| Goods           (* 물품 *)
| Personnel       (* 인사 *)
| Other.          (* 기타 *)

(** The string each member of the union type stands for. *)
Definition category_string (c : EventCategory) : jsstring :=
  match c with
  | Budget => u "예산"
  | Payroll => u "급여"
  | Expenditure => u "지출"
  | Contract => u "계약"
  | Facilities => u "시설"
  | Complaints => u "민원"
  | Meetings => u "회의"
  | SchoolCouncil => u "학운위"
  | SharedProperty => u "공유재산"
  | Revenue => u "세입"
  | Goods => u "물품"
  | Personnel => u "인사"
  | Other => u "기타"
  end.

Definition EVENT_CATEGORIES : list EventCategory :=
  [Budget; Payroll; Expenditure; Contract; Facilities; Complaints; Meetings;
   SchoolCouncil; SharedProperty; Revenue; Goods; Personnel; Other].

Definition DEFAULT_EVENT_CATEGORY : EventCategory := Other.

Definition USER_EVENTS_STORAGE_KEY : jsstring := u "smartcalendar:userEvents".
Definition BUILTIN_EVENT_OVERRIDES_STORAGE_KEY : jsstring :=
  u "smartcalendar:builtinEventOverrides".
Definition USER_EVENTS_UPDATED_EVENT : jsstring := u "smartcalendar:userEventsUpdated".
Definition BUILTIN_EVENT_OVERRIDES_UPDATED_EVENT : jsstring :=
  u "smartcalendar:builtinEventOverridesUpdated".
Definition BASE_SCHEDULE_END_YEAR : Z := 2029.

Inductive CalendarEventKind := builtin | user.

Inductive CalendarEventSource := manual | ai.

Definition source_string (s : CalendarEventSource) : jsstring :=
  match s with
  | manual => u "manual"
  | ai => u "ai"
  end.

Record CalendarEvent := mkCalendarEvent {
  ce_id : jsstring;
  ce_date : jsstring;
  ce_title : jsstring;
  ce_kind : CalendarEventKind;
  ce_category : EventCategory;
  ce_source : CalendarEventSource
}.

#[global] Instance EventCategory_eq_dec : EqDecision EventCategory.
Proof. solve_decision. Defined.
#[global] Instance CalendarEventSource_eq_dec : EqDecision CalendarEventSource.
Proof. solve_decision. Defined.
#[global] Instance CalendarEventKind_eq_dec : EqDecision CalendarEventKind.
Proof. solve_decision. Defined.

End Types.

Import Types.

(** [EVENT_CATEGORIES.includes(value)] for a string, yielding the member. *)
Definition category_of_string (s : jsstring) : option EventCategory :=
  List.find (fun c => jsstring_eqb (category_string c) s) EVENT_CATEGORIES.

(** [isEventCategory(value)] (Calendar, ApiKeyModal) *)
Definition isEventCategory (value : option json) : option EventCategory :=
  match asString value with
  | Some s => category_of_string s
  | None => None
  end.

(** [isCalendarEventSource(value)] *)
Definition isCalendarEventSource (value : option json) : option CalendarEventSource :=
  match asString value with
  | Some s =>
    if jsstring_eqb s (u "manual") then Some manual
    else if jsstring_eqb s (u "ai") then Some ai
    else None
  | None => None
  end.

(* ===================================================================== *)
(** * The browser environment *)
(* ===================================================================== *)

(** A thrown value: an [Error] object with its message, or anything else. *)
Inductive thrown :=
| ErrorObj (message : jsstring)
| NotAnError.

(** A string kept in [localStorage], as far as the code can tell strings
    apart: the empty string, a text that [JSON.parse] rejects, or the text
    of a JSON value ([JSON.stringify] writes such a text and [JSON.parse]
    reads it back). *)
Inductive stored :=
| Empty
| Garbage
| Json (j : json).

(** [localStorage] may refuse to be read (access denied) or refuse a write
    (quota, private browsing).  [dispatched] logs the events handed to
    [window.dispatchEvent], newest first.  [nanoid] draws from an arbitrary
    source of identifiers. *)
Record World := mkWorld {
  ls_items : gmap jsstring stored;
  ls_readable : bool;
  ls_accepts : jsstring -> stored -> bool;
  dispatched : list jsstring;
  nanoid_source : nat -> jsstring;
  nanoid_drawn : nat
}.

Definition SecurityError : thrown := ErrorObj (u "SecurityError").
Definition QuotaExceededError : thrown := ErrorObj (u "QuotaExceededError").
Definition SyntaxError : thrown := ErrorObj (u "SyntaxError").

(** Computations that read and change the world and may throw. *)
Inductive result (A : Type) :=
| Ok (a : A)
| Throw (e : thrown).
Arguments Ok {A} a.
Arguments Throw {A} e.

Definition M (A : Type) : Type := World -> result A * World.

Definition ret {A} (a : A) : M A := fun w => (Ok a, w).

Definition throw {A} (e : thrown) : M A := fun w => (Throw e, w).

Definition bind {A B} (m : M A) (k : A -> M B) : M B :=
  fun w =>
    match m w with
    | (Ok a, w') => k a w'
    | (Throw e, w') => (Throw e, w')
    end.

(** [try { m } catch (e) { h e }] *)
Definition try_catch {A} (m : M A) (h : thrown -> M A) : M A :=
  fun w =>
    match m w with
    | (Ok a, w') => (Ok a, w')
    | (Throw e, w') => h e w'
    end.

Notation "'let*' x ':=' c1 'in' c2" := (bind c1 (fun x => c2))
  (at level 10, x name, c1 at level 100, c2 at level 200).
Notation "c1 '>>' c2" := (bind c1 (fun _ => c2))
  (at level 100, c2 at level 200, right associativity).

Definition localStorage_getItem (key : jsstring) : M (option stored) :=
  fun w =>
    if ls_readable w then (Ok (ls_items w !! key), w)
    else (Throw SecurityError, w).

Definition localStorage_setItem (key : jsstring) (value : stored) : M unit :=
  fun w =>
    if ls_accepts w key value
    then (Ok tt, mkWorld (<[key := value]> (ls_items w)) (ls_readable w)
                   (ls_accepts w) (dispatched w) (nanoid_source w) (nanoid_drawn w))
    else (Throw QuotaExceededError, w).

(** [window.dispatchEvent(new CustomEvent(name))] *)
Definition dispatchEvent (name : jsstring) : M unit :=
  fun w =>
    (Ok tt, mkWorld (ls_items w) (ls_readable w) (ls_accepts w)
              (name :: dispatched w) (nanoid_source w) (nanoid_drawn w)).

(** [nanoid(10)] *)
Definition nanoid : M jsstring :=
  fun w =>
    (Ok (nanoid_source w (nanoid_drawn w)),
     mkWorld (ls_items w) (ls_readable w) (ls_accepts w) (dispatched w)
       (nanoid_source w) (S (nanoid_drawn w))).

Definition JSON_parse (raw : stored) : M json :=
  match raw with
  | Json j => ret j
  | _ => throw SyntaxError
  end.

(** [JSON.stringify(value)] *)
Definition JSON_stringify (value : json) : stored := Json value.

(** [lines.join('\n')] *)
Fixpoint join_lines (lines : list jsstring) : jsstring :=
  match lines with
  | [] => []
  | [l] => l
  | l :: ls => l ++ 10%N :: join_lines ls
  end.

(** [items.sort(cmp)]: the sort is stable; [le a b] is [cmp(a, b) <= 0]. *)
Fixpoint sort_insert {A} (le : A -> A -> bool) (x : A) (l : list A) : list A :=
  match l with
  | [] => [x]
  | y :: l' => if le x y then x :: l else y :: sort_insert le x l'
  end.

Fixpoint stable_sort {A} (le : A -> A -> bool) (l : list A) : list A :=
  match l with
  | [] => []
  | x :: l' => sort_insert le x (stable_sort le l')
  end.

(* ===================================================================== *)
(** * contexts/ApiKeyContext.tsx *)
(* ===================================================================== *)

Module ApiKeyContext.

Inductive AiProviderPreference := auto | gemini | openrouter.

(** The provider a component settles on: ['gemini'], ['openrouter'] or
    [null].  The constructors are shared with the preference. *)
Abbreviation Provider := (option AiProviderPreference).

(** What [setApiKey] and [setOpenRouterApiKey] put in the state. *)
Definition cleaned (nextKey : jsstring) : jsstring := trim nextKey.

(** [Boolean(s)] for a string *)
Definition nonEmpty (s : jsstring) : bool := negb (jsstring_eqb s []).

End ApiKeyContext.

(* ===================================================================== *)
(** * utils/openRouter.ts *)
(* ===================================================================== *)

Module OpenRouter.

Inductive OpenRouterRole := system | user | assistant.

Record OpenRouterMessage := mkMsg {
  role : OpenRouterRole;
  content : jsstring
}.

(** [model] is optional; [temperature] defaults to 0.2. *)
Record OpenRouterChatCompletionOptions := mkOptions {
  apiKey : jsstring;
  messages : list OpenRouterMessage;
  model : option jsstring;
  temperature : option Q
}.

Definition DEFAULT_FREE_MODELS : list jsstring :=
  [u "mistralai/mistral-7b-instruct:free";
   u "meta-llama/llama-3.2-3b-instruct:free";
   u "google/gemma-3-4b-it:free";
   u "openai/gpt-oss-20b:free"].

(** What one [fetch] sends: the bearer token and the JSON body (the other
    headers are constants). *)
Record Request := mkRequest {
  req_authorization : jsstring;
  req_model : jsstring;
  req_messages : list OpenRouterMessage;
  req_temperature : Q
}.

(** What [fetch] and [res.text()] deliver: [raw] is the outcome of
    [JSON.parse] on the body, a thrown [SyntaxError] or a value. *)
Record Response := mkResponse {
  ok : bool;
  status : Z;
  raw : result json
}.

Inductive fetched :=
| Rejected (e : thrown)
| Resolved (res : Response).

Section WithNetwork.

(** The network: its state, and the answer to each request. *)
Variable Net : Type.
Variable fetch : Request -> Net -> fetched * Net.

(** [String(v)], the message of [new Error(v)] for a value that is not a
    string. *)
Variable ToString : json -> jsstring.

Definition requestFailed (status : Z) (candidateModel : jsstring) : thrown :=
  ErrorObj (u "OpenRouter 요청 실패 (" ++ String_of_int status ++ u ") - model="
            ++ candidateModel).

(** [new Error(message || fallback)] *)
Definition errorWithMessage (message : option json) (fallback : thrown) : thrown :=
  if truthy message then
    match message with
    | Some (JStr s) => ErrorObj s
    | Some v => ErrorObj (ToString v)
    | None => fallback
    end
  else fallback.

(** [try { ... } catch { ... }] around a block that cannot change the
    network. *)
Definition try_catch_pure {A} (block : result A) (handler : thrown -> result A)
    : result A :=
  match block with
  | Ok a => Ok a
  | Throw e => handler e
  end.

(** The [!res.ok] branch.  The [try] block parses the body and throws an
    error made from [error.message]; the [catch] clause encloses that
    [throw] as well as [JSON.parse]. *)
Definition notOkBranch (res : Response) (candidateModel : jsstring) : result jsstring :=
  try_catch_pure
    (match raw res with
     | Throw e => Throw e
     | Ok parsed =>
       let message := prop (prop (Some parsed) "error") "message" in
       Throw (errorWithMessage message (requestFailed (status res) candidateModel))
     end)
    (fun _ => Throw (requestFailed (status res) candidateModel)).

(** [v?.[0]] *)
Definition first_element (v : option json) : option json :=
  match v with
  | Some (JArr (x :: _)) => Some x
  | Some (JStr (c :: _)) => Some (JStr [c])
  | Some (JObj _) => prop v "0"
  | _ => None
  end.

(** The body of the outer [try] for one candidate model. *)
Definition attempt (options : OpenRouterChatCompletionOptions)
    (candidateModel : jsstring) (net : Net) : result jsstring * Net :=
  let request :=
    mkRequest (u "Bearer " ++ apiKey options) candidateModel (messages options)
      (default (2 # 10)%Q (temperature options)) in
  match fetch request net with
  | (Rejected e, net') => (Throw e, net')
  | (Resolved res, net') =>
    if negb (ok res) then (notOkBranch res candidateModel, net')
    else
      match raw res with
      | Throw e => (Throw e, net')
      | Ok parsed =>
        let content :=
          prop (prop (first_element (prop (Some parsed) "choices")) "message") "content" in
        match content with
        | Some (JStr (c :: s)) => (Ok (c :: s), net')
        | _ => (Throw (ErrorObj (u "OpenRouter 응답을 해석하지 못했습니다.")), net')
        end
      end
  end.

Definition modelsToTry (options : OpenRouterChatCompletionOptions) : list jsstring :=
  match model options with
  | Some (c :: m) => (c :: m) :: DEFAULT_FREE_MODELS
  | _ => DEFAULT_FREE_MODELS
  end.

(** The [for] loop: [lastError] is [None] while it is [null]. *)
Fixpoint tryModels (options : OpenRouterChatCompletionOptions)
    (candidates : list jsstring) (lastError : option thrown) (net : Net)
    : result jsstring * Net :=
  match candidates with
  | [] =>
    (Throw match lastError with
           | Some (ErrorObj message) => ErrorObj message
           | _ => ErrorObj (u "OpenRouter 요청 실패")
           end, net)
  | candidateModel :: rest =>
    match attempt options candidateModel net with
    | (Ok content, net') => (Ok content, net')
    | (Throw e, net') => tryModels options rest (Some e) net'
    end
  end.

Definition openRouterChatCompletion (options : OpenRouterChatCompletionOptions)
    (net : Net) : result jsstring * Net :=
  tryModels options (modelsToTry options) None net.

End WithNetwork.

End OpenRouter.

(* ===================================================================== *)
(** * components/Calendar.tsx *)
(* ===================================================================== *)

Module Calendar.

(** A sparse patch of a builtin event; an absent field is [None]. *)
Record BuiltinEventOverride := mkOverride {
  date : option jsstring;
  title : option jsstring;
  category : option EventCategory
}.

Abbreviation BuiltinEventOverrides := (gmap jsstring BuiltinEventOverride).

(** [!o.date && !o.title && !o.category] *)
Definition present (field : option jsstring) : bool :=
  match field with
  | Some (_ :: _) => true
  | _ => false
  end.

Definition hasNoField (o : BuiltinEventOverride) : bool :=
  negb (present (date o)) && negb (present (title o)) && negb (bool_decide (is_Some (category o))).

(** ** Persistence *)

Definition parseUserEvent (item : json) : option CalendarEvent :=
  match item with
  | JObj _ =>
    let candidate := Some item in
    match asString (prop candidate "id"),
          asString (prop candidate "date"),
          asString (prop candidate "title") with
    | Some id, Some date, Some title =>
      if negb (isDateKeyLike date) then None
      else
        let normalizedCategory :=
          default DEFAULT_EVENT_CATEGORY (isEventCategory (prop candidate "category")) in
        let normalizedSource :=
          default manual (isCalendarEventSource (prop candidate "source")) in
        Some (mkCalendarEvent id date title user normalizedCategory normalizedSource)
    | _, _, _ => None
    end
  | _ => None
  end.

Definition loadUserEventsFromStorage : M (list CalendarEvent) :=
  try_catch
    (let* raw := localStorage_getItem USER_EVENTS_STORAGE_KEY in
     match raw with
     | None | Some Empty => ret []
     | Some raw =>
       let* parsed := JSON_parse raw in
       match parsed with
       | JArr items => ret (omap parseUserEvent items)
       | _ => ret []
       end
     end)
    (fun _ => ret []).

Definition userEvent_json (ev : CalendarEvent) : json :=
  JObj [(u "id", JStr (ce_id ev)); (u "date", JStr (ce_date ev));
        (u "title", JStr (ce_title ev));
        (u "category", JStr (category_string (ce_category ev)));
        (u "source", JStr (source_string (ce_source ev)))].

Definition saveUserEventsToStorage (events : list CalendarEvent) : M unit :=
  try_catch
    (let payload := List.map userEvent_json events in
     localStorage_setItem USER_EVENTS_STORAGE_KEY (JSON_stringify (JArr payload)))
    (fun _ => ret tt).

Definition EVENT_FILTERS_STORAGE_KEY : jsstring := u "smartcalendar:eventFilters".

Definition ALL_EVENT_SOURCES : list CalendarEventSource := [manual; ai].

Record EventFilters := mkFilters {
  categories : list EventCategory;
  sources : list CalendarEventSource
}.


(** One entry of the stored overrides object. *)
Definition parseOverride (value : json) : option BuiltinEventOverride :=
  match value with
  | JObj _ =>
    let candidate := Some value in
    let date :=
      match asString (prop candidate "date") with
      | Some d => if isDateKeyLike d then Some d else None
      | None => None
      end in
    let title :=
      match asString (prop candidate "title") with
      | Some t => if jsstring_eqb (trim t) [] then None else Some (trim t)
      | None => None
      end in
    let nextOverride := mkOverride date title (isEventCategory (prop candidate "category")) in
    if hasNoField nextOverride then None else Some nextOverride
  | _ => None
  end.

Definition loadBuiltinEventOverridesFromStorage : M BuiltinEventOverrides :=
  try_catch
    (let* raw := localStorage_getItem BUILTIN_EVENT_OVERRIDES_STORAGE_KEY in
     match raw with
     | None | Some Empty => ret ∅
     | Some raw =>
       let* parsed := JSON_parse raw in
       match parsed with
       | JObj entries =>
         ret (fold_left
                (fun overrides entry =>
                   match parseOverride (snd entry) with
                   | Some nextOverride => assignProperty overrides (fst entry) nextOverride
                   | None => overrides
                   end)
                (Object_entries entries) ∅)
       | _ => ret ∅
       end
     end)
    (fun _ => ret ∅).

(** [JSON.stringify] leaves out the fields that are [undefined]. *)
Definition override_json (o : BuiltinEventOverride) : json :=
  JObj (match date o with Some d => [(u "date", JStr d)] | None => [] end
        ++ match title o with Some t => [(u "title", JStr t)] | None => [] end
        ++ match category o with
           | Some c => [(u "category", JStr (category_string c))]
           | None => []
           end).

Definition overrides_json (overrides : BuiltinEventOverrides) : json :=
  JObj (map_to_list (override_json <$> overrides)).

Definition saveBuiltinEventOverridesToStorage (overrides : BuiltinEventOverrides) : M unit :=
  try_catch
    (localStorage_setItem BUILTIN_EVENT_OVERRIDES_STORAGE_KEY
       (JSON_stringify (overrides_json overrides)))
    (fun _ => ret tt).

(** ** Component state *)

Record Store := mkStore {
  baseEvents : list CalendarEvent;
  builtinEventOverrides : BuiltinEventOverrides;
  userEvents : list CalendarEvent;
  eventDescriptions : gmap jsstring jsstring;
  eventGrounding : gmap jsstring (list jsstring);
  selectedEvent : option CalendarEvent
}.

Inductive EditorMode := create | edit.

(** [draftCategory] is an [EventCategory] or the empty string ([None]). *)
Record Editor := mkEditor {
  isEditorOpen : bool;
  editorMode : EditorMode;
  draftId : option jsstring;
  draftKind : CalendarEventKind;
  draftTitle : jsstring;
  draftCategory : option EventCategory;
  draftYear : Z;
  draftMonth : Z;
  draftDay : Z;
  draftError : option jsstring
}.

Definition withDate (ev : CalendarEvent) (d : jsstring) : CalendarEvent :=
  mkCalendarEvent (ce_id ev) d (ce_title ev) (ce_kind ev) (ce_category ev) (ce_source ev).

(** [baseEventsWithOverrides] *)
Definition applyOverride (overrides : BuiltinEventOverrides) (ev : CalendarEvent)
    : CalendarEvent :=
  match overrides !! ce_id ev with
  | None => ev
  | Some override =>
    mkCalendarEvent (ce_id ev) (default (ce_date ev) (date override))
      (default (ce_title ev) (title override)) (ce_kind ev)
      (default (ce_category ev) (category override)) (ce_source ev)
  end.

Definition baseEventsWithOverrides (st : Store) : list CalendarEvent :=
  List.map (applyOverride (builtinEventOverrides st)) (baseEvents st).

Definition allEvents (st : Store) : list CalendarEvent :=
  baseEventsWithOverrides st ++ userEvents st.

(** The two effects that persist the state after a change. *)
Definition persist (st : Store) : M unit :=
  saveUserEventsToStorage (userEvents st) >>
  saveBuiltinEventOverridesToStorage (builtinEventOverrides st).

Definition clearAiCacheForEvent (eventId : jsstring) (st : Store) : Store :=
  mkStore (baseEvents st) (builtinEventOverrides st) (userEvents st)
    (match eventDescriptions st !! eventId with
     | Some (_ :: _) => delete eventId (eventDescriptions st)
     | _ => eventDescriptions st
     end)
    (delete eventId (eventGrounding st))
    (selectedEvent st).

Definition setSelectedDate (eventId nextDateKey : jsstring) (st : Store) : Store :=
  mkStore (baseEvents st) (builtinEventOverrides st) (userEvents st)
    (eventDescriptions st) (eventGrounding st)
    (match selectedEvent st with
     | Some prev =>
       if jsstring_eqb (ce_id prev) eventId then Some (withDate prev nextDateKey)
       else Some prev
     | None => None
     end).

Definition setUserEvents (f : list CalendarEvent -> list CalendarEvent) (st : Store) : Store :=
  mkStore (baseEvents st) (builtinEventOverrides st) (f (userEvents st))
    (eventDescriptions st) (eventGrounding st) (selectedEvent st).

Definition setBuiltinEventOverrides
    (f : BuiltinEventOverrides -> BuiltinEventOverrides) (st : Store) : Store :=
  mkStore (baseEvents st) (f (builtinEventOverrides st)) (userEvents st)
    (eventDescriptions st) (eventGrounding st) (selectedEvent st).

Definition findById (eventId : jsstring) (events : list CalendarEvent)
    : option CalendarEvent :=
  List.find (fun ev => jsstring_eqb (ce_id ev) eventId) events.

(** The updater of the branch [baseEvent.date === nextDateKey]. *)
Definition dropOverrideDate (eventId : jsstring) (prev : BuiltinEventOverrides)
    : BuiltinEventOverrides :=
  match prev !! eventId with
  | None => prev
  | Some existing =>
    let nextEntry := mkOverride None (title existing) (category existing) in
    if hasNoField nextEntry then delete eventId prev
    else <[eventId := nextEntry]> prev
  end.

(** The updater of the other branch. *)
Definition setOverrideDate (eventId nextDateKey : jsstring) (prev : BuiltinEventOverrides)
    : BuiltinEventOverrides :=
  let existing := default (mkOverride None None None) (prev !! eventId) in
  let nextEntry := mkOverride (Some nextDateKey) (title existing) (category existing) in
  <[eventId := nextEntry]> prev.

Definition moveEventToDate (eventId nextDateKey : jsstring) (st : Store) : Store :=
  if jsstring_eqb eventId [] then st
  else if negb (isDateKeyLike nextDateKey) then st
  else
    match findById eventId (userEvents st) with
    | Some userEvent =>
      if jsstring_eqb (ce_date userEvent) nextDateKey then st
      else
        setSelectedDate eventId nextDateKey
          (clearAiCacheForEvent eventId
             (setUserEvents
                (List.map (fun ev => if jsstring_eqb (ce_id ev) eventId
                                     then withDate ev nextDateKey else ev))
                st))
    | None =>
      match findById eventId (baseEvents st) with
      | None => st
      | Some baseEvent =>
        setSelectedDate eventId nextDateKey
          (clearAiCacheForEvent eventId
             (setBuiltinEventOverrides
                (if jsstring_eqb (ce_date baseEvent) nextDateKey
                 then dropOverrideDate eventId
                 else setOverrideDate eventId nextDateKey)
                st))
      end
    end.

Definition closeEditor (ed : Editor) : Editor :=
  mkEditor false (editorMode ed) (draftId ed) (draftKind ed) (draftTitle ed)
    (draftCategory ed) (draftYear ed) (draftMonth ed) (draftDay ed) None.

Definition setDraftError (msg : jsstring) (ed : Editor) : Editor :=
  mkEditor (isEditorOpen ed) (editorMode ed) (draftId ed) (draftKind ed) (draftTitle ed)
    (draftCategory ed) (draftYear ed) (draftMonth ed) (draftDay ed) (Some msg).

(** [openEditEditor] *)
Definition openEditEditor (event : CalendarEvent) (ed : Editor) : Editor :=
  match parseDateKeyParts (ce_date event) with
  | Some (y, m, d) =>
    mkEditor true edit (Some (ce_id event)) (ce_kind event) (ce_title event)
      (Some (ce_category event)) y m d None
  | None => ed
  end.

(** The updater at the end of [handleSaveDraft], for a builtin event.
    [nextEntry] starts as a copy of the existing entry, and then each of
    its three fields is either deleted or assigned. *)
Definition saveOverride (baseEvents : list CalendarEvent) (draftId dateKey cleanedTitle : jsstring)
    (draftCategory : option EventCategory) (prev : BuiltinEventOverrides)
    : BuiltinEventOverrides :=
  match findById draftId baseEvents with
  | None => prev
  | Some base =>
    let nextDate :=
      if jsstring_eqb dateKey (ce_date base) then None else Some dateKey in
    let nextTitle :=
      if jsstring_eqb cleanedTitle (ce_title base) then None else Some cleanedTitle in
    let nextEntry := mkOverride nextDate nextTitle draftCategory in
    if hasNoField nextEntry then delete draftId prev
    else <[draftId := nextEntry]> prev
  end.

Definition handleSaveDraft (ed : Editor) (st : Store) : M (Editor * Store) :=
  let cleanedTitle := trim (draftTitle ed) in
  if jsstring_eqb cleanedTitle [] then
    ret (setDraftError (u "일정 내용을 입력해주세요.") ed, st)
  else
    let dateKey := buildDateKeyFromParts (draftYear ed) (draftMonth ed) (draftDay ed) in
    let dateObj := newDate (draftYear ed) (draftMonth ed - 1) (draftDay ed) in
    if isInvalidDate (draftYear ed) (draftMonth ed - 1) (draftDay ed)
       || negb (jsstring_eqb (formatDateKey dateObj) dateKey) then
      ret (setDraftError (u "유효한 날짜를 선택해주세요.") ed, st)
    else
      match editorMode ed with
      | create =>
        match draftCategory ed with
        | None => ret (setDraftError (u "업무를 선택해주세요.") ed, st)
        | Some category =>
          let* n := nanoid in
          let newEvent :=
            mkCalendarEvent (u "user-" ++ n) dateKey cleanedTitle user category manual in
          ret (closeEditor ed, setUserEvents (fun prev => newEvent :: prev) st)
        end
      | edit =>
        match draftId ed with
        | None | Some [] =>
          ret (setDraftError (u "수정할 일정이 선택되지 않았습니다.") ed, st)
        | Some draftId =>
          match draftKind ed with
          | user =>
            match draftCategory ed with
            | None => ret (setDraftError (u "업무를 선택해주세요.") ed, st)
            | Some category =>
              ret (closeEditor ed,
                   clearAiCacheForEvent draftId
                     (setUserEvents
                        (List.map
                           (fun ev =>
                              if jsstring_eqb (ce_id ev) draftId
                              then mkCalendarEvent (ce_id ev) dateKey cleanedTitle
                                     (ce_kind ev) category (ce_source ev)
                              else ev))
                        st))
            end
          | builtin =>
            ret (closeEditor ed,
                 clearAiCacheForEvent draftId
                   (setBuiltinEventOverrides
                      (saveOverride (baseEvents st) draftId dateKey cleanedTitle
                         (draftCategory ed))
                      st))
          end
        end
      end.

(** ** Filters *)

Definition allFilters : EventFilters := mkFilters EVENT_CATEGORIES ALL_EVENT_SOURCES.

(** [loadEventFiltersFromStorage]; the two [Set]s are only asked for
    membership and are kept as lists. *)
Definition loadEventFiltersFromStorage : M EventFilters :=
  try_catch
    (let* raw := localStorage_getItem EVENT_FILTERS_STORAGE_KEY in
     match raw with
     | None | Some Empty => ret allFilters
     | Some raw =>
       let* parsed := JSON_parse raw in
       match parsed with
       | JObj _ =>
         let candidate := Some parsed in
         let categoriesRaw := prop candidate "categories" in
         let sourcesRaw := prop candidate "sources" in
         let categoriesSet :=
           match categoriesRaw with
           | Some (JArr cs) => omap (fun c => isEventCategory (Some c)) cs
           | _ => []
           end in
         let sourcesSet :=
           match sourcesRaw with
           | Some (JArr ss) => omap (fun s => isCalendarEventSource (Some s)) ss
           | _ => []
           end in
         let categories :=
           match categoriesRaw with
           | Some (JArr cs) =>
             let categories :=
               List.filter (fun c => bool_decide (c ∈ categoriesSet)) EVENT_CATEGORIES in
             if (length categories =? 0)%nat && (0 <? length cs)%nat
             then EVENT_CATEGORIES else categories
           | _ => EVENT_CATEGORIES
           end in
         let sources :=
           match sourcesRaw with
           | Some (JArr ss) =>
             let sources :=
               List.filter (fun s => bool_decide (s ∈ sourcesSet)) ALL_EVENT_SOURCES in
             if (length sources =? 0)%nat && (0 <? length ss)%nat
             then ALL_EVENT_SOURCES else sources
           | _ => ALL_EVENT_SOURCES
           end in
         ret (mkFilters categories sources)
       | _ => ret allFilters
       end
     end)
    (fun _ => ret allFilters).

(** [filteredEvents] *)
Definition filteredEvents (filters : EventFilters) (allEvents : list CalendarEvent)
    : list CalendarEvent :=
  List.filter
    (fun event => bool_decide (ce_category event ∈ categories filters)
                  && bool_decide (ce_source event ∈ sources filters))
    allEvents.

Definition isAllFiltersSelected (filters : EventFilters) : bool :=
  (length (categories filters) =? length EVENT_CATEGORIES)%nat
  && (length (sources filters) =? length ALL_EVENT_SOURCES)%nat.

Definition toggleSelectAllFilters (filters : EventFilters) : EventFilters :=
  if isAllFiltersSelected filters then mkFilters [] [] else allFilters.

(** The updater of [toggleCategoryFilter]: [nextSet] is [prev] with
    [category] taken out or put in. *)
Definition toggleCategoryFilter (category : EventCategory) (prev : list EventCategory)
    : list EventCategory :=
  let nextSet_has c :=
    if bool_decide (category ∈ prev)
    then bool_decide (c ∈ prev) && negb (bool_decide (c = category))
    else bool_decide (c = category) || bool_decide (c ∈ prev) in
  List.filter nextSet_has EVENT_CATEGORIES.

Definition toggleSourceFilter (source : CalendarEventSource)
    (prev : list CalendarEventSource) : list CalendarEventSource :=
  let nextSet_has s :=
    if bool_decide (source ∈ prev)
    then bool_decide (s ∈ prev) && negb (bool_decide (s = source))
    else bool_decide (s = source) || bool_decide (s ∈ prev) in
  List.filter nextSet_has ALL_EVENT_SOURCES.

Definition resetFilters : EventFilters := allFilters.

(** [aiProvider] *)
Definition aiProvider (apiKey openRouterApiKey : jsstring)
    (aiProviderPreference : ApiKeyContext.AiProviderPreference)
    : ApiKeyContext.Provider :=
  let hasGemini := ApiKeyContext.nonEmpty apiKey in
  let hasOpenRouter := ApiKeyContext.nonEmpty openRouterApiKey in
  match aiProviderPreference with
  | ApiKeyContext.gemini =>
    if hasGemini then Some ApiKeyContext.gemini
    else if hasOpenRouter then Some ApiKeyContext.openrouter else None
  | ApiKeyContext.openrouter =>
    if hasOpenRouter then Some ApiKeyContext.openrouter
    else if hasGemini then Some ApiKeyContext.gemini else None
  | ApiKeyContext.auto =>
    if hasGemini then Some ApiKeyContext.gemini
    else if hasOpenRouter then Some ApiKeyContext.openrouter else None
  end.

(** ** The editor, continued *)

(** [openCreateEditor] *)
Definition openCreateEditor (dateKey : jsstring) (ed : Editor) : Editor :=
  match parseDateKeyParts dateKey with
  | Some (y, m, d) =>
    mkEditor true create None user [] (Some DEFAULT_EVENT_CATEGORY) y m d None
  | None => ed
  end.



(** [handleDeleteDraft] *)
Definition handleDeleteDraft (ed : Editor) (st : Store) : Editor * Store :=
  match draftId ed with
  | None | Some [] => (ed, st)
  | Some draftId =>
    match draftKind ed with
    | builtin =>
      (closeEditor ed,
       clearAiCacheForEvent draftId (setBuiltinEventOverrides (delete draftId) st))
    | user =>
      (closeEditor ed,
       clearAiCacheForEvent draftId
         (setUserEvents
            (List.filter (fun ev => negb (jsstring_eqb (ce_id ev) draftId))) st))
    end
  end.

End Calendar.

(* ===================================================================== *)
(** * components/ApiKeyModal.tsx (backup export and import) *)
(* ===================================================================== *)

Module ApiKeyModal.

Definition BACKUP_FILE_VERSION : Z := 1.

Record StoredUserEvent := mkStoredUserEvent {
  id : jsstring;
  date : jsstring;
  title : jsstring;
  category : EventCategory;
  source : CalendarEventSource
}.

Record StoredBuiltinEventOverride := mkOverride {
  o_date : option jsstring;
  o_title : option jsstring;
  o_category : option EventCategory
}.

Record BackupFileV1 := mkBackup {
  version : Z;
  createdAt : jsstring;
  year : Z;
  userEvents : list StoredUserEvent;
  builtinEventOverrides : gmap jsstring StoredBuiltinEventOverride
}.

(** A year or [null]. *)
Definition yearFromDateKey (dateKey : jsstring) : option Z :=
  if negb (isDateKeyLike dateKey) then None
  else Some (Number_of_digits (firstn 4 dateKey)).

(** [/^event-(\d{4})-/.exec(eventId)] *)
Definition yearFromBuiltinEventId (eventId : jsstring) : option Z :=
  if startsWith eventId (u "event-") then
    match skipn 6 eventId with
    | y1 :: y2 :: y3 :: y4 :: h :: _ =>
      if isDigit y1 && isDigit y2 && isDigit y3 && isDigit y4 && (h =? 45)%N
      then Some (Number_of_digits [y1; y2; y3; y4])
      else None
    | _ => None
    end
  else None.

Definition parseStoredUserEvent (item : json) : option StoredUserEvent :=
  match item with
  | JObj _ =>
    let candidate := Some item in
    match asString (prop candidate "id"),
          asString (prop candidate "date"),
          asString (prop candidate "title") with
    | Some id, Some date, Some title =>
      if jsstring_eqb id [] then None
      else if negb (isDateKeyLike date) then None
      else if jsstring_eqb (trim title) [] then None
      else
        Some (mkStoredUserEvent id date (trim title)
                (default DEFAULT_EVENT_CATEGORY (isEventCategory (prop candidate "category")))
                (default manual (isCalendarEventSource (prop candidate "source"))))
    | _, _, _ => None
    end
  | _ => None
  end.

Definition loadStoredUserEvents : M (list StoredUserEvent) :=
  try_catch
    (let* raw := localStorage_getItem USER_EVENTS_STORAGE_KEY in
     match raw with
     | None | Some Empty => ret []
     | Some raw =>
       let* parsed := JSON_parse raw in
       match parsed with
       | JArr items => ret (omap parseStoredUserEvent items)
       | _ => ret []
       end
     end)
    (fun _ => ret []).

Definition storedUserEvent_json (ev : StoredUserEvent) : json :=
  JObj [(u "id", JStr (id ev)); (u "date", JStr (date ev));
        (u "title", JStr (title ev));
        (u "category", JStr (category_string (category ev)));
        (u "source", JStr (source_string (source ev)))].

Definition saveStoredUserEvents (events : list StoredUserEvent) : M unit :=
  localStorage_setItem USER_EVENTS_STORAGE_KEY
    (JSON_stringify (JArr (List.map storedUserEvent_json events))) >>
  dispatchEvent USER_EVENTS_UPDATED_EVENT.

(** [next.date || next.title || next.category] *)
Definition hasField (o : StoredBuiltinEventOverride) : bool :=
  match o_date o, o_title o, o_category o with
  | Some (_ :: _), _, _ | _, Some (_ :: _), _ | _, _, Some _ => true
  | _, _, _ => false
  end.

(** The fields read from one entry of an overrides object. *)
Definition readOverride (value : json) : StoredBuiltinEventOverride :=
  let candidate := Some value in
  mkOverride
    (match asString (prop candidate "date") with
     | Some d => if isDateKeyLike d then Some d else None
     | None => None
     end)
    (match asString (prop candidate "title") with
     | Some t => if jsstring_eqb (trim t) [] then None else Some (trim t)
     | None => None
     end)
    (isEventCategory (prop candidate "category")).

Definition isPlainObject (value : json) : bool :=
  match value with
  | JObj _ => true
  | _ => false
  end.

Definition loadStoredBuiltinOverrides : M (gmap jsstring StoredBuiltinEventOverride) :=
  try_catch
    (let* raw := localStorage_getItem BUILTIN_EVENT_OVERRIDES_STORAGE_KEY in
     match raw with
     | None | Some Empty => ret ∅
     | Some raw =>
       let* parsed := JSON_parse raw in
       match parsed with
       | JObj entries =>
         ret (fold_left
                (fun overrides entry =>
                   if negb (isPlainObject (snd entry)) then overrides
                   else
                     let next := readOverride (snd entry) in
                     if hasField next then assignProperty overrides (fst entry) next
                     else overrides)
                (Object_entries entries) ∅)
       | _ => ret ∅
       end
     end)
    (fun _ => ret ∅).

Definition override_json (o : StoredBuiltinEventOverride) : json :=
  JObj (match o_date o with Some d => [(u "date", JStr d)] | None => [] end
        ++ match o_title o with Some t => [(u "title", JStr t)] | None => [] end
        ++ match o_category o with
           | Some c => [(u "category", JStr (category_string c))]
           | None => []
           end).

(** The overrides object as [JSON.stringify] writes it, one field for each
    id.  The order of the fields in the text is not modelled: what reads
    the text back goes through [Object.entries] into an object again. *)
Definition overrides_json (overrides : gmap jsstring StoredBuiltinEventOverride) : json :=
  JObj (map_to_list (override_json <$> overrides)).

Definition saveStoredBuiltinOverrides
    (overrides : gmap jsstring StoredBuiltinEventOverride) : M unit :=
  localStorage_setItem BUILTIN_EVENT_OVERRIDES_STORAGE_KEY
    (JSON_stringify (overrides_json overrides)) >>
  dispatchEvent BUILTIN_EVENT_OVERRIDES_UPDATED_EVENT.

(** [(override.date && yearFromDateKey(override.date)) ?? yearFromBuiltinEventId(id)]:
    an empty date string is the value of the whole expression and is no
    year. *)
Definition effectiveYear (id : jsstring) (override : StoredBuiltinEventOverride)
    : option Z :=
  match o_date override with
  | None => yearFromBuiltinEventId id
  | Some [] => None
  | Some d =>
    match yearFromDateKey d with
    | Some y => Some y
    | None => yearFromBuiltinEventId id
    end
  end.

(** [a ?? b] *)
Definition nullish_or (a b : option json) : option json :=
  match a with
  | None | Some JNull => b
  | _ => a
  end.

Definition invalidFormat (detail : string) : thrown :=
  ErrorObj (u "백업 파일 형식이 올바르지 않습니다." ++ u detail).

(** [nowIso] is [new Date().toISOString()]. *)
Definition normalizeBackupPayload (nowIso : jsstring) (payload : json)
    : result BackupFileV1 :=
  match payload with
  | JObj _ =>
    let candidate := Some payload in
    let versionOk :=
      match prop candidate "version" with
      | Some (JNum (Finite v)) => Qeq_bool v 0 || Qeq_bool v (inject_Z BACKUP_FILE_VERSION)
      | Some _ => false
      | None => true
      end in
    if negb versionOk then Throw (ErrorObj (u "지원하지 않는 백업 파일 버전입니다."))
    else
      match prop candidate "year" with
      | Some (JNum (Finite year)) =>
        let normalizedYear := Math_trunc year in
        match nullish_or (prop candidate "userEvents") (prop candidate "events") with
        | Some (JArr userEventsRaw) =>
          let builtinOverridesRaw :=
            nullish_or (prop candidate "builtinEventOverrides")
              (nullish_or (prop candidate "builtinOverrides") (prop candidate "overrides")) in
          match builtinOverridesRaw with
          | Some (JObj _) | None =>
            let normalizedUserEvents :=
              omap (fun item =>
                      match parseStoredUserEvent item with
                      | Some ev =>
                        if bool_decide (yearFromDateKey (date ev) = Some normalizedYear)
                        then Some ev else None
                      | None => None
                      end)
                   userEventsRaw in
            let normalizedBuiltinOverrides :=
              match builtinOverridesRaw with
              | Some (JObj entries) =>
                fold_left
                  (fun overrides entry =>
                     if negb (isPlainObject (snd entry)) then overrides
                     else
                       let next := readOverride (snd entry) in
                       if negb (bool_decide (effectiveYear (fst entry) next = Some normalizedYear))
                       then overrides
                       else if hasField next then assignProperty overrides (fst entry) next
                       else overrides)
                  (Object_entries entries) ∅
              | _ => ∅
              end in
            Ok (mkBackup BACKUP_FILE_VERSION
                  (default nowIso (asString (prop candidate "createdAt")))
                  normalizedYear normalizedUserEvents normalizedBuiltinOverrides)
          | Some _ => Throw (invalidFormat " (builtinEventOverrides)")
          end
        | _ => Throw (invalidFormat " (userEvents)")
        end
      | _ => Throw (invalidFormat " (year)")
      end
  | _ => Throw (invalidFormat "")
  end.

Definition lift {A} (r : result A) : M A :=
  match r with
  | Ok a => ret a
  | Throw e => throw e
  end.

Inductive TransferStatus :=
| success (message : jsstring)
| error (message : jsstring).

(** The stored overrides that do not belong to the backup's year. *)
Definition remainingOverrides (backupYear : Z)
    (existingOverrides : gmap jsstring StoredBuiltinEventOverride)
    : gmap jsstring StoredBuiltinEventOverride :=
  filter (fun entry => effectiveYear (fst entry) (snd entry) <> Some backupYear)
    existingOverrides.

(** [handleImportBackupFile]; [fileText] is the text of the chosen file
    and the result is the new [transferStatus]. *)
Definition handleImportBackupFile (nowIso : jsstring) (fileText : stored)
    : M TransferStatus :=
  try_catch
    (let* parsed := JSON_parse fileText in
     let* backup := lift (normalizeBackupPayload nowIso parsed) in
     let* existingUserEvents := loadStoredUserEvents in
     let remainingUserEvents :=
       List.filter
         (fun ev => negb (bool_decide (yearFromDateKey (date ev) = Some (year backup))))
         existingUserEvents in
     saveStoredUserEvents (userEvents backup ++ remainingUserEvents) >>
     let* existingOverrides := loadStoredBuiltinOverrides in
     let remainingOverrides := remainingOverrides (year backup) existingOverrides in
     saveStoredBuiltinOverrides (builtinEventOverrides backup ∪ remainingOverrides) >>
     ret (success
            (String_of_int (year backup) ++ u "년 백업을 가져왔습니다. (일정 "
             ++ String_of_int (Z.of_nat (length (userEvents backup)))
             ++ u "개 / 기본일정 수정 "
             ++ String_of_int (Z.of_nat (size (builtinEventOverrides backup)))
             ++ u "건)")))
    (fun e =>
       ret (error match e with
                  | ErrorObj message => message
                  | NotAnError => u "백업 파일 형식이 올바르지 않습니다."
                  end)).

(** ** Masked keys and the previewed provider *)

(** [maskedGemini]; ['*'] is the code unit 42. *)
Definition maskedGemini (geminiApiKey : jsstring) : jsstring :=
  if jsstring_eqb geminiApiKey [] then []
  else if (length geminiApiKey <=? 8)%nat then repeat 42%N (length geminiApiKey)
  else slice 0 4 geminiApiKey ++ repeat 42%N (length geminiApiKey - 8)
       ++ sliceLast 4 geminiApiKey.

Definition maskedOpenRouter (openRouterApiKey : jsstring) : jsstring :=
  if jsstring_eqb openRouterApiKey [] then []
  else if (length openRouterApiKey <=? 10)%nat then repeat 42%N (length openRouterApiKey)
  else slice 0 6 openRouterApiKey ++ repeat 42%N (length openRouterApiKey - 10)
       ++ sliceLast 4 openRouterApiKey.

(** [resolvedProvider] *)
Definition resolvedProvider (providerDraft : ApiKeyContext.AiProviderPreference)
    (geminiDraft openRouterDraft : jsstring) : ApiKeyContext.Provider :=
  let hasGemini := ApiKeyContext.nonEmpty (trim geminiDraft) in
  let hasOpenRouter := ApiKeyContext.nonEmpty (trim openRouterDraft) in
  match providerDraft with
  | ApiKeyContext.gemini =>
    if hasGemini then Some ApiKeyContext.gemini
    else if hasOpenRouter then Some ApiKeyContext.openrouter else None
  | ApiKeyContext.openrouter =>
    if hasOpenRouter then Some ApiKeyContext.openrouter
    else if hasGemini then Some ApiKeyContext.gemini else None
  | ApiKeyContext.auto =>
    if hasGemini then Some ApiKeyContext.gemini
    else if hasOpenRouter then Some ApiKeyContext.openrouter else None
  end.

(** ** Export *)

(** [buildBackupForYear]; [nowIso] is [new Date().toISOString()]. *)
Definition buildBackupForYear (nowIso : jsstring) (year : Z) : M BackupFileV1 :=
  let* stored := loadStoredUserEvents in
  let userEvents :=
    List.filter (fun ev => bool_decide (yearFromDateKey (date ev) = Some year)) stored in
  let* existingOverrides := loadStoredBuiltinOverrides in
  let builtinEventOverrides :=
    filter (fun entry => effectiveYear (fst entry) (snd entry) = Some year)
      existingOverrides in
  ret (mkBackup BACKUP_FILE_VERSION nowIso year userEvents builtinEventOverrides).

(** The value [JSON.stringify(backup, null, 2)] writes. *)
Definition backup_json (backup : BackupFileV1) : json :=
  JObj [(u "version", JNum (Finite (inject_Z (version backup))));
        (u "createdAt", JStr (createdAt backup));
        (u "year", JNum (Finite (inject_Z (year backup))));
        (u "userEvents", JArr (List.map storedUserEvent_json (userEvents backup)));
        (u "builtinEventOverrides", overrides_json (builtinEventOverrides backup))].

(** [handleExportBackup]: the new [transferStatus] and, when a file is
    offered for download, its name and text.  [backupYear] is the number in
    the state; every value that [Number.isFinite] refuses takes the branch
    of [Infinite]. *)
Definition handleExportBackup (nowIso : jsstring) (backupYear : jsnumber)
    : M (TransferStatus * option (jsstring * stored)) :=
  match backupYear with
  | Finite q =>
    let year := Math_trunc q in
    if (year <? 1900) || (9999 <? year)
    then ret (error (u "연도 값을 확인해주세요."), None)
    else
      try_catch
        (let* backup := buildBackupForYear nowIso year in
         let json := JSON_stringify (backup_json backup) in
         ret (success (String_of_int year ++ u "년 백업 파일을 생성했습니다."),
              Some (u "smart-calendar-backup-" ++ String_of_int year ++ u ".json", json)))
        (fun e =>
           ret (error match e with
                      | ErrorObj message => message
                      | NotAnError => u "백업 생성 중 오류가 발생했습니다."
                      end, None))
  | Infinite => ret (error (u "연도 값을 확인해주세요."), None)
  end.

End ApiKeyModal.

(* ===================================================================== *)
(** * components/Chatbot.tsx *)
(* ===================================================================== *)

Module Chatbot.

Record StoredUserEvent := mkStoredUserEvent {
  id : jsstring;
  date : jsstring;
  title : jsstring;
  category : EventCategory;
  source : CalendarEventSource
}.

Record ScheduleProposalItem := mkItem {
  item_date : jsstring;
  item_title : jsstring;
  item_category : EventCategory
}.

(** [applied], [appliedCount] and [skippedCount] are optional fields. *)
Record ScheduleProposal := mkProposal {
  project : jsstring;
  deadline : option jsstring;
  items : list ScheduleProposalItem;
  selected : list bool;
  applied : option bool;
  appliedCount : option nat;
  skippedCount : option nat
}.

(** [asEventCategory] *)
Definition asEventCategory (value : option json) : option EventCategory :=
  match asString value with
  | Some s => category_of_string s
  | None => None
  end.

Definition asCalendarEventSource (value : option json) : option CalendarEventSource :=
  isCalendarEventSource value.

Record ExecutionWindow := mkWindow { start : jsstring; end_ : jsstring }.

(** The first three entries of [patterns].  The loop body assigns only for
    [patterns[0]], [patterns[1]] and [patterns[2]]; a match of one of the
    last three patterns falls through every [if] and changes nothing. *)
Definition pattern0 : regex :=
  rseq [re_num; re_ws; re_wol; re_ws; re_num; re_ws; re_il_opt; re_ws;
        re_tilde; re_ws; re_num; re_ws; re_il_opt].

Definition pattern1 : regex :=
  rseq [re_num; re_ws; re_wol; re_ws; re_num; re_ws; re_il_opt; re_ws;
        re_tilde; re_ws; re_num; re_ws; re_wol; re_ws; re_num; re_ws;
        re_il_opt].

Definition pattern2 : regex :=
  rseq [re_num; re_ws; re_slash; re_ws; re_num; re_ws; re_tilde; re_ws;
        re_num; re_ws; re_slash; re_ws; re_num].

(** The [for] loop over [patterns]: the values of [startMonth], [startDay],
    [endMonth] and [endDay] when it ends ([None] when they are still
    [null]). *)
Definition matchRange (text : jsstring) : option (Z * Z * Z * Z) :=
  match regex_match pattern0 text with
  | Some [m1; m2; m3] =>
    let startMonth := Number_of_digits m1 in
    Some (startMonth, Number_of_digits m2, startMonth, Number_of_digits m3)
  | _ =>
    match regex_match pattern1 text with
    | Some [m1; m2; m3; m4] =>
      Some (Number_of_digits m1, Number_of_digits m2,
            Number_of_digits m3, Number_of_digits m4)
    | _ =>
      match regex_match pattern2 text with
      | Some [m1; m2; m3; m4] =>
        Some (Number_of_digits m1, Number_of_digits m2,
              Number_of_digits m3, Number_of_digits m4)
      | _ => None
      end
    end
  end.

Definition inferExecutionWindowFromText (text : jsstring) (baseDate : Date)
    : option ExecutionWindow :=
  match matchRange text with
  | None => None
  | Some (startMonth, startDay, endMonth, endDay) =>
    if (startMonth =? 0) || (startDay =? 0) || (endMonth =? 0) || (endDay =? 0)
    then None
    else if (startMonth <? 1) || (12 <? startMonth) || (endMonth <? 1) || (12 <? endMonth)
    then None
    else if (startDay <? 1) || (31 <? startDay) || (endDay <? 1) || (31 <? endDay)
    then None
    else
      let todayStart :=
        newDate (getFullYear baseDate) (getMonth baseDate) (getDate baseDate) in
      let startYear0 := getFullYear baseDate in
      let candidateStart := newDate startYear0 (startMonth - 1) startDay in
      let startYear :=
        if date_ltb candidateStart todayStart then startYear0 + 1 else startYear0 in
      let crossesYear :=
        (endMonth <? startMonth) || ((endMonth =? startMonth) && (endDay <? startDay)) in
      let endYear := if crossesYear then startYear + 1 else startYear in
      let startDate := newDate startYear (startMonth - 1) startDay in
      let endDate := newDate endYear (endMonth - 1) endDay in
      if negb (jsstring_eqb (formatDateKey startDate)
                 (buildDateKeyFromParts startYear startMonth startDay))
      then None
      else if negb (jsstring_eqb (formatDateKey endDate)
                      (buildDateKeyFromParts endYear endMonth endDay))
      then None
      else Some (mkWindow (formatDateKey startDate) (formatDateKey endDate))
  end.

Definition isPreWorkTitle (title : jsstring) : bool :=
  let keywords :=
    [u "품의"; u "원인행위"; u "계약"; u "업체"; u "발주"; u "입찰"; u "견적";
     u "선정"; u "결재"; u "상신"] in
  existsb (fun k => includes title k) keywords.

Definition isPostWorkTitle (title : jsstring) : bool :=
  let keywords :=
    [u "검수"; u "준공"; u "정산"; u "지출"; u "대금"; u "세금계산서";
     u "대금지급"; u "지출결의"] in
  existsb (fun k => includes title k) keywords.

(** ** Persistence of user events *)

(** One element of the stored array, validated. *)
Definition parseStoredUserEvent (item : json) : option StoredUserEvent :=
  match item with
  | JObj _ =>
    let candidate := Some item in
    match asString (prop candidate "id"),
          asString (prop candidate "title"),
          asString (prop candidate "date") with
    | Some id, Some title, Some date =>
      if jsstring_eqb (trim title) [] then None
      else if negb (isValidDateKey date) then None
      else
        let parsedCategory :=
          default DEFAULT_EVENT_CATEGORY (asEventCategory (prop candidate "category")) in
        let parsedSource :=
          default manual (asCalendarEventSource (prop candidate "source")) in
        Some (mkStoredUserEvent id date (trim title) parsedCategory parsedSource)
    | _, _, _ => None
    end
  | _ => None
  end.

Definition loadUserEventsFromStorage : M (list StoredUserEvent) :=
  try_catch
    (let* raw := localStorage_getItem USER_EVENTS_STORAGE_KEY in
     match raw with
     | None | Some Empty => ret []
     | Some raw =>
       let* parsed := JSON_parse raw in
       match parsed with
       | JArr items => ret (omap parseStoredUserEvent items)
       | _ => ret []
       end
     end)
    (fun _ => ret []).

Definition storedUserEvent_json (ev : StoredUserEvent) : json :=
  JObj [(u "id", JStr (id ev)); (u "date", JStr (date ev));
        (u "title", JStr (title ev));
        (u "category", JStr (category_string (category ev)));
        (u "source", JStr (source_string (source ev)))].

Definition saveUserEventsToStorage (events : list StoredUserEvent) : M unit :=
  try_catch
    (let payload := List.map storedUserEvent_json events in
     localStorage_setItem USER_EVENTS_STORAGE_KEY (JSON_stringify (JArr payload)))
    (fun _ => ret tt).

(** ** The proposal pipeline of [handleSendMessage], from the parsed JSON on *)

(** [`${date}::${title}`] *)
Definition dedupKey (date title : jsstring) : jsstring :=
  date ++ u "::" ++ title.

Definition proposalProject (userMessageText : jsstring) (parsed : json) : jsstring :=
  match asString (prop (Some parsed) "project") with
  | Some p => if jsstring_eqb (trim p) [] then trim (slice0 30 userMessageText) else trim p
  | None => trim (slice0 30 userMessageText)
  end.

Definition proposalDeadline (parsed : json) : option jsstring :=
  match asString (prop (Some parsed) "deadline") with
  | Some d => if isValidDateKey d then Some d else None
  | None => None
  end.

(** The title computed for an event once its task text is known. *)
Definition resolveTitle (project taskCandidate : jsstring) : jsstring :=
  let projectPrefix := project ++ u ":" in
  let normalizedTask :=
    if startsWith taskCandidate projectPrefix
    then trim (skipn (length projectPrefix) taskCandidate)
    else taskCandidate in
  if jsstring_eqb project [] then normalizedTask
  else project ++ u ": " ++ normalizedTask.

(** The callback of [parsed.events.map]: [None] stands for [null]. *)
Definition toCandidateEvent (project : jsstring) (ev : json)
    : option ScheduleProposalItem :=
  let date := prop (Some ev) "date" in
  let taskCandidate :=
    match asString (prop (Some ev) "task") with
    | Some task => trim task
    | None =>
      match asString (prop (Some ev) "title") with
      | Some title => trim title
      | None => []
      end
    end in
  if jsstring_eqb taskCandidate [] then None
  else
    let title := resolveTitle project taskCandidate in
    let category :=
      default DEFAULT_EVENT_CATEGORY (asEventCategory (prop (Some ev) "category")) in
    match asString date with
    | Some date =>
      if negb (isValidDateKey date) then None
      else if jsstring_eqb title [] then None
      else Some (mkItem date title category)
    | None => None
    end.

Definition candidateEvents (project : jsstring) (parsed : json)
    : list ScheduleProposalItem :=
  match prop (Some parsed) "events" with
  | Some (JArr events) => omap (toCandidateEvent project) events
  | _ => []
  end.

(** The loop that fills [deduped], with its [seen] set. *)
Fixpoint dedupeLoop (seen : gset jsstring) (deduped : list ScheduleProposalItem)
    (candidates : list ScheduleProposalItem) : list ScheduleProposalItem :=
  match candidates with
  | [] => deduped
  | item :: rest =>
    let key := dedupKey (item_date item) (item_title item) in
    if bool_decide (key ∈ seen) then dedupeLoop seen deduped rest
    else dedupeLoop ({[key]} ∪ seen) (deduped ++ [item]) rest
  end.

Definition dedupe (candidates : list ScheduleProposalItem) : list ScheduleProposalItem :=
  dedupeLoop ∅ [] candidates.

(** [deduped.slice(0, 4)] *)
Definition validatedItems (project : jsstring) (parsed : json)
    : list ScheduleProposalItem :=
  firstn 4 (dedupe (candidateEvents project parsed)).

Definition withDate (item : ScheduleProposalItem) (date : jsstring)
    : ScheduleProposalItem :=
  mkItem date (item_title item) (item_category item).

(** The callback of the first [proposedItems.map] under
    [if (executionStartKey && executionEndKey)]. *)
Definition clampToWindow (todayKey executionStartKey executionEndKey : jsstring)
    (item : ScheduleProposalItem) : ScheduleProposalItem :=
  let preWorkLatestKey :=
    clampMinDateKey (shiftDateKeyByDays executionStartKey (-1)) todayKey in
  let postWorkEarliestKey := clampMinDateKey executionEndKey todayKey in
  let date := item_date item in
  let preWork := isPreWorkTitle (item_title item) in
  let postWork := isPostWorkTitle (item_title item) in
  let date :=
    if preWork then clampMaxDateKey date preWorkLatestKey
    else if postWork then clampMinDateKey date postWorkEarliestKey
    else
      let date :=
        match compareDateKey date executionStartKey with
        | Lt => executionStartKey
        | _ => date
        end in
      match compareDateKey date executionEndKey with
      | Gt => executionEndKey
      | _ => date
      end in
  let date := clampMinDateKey date todayKey in
  withDate item date.

Definition preWorkRank (title : jsstring) : Z :=
  if includes title (u "품의") || includes title (u "상신") || includes title (u "결재")
  then 0
  else if includes title (u "견적") || includes title (u "업체")
          || includes title (u "선정") || includes title (u "입찰")
  then 1
  else if includes title (u "계약") || includes title (u "원인행위")
          || includes title (u "발주")
  then 2
  else 3.

Definition postWorkRank (title : jsstring) : Z :=
  if includes title (u "검수") || includes title (u "준공") then 0
  else if includes title (u "정산") || includes title (u "지출") then 1
  else if includes title (u "세금계산서") || includes title (u "대금") then 2
  else 3.

Definition titleAt (proposedItems : list ScheduleProposalItem) (idx : nat) : jsstring :=
  from_option item_title [] (proposedItems !! idx).

Definition dateAt (proposedItems : list ScheduleProposalItem) (idx : nat) : jsstring :=
  from_option item_date [] (proposedItems !! idx).

(** The indices of the items whose title satisfies [p], sorted by [rank]. *)
Definition rankedIndices (p : jsstring -> bool) (rank : jsstring -> Z)
    (proposedItems : list ScheduleProposalItem) : list nat :=
  stable_sort
    (fun a b => rank (titleAt proposedItems a) - rank (titleAt proposedItems b) <=? 0)
    (List.filter (fun idx => p (titleAt proposedItems idx))
       (seq 0 (length proposedItems))).

(** [new Set(indices.map(idx => proposedItems[idx].date)).size < indices.length] *)
Definition datesCollide (proposedItems : list ScheduleProposalItem)
    (indices : list nat) : bool :=
  (1 <? length indices)%nat
  && (size (list_to_set (List.map (dateAt proposedItems) indices) : gset jsstring)
      <? length indices)%nat.

(** [indices.forEach((idx, order) => { proposedItems[idx] = ... })] *)
Fixpoint respread (desired : nat -> jsstring) (order : nat) (indices : list nat)
    (proposedItems : list ScheduleProposalItem) : list ScheduleProposalItem :=
  match indices with
  | [] => proposedItems
  | idx :: rest =>
    let proposedItems :=
      match proposedItems !! idx with
      | Some item => <[idx := withDate item (desired order)]> proposedItems
      | None => proposedItems
      end in
    respread desired (S order) rest proposedItems
  end.

(** The body of [if (executionStartKey && executionEndKey)]. *)
Definition arrangeAroundWindow (todayKey executionStartKey executionEndKey : jsstring)
    (proposedItems : list ScheduleProposalItem) : list ScheduleProposalItem :=
  let preWorkLatestKey :=
    clampMinDateKey (shiftDateKeyByDays executionStartKey (-1)) todayKey in
  let postWorkEarliestKey := clampMinDateKey executionEndKey todayKey in
  let proposedItems :=
    List.map (clampToWindow todayKey executionStartKey executionEndKey) proposedItems in
  let preWorkIndices := rankedIndices isPreWorkTitle preWorkRank proposedItems in
  let postWorkIndices := rankedIndices isPostWorkTitle postWorkRank proposedItems in
  let proposedItems :=
    if datesCollide proposedItems preWorkIndices
    then respread
           (fun order =>
              let offset := Z.of_nat (length preWorkIndices) - 1 - Z.of_nat order in
              clampMinDateKey (shiftDateKeyByDays preWorkLatestKey (- offset)) todayKey)
           0 preWorkIndices proposedItems
    else proposedItems in
  if datesCollide proposedItems postWorkIndices
  then respread
         (fun order =>
            clampMinDateKey (shiftDateKeyByDays postWorkEarliestKey (Z.of_nat order))
              todayKey)
         0 postWorkIndices proposedItems
  else proposedItems.

(** [proposedItems] as it is when the summary is built. *)
Definition proposedItems (userMessageText : jsstring) (now : Date) (parsed : json)
    : list ScheduleProposalItem :=
  let todayKey := formatDateKey now in
  let executionWindow := inferExecutionWindowFromText userMessageText now in
  let project := proposalProject userMessageText parsed in
  let proposedItems :=
    List.map (fun item => withDate item (clampMinDateKey (item_date item) todayKey))
      (validatedItems project parsed) in
  let proposedItems :=
    match executionWindow with
    | Some w =>
      if negb (jsstring_eqb (start w) []) && negb (jsstring_eqb (end_ w) [])
      then arrangeAroundWindow todayKey (start w) (end_ w) proposedItems
      else proposedItems
    | None => proposedItems
    end in
  stable_sort
    (fun a b => negb (bool_decide (compareDateKey (item_date a) (item_date b) = Gt)))
    proposedItems.

(** The [scheduleProposal] attached to the answer; [None] when there is
    nothing to propose. *)
Definition buildScheduleProposal (userMessageText : jsstring) (now : Date)
    (parsed : json) : option ScheduleProposal :=
  let proposedItems := proposedItems userMessageText now parsed in
  if (0 <? length proposedItems)%nat
  then Some (mkProposal (proposalProject userMessageText parsed)
               (proposalDeadline parsed) proposedItems
               (List.map (fun _ => true) proposedItems) (Some false) None None)
  else None.

(** ** Chat messages and the proposal callbacks *)

Record ChatMessage := mkMessage {
  msg_id : jsstring;
  text : jsstring;
  isUser : bool;
  scheduleProposal : option ScheduleProposal
}.

Definition withSelected (p : ScheduleProposal) (sel : list bool) : ScheduleProposal :=
  mkProposal (project p) (deadline p) (items p) sel (applied p)
    (appliedCount p) (skippedCount p).

(** The updater of [toggleScheduleProposalItem]. *)
Definition toggleScheduleProposalItem (messageId : jsstring) (index : Z)
    (prev : list ChatMessage) : list ChatMessage :=
  List.map
    (fun msg =>
       if negb (jsstring_eqb (msg_id msg) messageId) then msg
       else match scheduleProposal msg with
            | None => msg
            | Some p =>
              if bool_decide (applied p = Some true) then msg
              else if (index <? 0) || (Z.of_nat (length (selected p)) <=? index) then msg
              else
                let nextSelected :=
                  alter negb (Z.to_nat index) (selected p) in
                mkMessage (msg_id msg) (text msg) (isUser msg)
                  (Some (withSelected p nextSelected))
            end)
    prev.

(** [proposal.items.filter((_, idx) => proposal.selected[idx])] *)
Fixpoint selectedItemsOf (items : list ScheduleProposalItem) (selected : list bool)
    : list ScheduleProposalItem :=
  match items, selected with
  | item :: items', b :: selected' =>
    if b then item :: selectedItemsOf items' selected'
    else selectedItemsOf items' selected'
  | _, _ => []
  end.

(** The [for] loop of [applyScheduleProposal]: [added] and the key set. *)
Fixpoint addLoop (existingKeySet : gset jsstring) (added : list StoredUserEvent)
    (selectedItems : list ScheduleProposalItem) : M (list StoredUserEvent) :=
  match selectedItems with
  | [] => ret added
  | item :: rest =>
    let key := dedupKey (item_date item) (item_title item) in
    if bool_decide (key ∈ existingKeySet) then addLoop existingKeySet added rest
    else
      let* n := nanoid in
      addLoop ({[key]} ∪ existingKeySet)
        (added ++ [mkStoredUserEvent (u "user-" ++ n) (item_date item)
                     (item_title item) (item_category item) ai])
        rest
  end.

Definition applySummary (proposal : ScheduleProposal) (added : list StoredUserEvent)
    : list jsstring :=
  [u "적용 완료: **" ++ String_of_int (Z.of_nat (length added))
     ++ u "개** 일정이 캘린더에 추가됐어요."]
  ++ (if jsstring_eqb (project proposal) [] then []
      else [u "- 프로젝트: **" ++ project proposal ++ u "**"])
  ++ (match deadline proposal with
      | Some d => if jsstring_eqb d [] then [] else [u "- 마감: **" ++ d ++ u "**"]
      | None => []
      end)
  ++ (if (0 <? length added)%nat
      then [] :: List.map (fun ev => u "- " ++ date ev ++ u " " ++ title ev) added
      else [[]; u "선택한 일정이 이미 등록되어 있어 새로 추가된 일정이 없어요."]).

(** The updater that [applyScheduleProposal] hands to [setMessages]. *)
Definition applyScheduleProposal (messageId : jsstring) (prev : list ChatMessage)
    : M (list ChatMessage) :=
  match List.find (fun msg => jsstring_eqb (msg_id msg) messageId) prev with
  | None => ret prev
  | Some target =>
    match scheduleProposal target with
    | None => ret prev
    | Some proposal =>
      if bool_decide (applied proposal = Some true) then ret prev
      else
        let selectedItems := selectedItemsOf (items proposal) (selected proposal) in
        if (length selectedItems =? 0)%nat then ret prev
        else
          let* existing := loadUserEventsFromStorage in
          let existingKeySet : gset jsstring :=
            list_to_set (List.map (fun ev => dedupKey (date ev) (title ev)) existing) in
          let* added := addLoop existingKeySet [] selectedItems in
          let nextEvents := added ++ existing in
          saveUserEventsToStorage nextEvents >>
          dispatchEvent USER_EVENTS_UPDATED_EVENT >>
          let summaryLines := applySummary proposal added in
          ret (List.map
                 (fun msg =>
                    if negb (jsstring_eqb (msg_id msg) messageId) then msg
                    else
                      mkMessage (msg_id msg)
                        (trim (text msg ++ [10%N; 10%N] ++ join_lines summaryLines))
                        (isUser msg)
                        (Some (mkProposal (project proposal) (deadline proposal)
                                 (items proposal) (selected proposal) (Some true)
                                 (Some (length added))
                                 (Some (length selectedItems - length added)%nat))))
                 prev)
    end
  end.

(** ** Further callbacks of the proposal card *)

(** [extractFirstJsonObject]; ['{'] and ['}'] are the code units 123 and
    125. *)
Definition extractFirstJsonObject (text : jsstring) : option jsstring :=
  match indexOf 123 text with
  | None => None
  | Some start =>
    match lastIndexOf 125 text with
    | None => None
    | Some end_ =>
      if (end_ <=? start)%nat then None
      else Some (slice start (end_ + 1) text)
    end
  end.

(** The updater of [toggleScheduleProposalAll]. *)
Definition toggleScheduleProposalAll (messageId : jsstring)
    (prev : list ChatMessage) : list ChatMessage :=
  List.map
    (fun msg =>
       if negb (jsstring_eqb (msg_id msg) messageId) then msg
       else match scheduleProposal msg with
            | None => msg
            | Some p =>
              if bool_decide (applied p = Some true) then msg
              else
                let allSelected := forallb (fun b => b) (selected p) in
                let nextSelected := List.map (fun _ => negb allSelected) (selected p) in
                mkMessage (msg_id msg) (text msg) (isUser msg)
                  (Some (withSelected p nextSelected))
            end)
    prev.

Definition withItems (p : ScheduleProposal) (its : list ScheduleProposalItem)
    : ScheduleProposal :=
  mkProposal (project p) (deadline p) its (selected p) (applied p)
    (appliedCount p) (skippedCount p).

(** [updateScheduleProposalDate]: the messages after the call. *)
Definition updateScheduleProposalDate (messageId : jsstring) (index : Z)
    (nextDateKey : jsstring) (prev : list ChatMessage) : list ChatMessage :=
  if negb (isValidDateKey nextDateKey) then prev
  else
    List.map
      (fun msg =>
         if negb (jsstring_eqb (msg_id msg) messageId) then msg
         else match scheduleProposal msg with
              | None => msg
              | Some p =>
                if bool_decide (applied p = Some true) then msg
                else if (index <? 0) || (Z.of_nat (length (items p)) <=? index) then msg
                else
                  let nextItems :=
                    alter (fun item => withDate item nextDateKey) (Z.to_nat index)
                      (items p) in
                  mkMessage (msg_id msg) (text msg) (isUser msg)
                    (Some (withItems p nextItems))
              end)
      prev.

(** The [provider] that [handleSendMessage] settles on. *)
Definition provider (apiKey openRouterApiKey : jsstring)
    (aiProviderPreference : ApiKeyContext.AiProviderPreference)
    : ApiKeyContext.Provider :=
  let hasGemini := ApiKeyContext.nonEmpty apiKey in
  let hasOpenRouter := ApiKeyContext.nonEmpty openRouterApiKey in
  match aiProviderPreference with
  | ApiKeyContext.gemini =>
    if hasGemini then Some ApiKeyContext.gemini
    else if hasOpenRouter then Some ApiKeyContext.openrouter else None
  | ApiKeyContext.openrouter =>
    if hasOpenRouter then Some ApiKeyContext.openrouter
    else if hasGemini then Some ApiKeyContext.gemini else None
  | ApiKeyContext.auto =>
    if hasGemini then Some ApiKeyContext.gemini
    else if hasOpenRouter then Some ApiKeyContext.openrouter else None
  end.

End Chatbot.

(* ===================================================================== *)
(** * Vocabulary of the statements *)
(* ===================================================================== *)

Definition zrange (lo hi : Z) : list Z :=
  List.map (fun k => lo + Z.of_nat k) (seq 0 (Z.to_nat (hi - lo + 1))).

Definition pad2 (n : Z) : jsstring := padStart0 2 (String_of_int n).

(** [a <= b] on date keys. *)
Definition key_le (a b : jsstring) : Prop := compareDateKey a b <> Gt.

Definition date_compare (a b : Date) : comparison :=
  match getFullYear a ?= getFullYear b with
  | Eq =>
    match getMonth a ?= getMonth b with
    | Eq => getDate a ?= getDate b
    | r => r
    end
  | r => r
  end.

Definition year4 (d : Date) : Prop := 1000 <= getFullYear d <= 9999.

Definition md_range (d : Date) : Prop :=
  0 <= getMonth d <= 11 /\ 1 <= getDate d <= 31.

(** [(m1, d1)] comes before [(m2, d2)] in the year. *)
Definition md_before (m1 d1 m2 d2 : Z) : bool :=
  (m1 <? m2) || ((m1 =? m2) && (d1 <? d2)).

(** The years [inferExecutionWindowFromText] is said to choose. *)
Definition inferred_start_year (base : Date) (sm sd : Z) : Z :=
  if md_before sm sd (getMonth base + 1) (getDate base)
  then getFullYear base + 1 else getFullYear base.

Definition inferred_end_year (base : Date) (sm sd em ed : Z) : Z :=
  if md_before em ed sm sd
  then inferred_start_year base sm sd + 1 else inferred_start_year base sm sd.

(** The dedup key of a proposal item and of a stored event. *)
Definition itemKey (item : Chatbot.ScheduleProposalItem) : jsstring :=
  Chatbot.dedupKey (Chatbot.item_date item) (Chatbot.item_title item).

Definition eventKey (ev : Chatbot.StoredUserEvent) : jsstring :=
  Chatbot.dedupKey (Chatbot.date ev) (Chatbot.title ev).

(** The items that pass the key check of a loop that starts with the key
    set [seen] and adds the key of every item it lets through. *)
Fixpoint freshItems (seen : gset jsstring) (items : list Chatbot.ScheduleProposalItem)
    : list Chatbot.ScheduleProposalItem :=
  match items with
  | [] => []
  | item :: rest =>
    if bool_decide (itemKey item ∈ seen) then freshItems seen rest
    else item :: freshItems ({[itemKey item]} ∪ seen) rest
  end.

(** The user events made from [items] with the identifiers [source n],
    [source (n + 1)], ... *)
Fixpoint eventsOf (source : nat -> jsstring) (n : nat)
    (items : list Chatbot.ScheduleProposalItem) : list Chatbot.StoredUserEvent :=
  match items with
  | [] => []
  | item :: rest =>
    Chatbot.mkStoredUserEvent (u "user-" ++ source n) (Chatbot.item_date item)
      (Chatbot.item_title item) (Chatbot.item_category item) ai
    :: eventsOf source (S n) rest
  end.

(** The proposal of the first message with the given id. *)
Definition proposalOf (messageId : jsstring) (msgs : list Chatbot.ChatMessage)
    : option Chatbot.ScheduleProposal :=
  match List.find (fun msg => jsstring_eqb (Chatbot.msg_id msg) messageId) msgs with
  | Some target => Chatbot.scheduleProposal target
  | None => None
  end.

(** The array stored under the user-events key. *)
Definition storedEvents (events : list Chatbot.StoredUserEvent) : stored :=
  Json (JArr (List.map Chatbot.storedUserEvent_json events)).


(** The number of events in [events] with the key [k]. *)
Definition countKey (k : jsstring) (events : list Chatbot.StoredUserEvent) : nat :=
  length (List.filter (fun ev => jsstring_eqb (eventKey ev) k) events).

(** The proposal after an apply that committed [n] events. *)
Definition appliedProposal (proposal : Chatbot.ScheduleProposal) (n : nat)
    : Chatbot.ScheduleProposal :=
  Chatbot.mkProposal (Chatbot.project proposal) (Chatbot.deadline proposal) (Chatbot.items proposal)
    (Chatbot.selected proposal) (Some true) (Some n)
    (Some (length (Chatbot.selectedItemsOf (Chatbot.items proposal) (Chatbot.selected proposal)) - n)%nat).





(** ** Vocabulary for the OpenRouter client *)

Section NetworkVocabulary.
Import OpenRouter.
Variable Net : Type.
Variable fetch : Request -> Net -> fetched * Net.
Variable options : OpenRouterChatCompletionOptions.

(** The request for one model: the caller's key as bearer token, and a
    body that names the model and carries the caller's messages and
    temperature (0.2 when none is given). *)
Definition requestFor (candidateModel : jsstring) : Request :=
  {| req_authorization := u "Bearer " ++ apiKey options;
     req_model := candidateModel;
     req_messages := messages options;
     req_temperature := match temperature options with
                        | Some t => t
                        | None => (2 # 10)%Q
                        end |}.

(** A candidate succeeds with [content]: its request is answered, the
    response is OK, its body is JSON, and [choices[0].message.content] of
    the body is the string [content], which is not empty. *)
Definition Succeeds (r : fetched) (content : jsstring) : Prop :=
  exists res parsed,
    r = Resolved res /\ ok res = true /\ raw res = Ok parsed /\
    prop (prop (first_element (prop (Some parsed) "choices")) "message") "content"
    = Some (JStr content) /\
    content <> [].

(** [TriedAndFailed net models net']: starting in [net], one request is
    sent for each model of [models] in turn, each to the network as the
    request before it left it, none of them succeeds, and the network is
    left as [net']. *)
Inductive TriedAndFailed : Net -> list jsstring -> Net -> Prop :=
| TriedAndFailed_nil net : TriedAndFailed net [] net
| TriedAndFailed_cons net candidateModel rest r net1 net' :
    fetch (requestFor candidateModel) net = (r, net1) ->
    (forall content, ~ Succeeds r content) ->
    TriedAndFailed net1 rest net' ->
    TriedAndFailed net (candidateModel :: rest) net'.

End NetworkVocabulary.

(** A network that keeps the requests it has received, latest first.  It
    refuses the connection for the model [broken/model], answers the first
    default model with HTTP 429, and any other model with a completion
    whose content names the model. *)
Definition logging (request : OpenRouter.Request) (log : list OpenRouter.Request)
    : OpenRouter.fetched * list OpenRouter.Request :=
  (if jsstring_eqb (OpenRouter.req_model request) (u "broken/model")
   then OpenRouter.Rejected (ErrorObj (u "Failed to fetch"))
   else if jsstring_eqb (OpenRouter.req_model request)
             (u "mistralai/mistral-7b-instruct:free")
   then OpenRouter.Resolved (OpenRouter.mkResponse false 429 (Ok (JObj [])))
   else OpenRouter.Resolved
          (OpenRouter.mkResponse true 200
             (Ok (JObj [(u "choices",
                         JArr [JObj [(u "message",
                                      JObj [(u "content",
                                             JStr (u "from " ++ OpenRouter.req_model request))])]])]))),
   request :: log).

Definition hello : list OpenRouter.OpenRouterMessage :=
  [OpenRouter.mkMsg OpenRouter.user (u "hello")].

(** A network that answers every request with HTTP 401 and a structured
    error body. *)
Definition unauthorized_body : json :=
  JObj [(u "error", JObj [(u "message", JStr (u "Invalid API key"))])].

Definition unauthorized (_ : OpenRouter.Request) (net : unit)
    : OpenRouter.fetched * unit :=
  (OpenRouter.Resolved (OpenRouter.mkResponse false 401 (Ok unauthorized_body)), net).

(** ** Vocabulary for the builtin overrides *)

(** The builtin event of the schedule line ["3월 ; 2일 ; 예산 ; 예산편성 기본계획 수립"]
    for 2025. *)
Definition budget_event : CalendarEvent :=
  mkCalendarEvent (u "event-2025-3-2-예산편성기본계획-1") (u "2025-03-02")
    (u "예산편성 기본계획 수립") builtin Budget manual.

Definition budget_store : Calendar.Store :=
  Calendar.mkStore [budget_event] ∅ [] ∅ ∅ None.

Definition closed_editor : Calendar.Editor :=
  Calendar.mkEditor false Calendar.create None user [] (Some Other) 2025 1 1 None.

(** A world with an empty store that accepts every write. *)
Definition fresh_world : World :=
  mkWorld ∅ true (fun _ _ => true) [] (fun n => String_of_int (Z.of_nat n)) 0.


(** Every stored override has a field. *)
Definition overrides_nonempty (overrides : Calendar.BuiltinEventOverrides) : Prop :=
  forall id o, overrides !! id = Some o -> Calendar.hasNoField o = false.

(** ** Vocabulary for the backup import *)

(** The event is not dated in year [y]. *)
Definition otherYear (y : Z) (ev : ApiKeyModal.StoredUserEvent) : bool :=
  negb (bool_decide (ApiKeyModal.yearFromDateKey (ApiKeyModal.date ev) = Some y)).

(** What an import writes, given what was stored. *)
Definition importedEvents (backup : ApiKeyModal.BackupFileV1)
    (existing : list ApiKeyModal.StoredUserEvent) : list ApiKeyModal.StoredUserEvent :=
  ApiKeyModal.userEvents backup
  ++ List.filter (otherYear (ApiKeyModal.year backup)) existing.

Definition importedOverrides (backup : ApiKeyModal.BackupFileV1)
    (existing : gmap jsstring ApiKeyModal.StoredBuiltinEventOverride)
    : gmap jsstring ApiKeyModal.StoredBuiltinEventOverride :=
  ApiKeyModal.builtinEventOverrides backup
  ∪ ApiKeyModal.remainingOverrides (ApiKeyModal.year backup) existing.

Definition storedModalEvents (events : list ApiKeyModal.StoredUserEvent) : stored :=
  Json (JArr (List.map ApiKeyModal.storedUserEvent_json events)).

Definition storedOverrides
    (overrides : gmap jsstring ApiKeyModal.StoredBuiltinEventOverride) : stored :=
  Json (ApiKeyModal.overrides_json overrides).

(** A store that holds a title override of a builtin event of 2026, and a
    backup of 2025 that moves the same event to a day of 2025. *)
Definition event_2026 : jsstring := u "event-2026-3-2-예산편성기본계획-1".

Definition collision_world : World :=
  mkWorld
    {[BUILTIN_EVENT_OVERRIDES_STORAGE_KEY :=
        Json (JObj [(event_2026, JObj [(u "title", JStr (u "예산 계획"))])])]}
    true (fun _ _ => true) [] (fun n => String_of_int (Z.of_nat n)) 0.

Definition collision_backup : json :=
  JObj [(u "version", JNum (Finite 1));
        (u "year", JNum (Finite 2025));
        (u "userEvents", JArr []);
        (u "builtinEventOverrides",
         JObj [(event_2026, JObj [(u "date", JStr (u "2025-05-05"))])])].

(** The override the import's loader reads for [id] in the world [w]. *)
Definition loadedOverride (w : World) (id : jsstring)
    : option ApiKeyModal.StoredBuiltinEventOverride :=
  match fst (ApiKeyModal.loadStoredBuiltinOverrides w) with
  | Ok overrides => overrides !! id
  | Throw _ => None
  end.

(** The value an object text gives to [id]: that of its last field of this
    name. *)
Definition lastValue (fields : list (jsstring * json)) (id : jsstring) : option json :=
  match List.find (fun kv => jsstring_eqb (fst kv) id) (rev fields) with
  | Some kv => Some (snd kv)
  | None => None
  end.

(** The override that the text of an overrides object holds for [id]: none
    for the name [__proto__]; else the date, title and category read from
    the value of [id], when this value is an object and one of the three
    is there. *)
Definition overrideAt (fields : list (jsstring * json)) (id : jsstring)
    : option ApiKeyModal.StoredBuiltinEventOverride :=
  if jsstring_eqb id (u "__proto__") then None
  else
    match lastValue fields id with
    | Some (JObj f) =>
      if ApiKeyModal.hasField (ApiKeyModal.readOverride (JObj f))
      then Some (ApiKeyModal.readOverride (JObj f))
      else None
    | _ => None
    end.

(** The override for [id] among those of year [y], and among those of the
    other years. *)
Definition overrideOfYear (y : Z) (fields : list (jsstring * json)) (id : jsstring)
    : option ApiKeyModal.StoredBuiltinEventOverride :=
  match overrideAt fields id with
  | Some o => if bool_decide (ApiKeyModal.effectiveYear id o = Some y) then Some o else None
  | None => None
  end.

Definition overrideOfOtherYear (y : Z) (fields : list (jsstring * json)) (id : jsstring)
    : option ApiKeyModal.StoredBuiltinEventOverride :=
  match overrideAt fields id with
  | Some o => if bool_decide (ApiKeyModal.effectiveYear id o = Some y) then None else Some o
  | None => None
  end.

(** The entries of the array stored under [key], and the fields of the
    object stored under [key]: none when nothing is stored there or what is
    stored is not the text of an array, or of an object. *)
Definition storedArray (w : World) (key : jsstring) : list json :=
  match ls_items w !! key with
  | Some (Json (JArr entries)) => entries
  | _ => []
  end.

Definition storedObject (w : World) (key : jsstring) : list (jsstring * json) :=
  match ls_items w !! key with
  | Some (Json (JObj fields)) => fields
  | _ => []
  end.

(** A user event is in the form in which the import writes it. *)
Definition normalForm (ev : ApiKeyModal.StoredUserEvent) : Prop :=
  ApiKeyModal.id ev <> [] /\ isDateKeyLike (ApiKeyModal.date ev) = true /\
  trim (ApiKeyModal.title ev) = ApiKeyModal.title ev /\ ApiKeyModal.title ev <> [].
(** A store that holds an event of 2024 whose title is not trimmed, an
    event of 2025 and an entry without id, and a backup of 2025 that
    holds an event of 2025 and an event of 2024. *)
Definition import_store : World :=
  mkWorld
    {[USER_EVENTS_STORAGE_KEY :=
        Json (JArr [JObj [(u "id", JStr (u "user-a")); (u "date", JStr (u "2024-03-04"));
                          (u "title", JStr (u " 결산 ")); (u "category", JStr (u "예산"));
                          (u "source", JStr (u "manual"))];
                    JObj [(u "id", JStr (u "user-b")); (u "date", JStr (u "2025-06-01"));
                          (u "title", JStr (u "지출")); (u "category", JStr (u "지출"));
                          (u "source", JStr (u "manual"))];
                    JObj [(u "date", JStr (u "2024-01-01")); (u "title", JStr (u "메모"))]])]}
    true (fun _ _ => true) [] (fun n => String_of_int (Z.of_nat n)) 0.

Definition import_fields : list (jsstring * json) :=
  [(u "version", JNum (Finite 1));
   (u "year", JNum (Finite 2025));
   (u "userEvents",
    JArr [JObj [(u "id", JStr (u "user-c")); (u "date", JStr (u "2025-07-07"));
                (u "title", JStr (u "계약")); (u "category", JStr (u "계약"));
                (u "source", JStr (u "ai"))];
          JObj [(u "id", JStr (u "user-d")); (u "date", JStr (u "2024-09-09"));
                (u "title", JStr (u "감사")); (u "category", JStr (u "기타"));
                (u "source", JStr (u "manual"))]]);
   (u "builtinEventOverrides", JObj [])].

(** The test for the entry of [id] in a list of entries. *)
Definition assoc_test (id : jsstring) (kv : jsstring * json) : bool :=
  jsstring_eqb (fst kv) id.

(** A proposal with a repeated item, all selected, and the same proposal
    with nothing selected. *)
Definition banner_proposal (selected : list bool) : Chatbot.ScheduleProposal :=
  Chatbot.mkProposal (u "현수막") None
    [Chatbot.mkItem (u "2025-12-18") (u "현수막: 품의") Other;
     Chatbot.mkItem (u "2025-12-18") (u "현수막: 품의") Other;
     Chatbot.mkItem (u "2025-12-24") (u "현수막: 검수") Other]
    selected (Some false) None None.

Definition banner_messages (selected : list bool) : list Chatbot.ChatMessage :=
  [Chatbot.mkMessage (u "ai-1") [] false (Some (banner_proposal selected))].

(** An answer of the model in which the first task is the project name
    followed by a colon, and the proposal built from it on 1 November 2025
    for a request that names no execution window. *)
Definition colon_payload : json :=
  JObj [(u "project", JStr (u "현수막"));
        (u "events",
         JArr [JObj [(u "date", JStr (u "2025-12-18")); (u "task", JStr (u "현수막:"))];
               JObj [(u "date", JStr (u "2025-12-24")); (u "task", JStr (u "검수"))]])].

Definition colon_request : jsstring := u "현수막 일정을 만들어줘".

Definition colon_proposal : Chatbot.ScheduleProposal :=
  Chatbot.mkProposal (u "현수막") None
    [Chatbot.mkItem (u "2025-12-18") (u "현수막: ") Other;
     Chatbot.mkItem (u "2025-12-24") (u "현수막: 검수") Other]
    [true; true] (Some false) None None.

(** Two answers of the chat that carry this proposal. *)
Definition colon_messages : list Chatbot.ChatMessage :=
  [Chatbot.mkMessage (u "ai-1") [] false (Some colon_proposal);
   Chatbot.mkMessage (u "ai-2") [] false (Some colon_proposal)].

(** A day as a number that grows with the calendar. *)
Definition dayOrd (d : Date) : Z :=
  getFullYear d * 10000 + getMonth d * 100 + getDate d.

(** [k] is the key of a calendar day of a year from [lo] to [hi]. *)
Definition dayKey (lo hi : Z) (k : jsstring) : Prop :=
  exists D, wf_date D /\ lo <= getFullYear D <= hi /\ k = formatDateKey D.

(** The bounds that the arrangement around the window [s]..[e] keeps, with
    [latest] the latest day of pre-work. *)
Definition aroundWindow (latest s e : jsstring) (item : Chatbot.ScheduleProposalItem) : Prop :=
  (Chatbot.isPreWorkTitle (Chatbot.item_title item) = true ->
   Chatbot.isPostWorkTitle (Chatbot.item_title item) = false ->
   key_le (Chatbot.item_date item) latest) /\
  (Chatbot.isPreWorkTitle (Chatbot.item_title item) = false ->
   Chatbot.isPostWorkTitle (Chatbot.item_title item) = true ->
   key_le e (Chatbot.item_date item)) /\
  (Chatbot.isPreWorkTitle (Chatbot.item_title item) = false ->
   Chatbot.isPostWorkTitle (Chatbot.item_title item) = false ->
   key_le s (Chatbot.item_date item) /\ key_le (Chatbot.item_date item) e).

(** An answer of the model for a request with the window 20 to 24
    December: approval and contract, installation, inspection and
    settlement, all proposed for 22 December. *)
Definition window_payload : json :=
  JObj [(u "project", JStr (u "현수막"));
        (u "events",
         JArr [JObj [(u "date", JStr (u "2025-12-22")); (u "task", JStr (u "계약"))];
               JObj [(u "date", JStr (u "2025-12-22")); (u "task", JStr (u "품의"))];
               JObj [(u "date", JStr (u "2025-12-22")); (u "task", JStr (u "설치"))];
               JObj [(u "date", JStr (u "2025-12-22")); (u "task", JStr (u "검수"))]])].

Definition window_request : jsstring := u "12월 20~24일 현수막 설치".

(** An answer with a title that has a pre-work and a post-work keyword. *)
Definition both_payload : json :=
  JObj [(u "project", JStr (u "현수막"));
        (u "events",
         JArr [JObj [(u "date", JStr (u "2025-12-22")); (u "task", JStr (u "계약 대금"))];
               JObj [(u "date", JStr (u "2025-12-22")); (u "task", JStr (u "검수"))];
               JObj [(u "date", JStr (u "2025-12-22")); (u "task", JStr (u "정산"))]])].

(** What the pipeline never changes in an item. *)
Definition titleCategory (item : Chatbot.ScheduleProposalItem) : jsstring * EventCategory :=
  (Chatbot.item_title item, Chatbot.item_category item).

(** The order in which the proposal lists its items. *)
Definition date_le (a b : Chatbot.ScheduleProposalItem) : Prop :=
  key_le (Chatbot.item_date a) (Chatbot.item_date b).

(** The selection flags of a message's proposal are parallel to its
    items. *)
Definition flagsParallel (msg : Chatbot.ChatMessage) : Prop :=
  match Chatbot.scheduleProposal msg with
  | Some p => length (Chatbot.selected p) = length (Chatbot.items p)
  | None => True
  end.

(** A user event as the chat component and the settings dialog read it. *)
Definition chatEvent (ev : CalendarEvent) : Chatbot.StoredUserEvent :=
  Chatbot.mkStoredUserEvent (ce_id ev) (ce_date ev) (ce_title ev) (ce_category ev)
    (ce_source ev).

Definition modalEvent (ev : CalendarEvent) : ApiKeyModal.StoredUserEvent :=
  ApiKeyModal.mkStoredUserEvent (ce_id ev) (ce_date ev) (ce_title ev) (ce_category ev)
    (ce_source ev).

(** The user events the calendar itself creates: a real day, a trimmed
    title that is not empty, an identifier that is not empty. *)
Definition storable (ev : CalendarEvent) : Prop :=
  ce_kind ev = user /\ ce_id ev <> [] /\ isValidDateKey (ce_date ev) = true /\
  trim (ce_title ev) = ce_title ev /\ ce_title ev <> [].

(** A user event made in the editor. *)
Definition sample_user_event : CalendarEvent :=
  mkCalendarEvent (u "user-V1StGXR8_Z") (u "2025-12-18") (u "현수막: 품의") user Contract manual.

(** The key of the day drafted in the editor, and the drafted title as it
    is stored. *)
Definition draftDateKey (ed : Calendar.Editor) : jsstring :=
  buildDateKeyFromParts (Calendar.draftYear ed) (Calendar.draftMonth ed) (Calendar.draftDay ed).

Definition draftCleanedTitle (ed : Calendar.Editor) : jsstring :=
  trim (Calendar.draftTitle ed).

(** The editor holds a real day of a four-digit year. *)
Definition draftDateValid (ed : Calendar.Editor) : Prop :=
  1000 <= Calendar.draftYear ed <= 9999 /\ 1 <= Calendar.draftMonth ed <= 12 /\
  1 <= Calendar.draftDay ed <= daysInMonth (Calendar.draftYear ed) (Calendar.draftMonth ed - 1).

(** An editor opened on the builtin event of the example, with another
    day and another title. *)
Definition budget_editor : Calendar.Editor :=
  Calendar.mkEditor true Calendar.edit (Some (ce_id budget_event)) builtin
    (u " 예산편성 준비 ") (Some Budget) 2025 3 5 None.

(* ===================================================================== *)
(** * Properties *)
(* ===================================================================== *)

(** ** Equality of strings *)

Lemma jsstring_eqb_true a b : jsstring_eqb a b = true <-> a = b.
Proof. unfold jsstring_eqb. apply bool_decide_eq_true. Qed.

Lemma jsstring_eqb_false a b : jsstring_eqb a b = false <-> a <> b.
Proof. unfold jsstring_eqb. apply bool_decide_eq_false. Qed.

(** ** Sanity checks of the JavaScript model *)

Example u_wol : u "월" = [50900%N]. Proof. reflexivity. Qed.
Example u_il : u "일" = [51068%N]. Proof. reflexivity. Qed.
Example String_of_int_2025 : String_of_int 2025 = u "2025". Proof. reflexivity. Qed.
Example newDate_feb30 : newDate 2024 1 30 = mkD 2024 2 1. Proof. reflexivity. Qed.
Example dayNumber_epoch : dayNumber 1970 0 1 = 0. Proof. reflexivity. Qed.
Example dayNumber_2000 : dayNumber 2000 2 1 = 11017. Proof. reflexivity. Qed.
Example isInvalidDate_last_day :
  isInvalidDate 275760 8 13 = false /\ isInvalidDate 275760 8 14 = true /\
  isInvalidDate (-271821) 3 20 = false /\ isInvalidDate (-271821) 3 19 = true.
Proof. repeat split. Qed.
Example newDate_m0 : newDate 2024 (-1) 0 = mkD 2023 10 30. Proof. reflexivity. Qed.
Example isValidDateKey_feb30 : isValidDateKey (u "2024-02-30") = false.
Proof. reflexivity. Qed.
Example shift_leap : shiftDateKeyByDays (u "2024-02-28") 1 = u "2024-02-29".
Proof. reflexivity. Qed.
Example shift_nonleap : shiftDateKeyByDays (u "2023-02-28") 1 = u "2023-03-01".
Proof. reflexivity. Qed.
Example shift_back : shiftDateKeyByDays (u "2025-01-01") (-1) = u "2024-12-31".
Proof. reflexivity. Qed.

(** ** Calendar arithmetic *)

Lemma daysInMonth_bounds y m : 28 <= daysInMonth y m <= 31.
Proof.
  unfold daysInMonth.
  destruct (m =? 1); [destruct (isLeap y); lia|].
  destruct ((m =? 3) || (m =? 5) || (m =? 8) || (m =? 10)); lia.
Qed.

Lemma iter_succ_day_in_month (k : nat) y m :
  1 + Z.of_nat k <= daysInMonth y m ->
  Nat.iter k succ_day (mkD y m 1) = mkD y m (1 + Z.of_nat k).
Proof.
  induction k as [|k IH]; intros Hk.
  - reflexivity.
  - rewrite Nat.iter_succ, IH by lia.
    unfold succ_day; cbn [getDate getFullYear getMonth].
    destruct (Z.ltb_spec (1 + Z.of_nat k) (daysInMonth y m)); [|lia].
    f_equal; lia.
Qed.

Lemma MakeDay_exact y m d :
  0 <= m <= 11 -> 1 <= d <= daysInMonth y m -> MakeDay y m d = mkD y m d.
Proof.
  intros Hm Hd. unfold MakeDay, add_days.
  destruct (Z.leb_spec 0 (d - 1)); [|lia].
  rewrite Z.div_small, Z.mod_small, Z.add_0_r by lia.
  rewrite iter_succ_day_in_month by lia.
  f_equal; lia.
Qed.

Lemma newDate_exact y m d :
  ~ (0 <= y <= 99) -> 0 <= m <= 11 -> 1 <= d <= daysInMonth y m ->
  newDate y m d = mkD y m d.
Proof.
  intros Hy Hm Hd. unfold newDate.
  destruct ((0 <=? y) && (y <=? 99)) eqn:E; [lia|].
  by apply MakeDay_exact.
Qed.

Lemma newDate_wf (b : Date) :
  wf_date b -> ~ (0 <= getFullYear b <= 99) ->
  newDate (getFullYear b) (getMonth b) (getDate b) = b.
Proof.
  intros [Hm Hd] Hy. destruct b as [y m d]; cbn in *.
  by apply newDate_exact.
Qed.

(** A day number of at most 31 either names a day of the month or runs
    over into the first days of the next month. *)
Lemma newDate_within_31 y m d :
  ~ (0 <= y <= 99) -> 0 <= m <= 11 -> 1 <= d <= 31 ->
  (d <= daysInMonth y m /\ newDate y m d = mkD y m d) \/
  (daysInMonth y m < d /\ m < 11 /\
   newDate y m d = mkD y (m + 1) (d - daysInMonth y m)).
Proof.
  intros Hy Hm Hd.
  destruct (Z_le_gt_dec d (daysInMonth y m)) as [Hle|Hgt].
  - left. split; [done|]. apply newDate_exact; lia.
  - right.
    assert (Hm11 : m < 11).
    { destruct (Z.eq_dec m 11) as [->|]; [|lia].
      unfold daysInMonth in Hgt; cbn in Hgt. lia. }
    split; [lia|]. split; [done|].
    unfold newDate. destruct ((0 <=? y) && (y <=? 99)) eqn:E; [lia|].
    unfold MakeDay, add_days.
    destruct (Z.leb_spec 0 (d - 1)); [|lia].
    rewrite Z.div_small, Z.mod_small, Z.add_0_r by lia.
    pose proof (daysInMonth_bounds y m) as Hb.
    pose proof (daysInMonth_bounds y (m + 1)) as Hb'.
    replace (Z.to_nat (d - 1))
      with (Z.to_nat (d - daysInMonth y m - 1) + (1 + Z.to_nat (daysInMonth y m - 1)))%nat
      by lia.
    rewrite Nat.iter_add. rewrite (Nat.iter_add 1).
    rewrite iter_succ_day_in_month by lia.
    cbn [Nat.iter nat_rect]. unfold succ_day at 2; cbn [getDate getFullYear getMonth].
    destruct (Z.ltb_spec (1 + Z.of_nat (Z.to_nat (daysInMonth y m - 1))) (daysInMonth y m)); [lia|].
    destruct (Z.ltb_spec m 11); [|lia].
    rewrite iter_succ_day_in_month by lia.
    f_equal; lia.
Qed.

(** ** Printing numbers *)

Lemma forallb_zrange (P : Z -> bool) lo hi :
  forallb P (zrange lo hi) = true -> forall y, lo <= y <= hi -> P y = true.
Proof.
  intros H y Hy. rewrite forallb_forall in H. apply H.
  unfold zrange. apply in_map_iff. exists (Z.to_nat (y - lo)).
  split; [lia|]. apply in_seq. lia.
Qed.

Lemma digits_of_S f n acc :
  digits_of (S f) n acc =
  if (n <? 10)%N then (48 + n mod 10)%N :: acc
  else digits_of f (n / 10)%N ((48 + n mod 10)%N :: acc).
Proof. reflexivity. Qed.

Ltac dlia := zify; Z.div_mod_to_equations; lia.

Lemma digits_of_4 fuel n :
  (4 <= fuel)%nat -> (1000 <= n <= 9999)%N ->
  digits_of fuel n [] =
  [(48 + n / 1000)%N; (48 + (n / 100) mod 10)%N; (48 + (n / 10) mod 10)%N; (48 + n mod 10)%N].
Proof.
  intros Hf Hn.
  do 4 (destruct fuel as [|fuel]; [lia|]).
  rewrite digits_of_S. destruct (N.ltb_spec n 10); [lia|].
  rewrite digits_of_S. destruct (N.ltb_spec (n / 10) 10); [dlia|].
  rewrite digits_of_S. destruct (N.ltb_spec (n / 10 / 10) 10); [dlia|].
  rewrite digits_of_S. destruct (N.ltb_spec (n / 10 / 10 / 10) 10); [|dlia].
  rewrite !N.Div0.div_div in *.
  change (10 * (10 * 10))%N with 1000%N in *. change (10 * 10)%N with 100%N in *.
  rewrite (N.mod_small (n / 1000) 10) by (apply N.Div0.div_lt_upper_bound; lia).
  reflexivity.
Qed.

Lemma size_nat_ge4 p : (1000 <= Zpos p) -> (4 <= N.size_nat (Npos p))%nat.
Proof.
  intros H.
  destruct p as [[[p|p|]|[p|p|]|]|[[p|p|]|[p|p|]|]|]; try lia; destruct p; cbn; lia.
Qed.

Lemma pad2_length n : 0 <= n <= 99 -> length (pad2 n) = 2%nat.
Proof.
  intros Hn.
  apply (forallb_zrange (fun n => (length (pad2 n) =? 2)%nat) 0 99) in Hn.
  - by apply Nat.eqb_eq.
  - vm_compute. reflexivity.
Qed.

Lemma pad2_compare a b :
  0 <= a <= 99 -> 0 <= b <= 99 -> compareDateKey (pad2 a) (pad2 b) = (a ?= b).
Proof.
  intros Ha Hb.
  assert (H : forallb (fun a => forallb (fun b =>
              bool_decide (compareDateKey (pad2 a) (pad2 b) = (a ?= b)))
              (zrange 0 99)) (zrange 0 99) = true) by (vm_compute; reflexivity).
  pose proof (forallb_zrange _ 0 99 H a Ha) as H1. cbv beta in H1.
  pose proof (forallb_zrange _ 0 99 H1 b Hb) as H2.
  by apply bool_decide_eq_true in H2.
Qed.

Lemma pad2_inj a b : 0 <= a <= 99 -> 0 <= b <= 99 -> pad2 a = pad2 b -> a = b.
Proof.
  intros Ha Hb E. apply Z.compare_eq.
  rewrite <- pad2_compare, E by done.
  clear. induction (pad2 b) as [|c l IH]; cbn; [done|].
  by rewrite N.compare_refl.
Qed.

Lemma pad2_closed n :
  (n <= 99)%N ->
  pad2 (Z.of_N n) = [(48 + n / 10)%N; (48 + n mod 10)%N].
Proof.
  intros Hn. assert (Hn' : 0 <= Z.of_N n <= 99) by lia.
  apply (forallb_zrange
           (fun z => jsstring_eqb (pad2 z)
                       [(48 + Z.to_N z / 10)%N; (48 + Z.to_N z mod 10)%N])
           0 99) in Hn'.
  - apply bool_decide_eq_true in Hn'. by rewrite N2Z.id in Hn'.
  - vm_compute. reflexivity.
Qed.

(** A four-digit year prints as its two leading and its two trailing
    digits. *)
Lemma String_of_int_year_split y :
  1000 <= y <= 9999 -> String_of_int y = pad2 (y / 100) ++ pad2 (y mod 100).
Proof.
  intros Hy. destruct y as [|p|p]; try lia.
  unfold String_of_int.
  rewrite digits_of_4 by (try apply Nat.le_le_succ_r, size_nat_ge4; lia).
  change (Z.pos p) with (Z.of_N (N.pos p)) in *. set (n := N.pos p) in *.
  change 100 with (Z.of_N 100).
  rewrite <- N2Z.inj_div, <- N2Z.inj_mod.
  assert (n / 100 < 100)%N by (apply N.Div0.div_lt_upper_bound; lia).
  assert (n mod 100 < 100)%N by (apply N.mod_lt; lia).
  rewrite !pad2_closed by lia. cbn [app].
  rewrite N.Div0.div_div. change (100 * 10)%N with 1000%N.
  replace ((n mod 100) / 10)%N with ((n / 10) mod 10)%N.
  2:{ rewrite (N.Div0.mod_mul_r n 10 10) at 1.
      rewrite N.mul_comm, N.div_add by lia.
      rewrite (N.div_small (n mod 10) 10) by (apply N.mod_lt; lia). lia. }
  replace ((n mod 100) mod 10)%N with (n mod 10)%N.
  2:{ rewrite (N.Div0.mod_mul_r n 10 10) at 1.
      rewrite N.mul_comm, N.Div0.mod_add, N.Div0.mod_mod. done. }
  reflexivity.
Qed.

Lemma String_of_int_length_ge4 y :
  1000 <= y <= 10001 -> (4 <= length (String_of_int y))%nat.
Proof.
  intros Hy. destruct (Z_le_gt_dec y 9999).
  - rewrite String_of_int_year_split, length_app, !pad2_length by dlia. lia.
  - assert (y = 10000 \/ y = 10001) as [-> | ->] by lia; apply Nat.leb_le; reflexivity.
Qed.

Lemma padStart0_4_year y :
  1000 <= y <= 10001 -> padStart0 4 (String_of_int y) = String_of_int y.
Proof.
  intros Hy. unfold padStart0.
  pose proof (String_of_int_length_ge4 y Hy).
  replace (4 - length (String_of_int y))%nat with 0%nat by lia. reflexivity.
Qed.

Lemma String_of_int_1900_ne y :
  0 <= y <= 99 -> String_of_int (1900 + y) <> padStart0 4 (String_of_int y).
Proof.
  intros Hy.
  apply (forallb_zrange
           (fun y => negb (jsstring_eqb (String_of_int (1900 + y))
                             (padStart0 4 (String_of_int y)))) 0 99) in Hy.
  - apply negb_true_iff, bool_decide_eq_false in Hy. done.
  - vm_compute. reflexivity.
Qed.

(** ** The order of date keys *)

Lemma compareDateKey_refl a : compareDateKey a a = Eq.
Proof. induction a as [|c a IH]; cbn; [done|]. by rewrite N.compare_refl. Qed.

Lemma compareDateKey_eq a b : compareDateKey a b = Eq -> a = b.
Proof.
  revert b. induction a as [|c a IH]; intros [|d b]; cbn; try done.
  destruct (N.compare_spec c d); try done. intros; subst; f_equal; auto.
Qed.

Lemma compareDateKey_antisym a b :
  compareDateKey b a = CompOpp (compareDateKey a b).
Proof.
  revert b. induction a as [|c a IH]; intros [|d b]; cbn; try done.
  rewrite (N.compare_antisym c d). destruct (c ?= d)%N; cbn; auto.
Qed.

Lemma compareDateKey_app a a' x x' :
  length a = length a' ->
  compareDateKey (a ++ x) (a' ++ x') =
  match compareDateKey a a' with
  | Eq => compareDateKey x x'
  | r => r
  end.
Proof.
  revert a'. induction a as [|c a IH]; intros [|d a'] Hl; cbn in *; try done.
  destruct (c ?= d)%N; auto.
Qed.

Lemma compareDateKey_trans_le a b c :
  compareDateKey a b <> Gt -> compareDateKey b c <> Gt -> compareDateKey a c <> Gt.
Proof.
  revert b c. induction a as [|x a IH]; intros [|y b] [|z c]; cbn; try done.
  destruct (N.compare_spec x y), (N.compare_spec y z), (N.compare_spec x z);
    subst; try done; try lia; eauto.
Qed.

Lemma date_ltb_compare a b : date_ltb a b = true <-> date_compare a b = Lt.
Proof.
  unfold date_ltb, date_compare.
  destruct (Z.compare_spec (getFullYear a) (getFullYear b));
    destruct (Z.compare_spec (getMonth a) (getMonth b));
    destruct (Z.compare_spec (getDate a) (getDate b));
    rewrite ?orb_true_iff, ?andb_true_iff, ?Z.ltb_lt, ?Z.eqb_eq; split; try done; lia.
Qed.

Lemma wf_date_md_range d : wf_date d -> md_range d.
Proof.
  intros [Hm Hd]. pose proof (daysInMonth_bounds (getFullYear d) (getMonth d)).
  split; lia.
Qed.

(** With four-digit years the order of the keys is the order of the
    days. *)
Lemma compareDateKey_formatDateKey a b :
  year4 a -> year4 b -> md_range a -> md_range b ->
  compareDateKey (formatDateKey a) (formatDateKey b) = date_compare a b.
Proof.
  intros Ha Hb [Hma Hda] [Hmb Hdb]. unfold formatDateKey, date_compare, year4 in *.
  destruct a as [ya ma da], b as [yb mb db]; cbn [getFullYear getMonth getDate] in *.
  fold (pad2 (ma + 1)) (pad2 da) (pad2 (mb + 1)) (pad2 db).
  rewrite !String_of_int_year_split by done.
  assert (Hqa : 10 <= ya / 100 <= 99) by (Z.to_euclidean_division_equations; lia).
  assert (Hqb : 10 <= yb / 100 <= 99) by (Z.to_euclidean_division_equations; lia).
  pose proof (Z.mod_pos_bound ya 100 ltac:(lia)) as Hra.
  pose proof (Z.mod_pos_bound yb 100 ltac:(lia)) as Hrb.
  rewrite <- !app_assoc.
  rewrite compareDateKey_app by (rewrite !pad2_length; lia).
  rewrite compareDateKey_app by (rewrite !pad2_length; lia).
  rewrite (compareDateKey_app (u "-") (u "-")) by reflexivity.
  rewrite compareDateKey_app by (rewrite !pad2_length; lia).
  rewrite (compareDateKey_app (u "-") (u "-")) by reflexivity.
  rewrite !pad2_compare by lia.
  change (compareDateKey (u "-") (u "-")) with Eq.
  pose proof (Z.div_mod ya 100 ltac:(lia)) as Ea.
  pose proof (Z.div_mod yb 100 ltac:(lia)) as Eb.
  destruct (Z.compare_spec (ya / 100) (yb / 100)) as [E1|E1|E1];
    destruct (Z.compare_spec (ya mod 100) (yb mod 100)) as [E2|E2|E2];
    destruct (Z.compare_spec ya yb) as [E3|E3|E3]; try lia;
    destruct (Z.compare_spec (ma + 1) (mb + 1)) as [E4|E4|E4];
    destruct (Z.compare_spec ma mb) as [E5|E5|E5]; try lia; reflexivity.
Qed.

(** ** Inference of the execution window *)

Lemma formatDateKey_eq_build c y m d :
  getFullYear c = y -> 1000 <= y <= 10001 ->
  0 <= getMonth c <= 11 -> 1 <= getDate c <= 31 ->
  1 <= m <= 12 -> 1 <= d <= 31 ->
  formatDateKey c = buildDateKeyFromParts y m d ->
  getMonth c + 1 = m /\ getDate c = d.
Proof.
  intros Hy Hr Hmc Hdc Hm Hd E.
  unfold formatDateKey, buildDateKeyFromParts in E. rewrite Hy in E.
  rewrite padStart0_4_year in E by done.
  apply app_inv_head in E. apply app_inv_head in E.
  fold (pad2 (getMonth c + 1)) (pad2 (getDate c)) (pad2 m) (pad2 d) in E.
  apply app_inj_1 in E; [|rewrite !pad2_length; lia].
  destruct E as [E1 E2]. apply app_inv_head in E2.
  split; apply pad2_inj; try done; lia.
Qed.

Lemma newDate_format_build y m d :
  1000 <= y <= 10001 -> 1 <= m <= 12 -> 1 <= d <= 31 ->
  formatDateKey (newDate y (m - 1) d) = buildDateKeyFromParts y m d ->
  newDate y (m - 1) d = mkD y (m - 1) d.
Proof.
  intros Hy Hm Hd E.
  destruct (newDate_within_31 y (m - 1) d) as [[_ H]|(Hov & Hm11 & H)]; try lia; [done|].
  rewrite H in E.
  pose proof (daysInMonth_bounds y (m - 1)).
  apply formatDateKey_eq_build in E; cbn [getFullYear getMonth getDate] in *; try done; lia.
Qed.

Lemma build_format y m d :
  1000 <= y <= 10001 ->
  buildDateKeyFromParts y m d = formatDateKey (mkD y (m - 1) d).
Proof.
  intros Hy. unfold buildDateKeyFromParts, formatDateKey; cbn [getFullYear getMonth getDate].
  rewrite padStart0_4_year by done. by replace (m - 1 + 1) with m by lia.
Qed.

Lemma md_before_date_ltb y m d b :
  getFullYear b = y ->
  date_ltb (mkD y (m - 1) d) b = md_before m d (getMonth b + 1) (getDate b).
Proof.
  intros <-. unfold date_ltb, md_before; cbn [getFullYear getMonth getDate].
  rewrite Z.ltb_irrefl, Z.eqb_refl. cbn [orb andb].
  replace (m - 1 <? getMonth b) with (m <? getMonth b + 1)
    by (destruct (Z.ltb_spec m (getMonth b + 1)), (Z.ltb_spec (m - 1) (getMonth b)); lia).
  replace (m - 1 =? getMonth b) with (m =? getMonth b + 1)
    by (destruct (Z.eqb_spec m (getMonth b + 1)), (Z.eqb_spec (m - 1) (getMonth b)); lia).
  reflexivity.
Qed.

(** What a returned window looks like. *)
Lemma inferExecutionWindowFromText_inv base text w :
  wf_date base -> year4 base ->
  Chatbot.inferExecutionWindowFromText text base = Some w ->
  exists sm sd em ed,
    Chatbot.matchRange text = Some (sm, sd, em, ed) /\
    (1 <= sm <= 12 /\ 1 <= sd <= 31) /\ (1 <= em <= 12 /\ 1 <= ed <= 31) /\
    let sy := inferred_start_year base sm sd in
    let ey := inferred_end_year base sm sd em ed in
    newDate sy (sm - 1) sd = mkD sy (sm - 1) sd /\
    newDate ey (em - 1) ed = mkD ey (em - 1) ed /\
    Chatbot.start w = buildDateKeyFromParts sy sm sd /\
    Chatbot.end_ w = buildDateKeyFromParts ey em ed.
Proof.
  intros Hwf Hy4 H. unfold Chatbot.inferExecutionWindowFromText in H.
  destruct (Chatbot.matchRange text) as [[[[sm sd] em] ed]|]; [|done].
  exists sm, sd, em, ed. split; [done|].
  destruct ((sm =? 0) || (sd =? 0) || (em =? 0) || (ed =? 0)); [done|].
  destruct ((sm <? 1) || (12 <? sm) || (em <? 1) || (12 <? em)) eqn:Em; [done|].
  destruct ((sd <? 1) || (31 <? sd) || (ed <? 1) || (31 <? ed)) eqn:Ed; [done|].
  rewrite !orb_false_iff, !Z.ltb_ge in Em, Ed.
  assert (Hsm : 1 <= sm <= 12) by lia. assert (Hsd : 1 <= sd <= 31) by lia.
  assert (Hem : 1 <= em <= 12) by lia. assert (Hed : 1 <= ed <= 31) by lia.
  clear Em Ed. do 2 (split; [done|]).
  unfold year4 in Hy4.
  rewrite (newDate_wf base) in H by (done || lia).
  set (cand := newDate (getFullYear base) (sm - 1) sd) in H.
  set (sy := if date_ltb cand base then getFullYear base + 1 else getFullYear base) in H.
  set (ey := if (em <? sm) || ((em =? sm) && (ed <? sd)) then sy + 1 else sy) in H.
  assert (Hsy : 1000 <= sy <= 10000) by (subst sy; destruct (date_ltb cand base); lia).
  assert (Hey : 1000 <= ey <= 10001) by (subst ey; destruct ((em <? sm) || _); lia).
  destruct (jsstring_eqb (formatDateKey (newDate sy (sm - 1) sd)) _) eqn:Es; [|done].
  destruct (jsstring_eqb (formatDateKey (newDate ey (em - 1) ed)) _) eqn:Ee; [|done].
  cbn [negb] in H. apply bool_decide_eq_true in Es, Ee.
  injection H as <-. cbn [Chatbot.start Chatbot.end_].
  pose proof (newDate_format_build sy sm sd ltac:(lia) Hsm Hsd Es) as Hs.
  pose proof (newDate_format_build ey em ed Hey Hem Hed Ee) as He.
  assert (Esy : sy = inferred_start_year base sm sd).
  { unfold inferred_start_year. rewrite <- (md_before_date_ltb (getFullYear base)) by done.
    subst sy. destruct (date_ltb cand base) eqn:Ec.
    - subst cand.
      destruct (newDate_within_31 (getFullYear base) (sm - 1) sd) as [[_ Hx]|(Hov & Hm11 & Hx)];
        try lia; rewrite Hx in Ec; [by rewrite Ec|].
      replace (date_ltb (mkD (getFullYear base) (sm - 1) sd) base) with true; [done|].
      symmetry. revert Ec. unfold date_ltb; cbn [getFullYear getMonth getDate].
      rewrite Z.ltb_irrefl, Z.eqb_refl; cbn [orb andb].
      rewrite !orb_true_iff, !andb_true_iff, !Z.ltb_lt, !Z.eqb_eq. lia.
    - subst cand. rewrite Hs in Ec. by rewrite Ec. }
  assert (Eey : ey = inferred_end_year base sm sd em ed).
  { unfold inferred_end_year, md_before. by rewrite <- Esy. }
  cbv zeta. rewrite <- Esy, <- Eey. by rewrite Es, Ee.
Qed.


(** ** Applying a proposal *)

Section Apply.
Import Chatbot.

Lemma freshItems_spec seen l :
  List.NoDup (List.map itemKey (freshItems seen l)) /\
  (forall item, In item (freshItems seen l) -> In item l /\ itemKey item ∉ seen) /\
  (forall item, In item l -> itemKey item ∉ seen ->
                In (itemKey item) (List.map itemKey (freshItems seen l))).
Proof.
  revert seen. induction l as [|x l IH]; intros seen; cbn.
  - split; [constructor|]. split; intros ? [].
  - case_bool_decide as Hx.
    + destruct (IH seen) as (Hnd & Hin & Hall). split; [done|]. split.
      * intros item Hi. destruct (Hin item Hi). auto.
      * intros item [->|Hi] Hk; [done|]. auto.
    + destruct (IH ({[itemKey x]} ∪ seen)) as (Hnd & Hin & Hall). split; [|split].
      * cbn. constructor; [|done]. intros Hc. apply in_map_iff in Hc as (y & Hy & Hiy).
        destruct (Hin y Hiy) as [_ Hn]. apply Hn. rewrite Hy.
        apply elem_of_union_l, elem_of_singleton. reflexivity.
      * intros item [<-|Hi]; [auto|]. destruct (Hin item Hi) as [? Hn].
        split; [auto|]. intros Hs. apply Hn. by apply elem_of_union_r.
      * intros item [->|Hi] Hk; cbn; [auto|].
        destruct (decide (itemKey item = itemKey x)) as [E|E]; [auto|].
        right. apply Hall; [done|].
        rewrite elem_of_union, elem_of_singleton. intros [?|?]; auto.
Qed.

Lemma eventsOf_length src n l : length (eventsOf src n l) = length l.
Proof. revert n. induction l; intros; cbn; auto. Qed.

Lemma eventsOf_keys src n l : List.map eventKey (eventsOf src n l) = List.map itemKey l.
Proof. revert n. induction l; intros; cbn; [done|]. by rewrite IHl. Qed.

Lemma eventsOf_In src n l ev :
  In ev (eventsOf src n l) ->
  source ev = ai /\
  exists item, In item l /\ date ev = item_date item /\ title ev = item_title item /\
               category ev = item_category item.
Proof.
  revert n. induction l as [|x l IH]; intros n; cbn; [done|].
  intros [<-|H]; cbn.
  - split; [done|]. exists x. auto.
  - destruct (IH _ H) as [? (item & ? & ?)]. split; [done|]. exists item. auto.
Qed.

Lemma countKey_NoDup k events :
  List.NoDup (List.map eventKey events) -> In k (List.map eventKey events) ->
  countKey k events = 1%nat.
Proof.
  unfold countKey. induction events as [|ev l IH]; cbn; [done|].
  intros Hnd Hin. inversion Hnd as [|? ? Hn Hnd']; subst.
  unfold jsstring_eqb at 1. case_bool_decide as E; cbn.
  - f_equal. rewrite <- E in *.
    clear -Hn. induction l as [|y l IH]; cbn in *; [done|].
    unfold jsstring_eqb at 1. case_bool_decide as E; [exfalso; auto|].
    apply IH. auto.
  - destruct Hin as [?|Hin]; [done|]. auto.
Qed.

(** The loop draws one identifier for each item it lets through. *)
Lemma addLoop_spec seen added l w :
  addLoop seen added l w =
  (Ok (added ++ eventsOf (nanoid_source w) (nanoid_drawn w) (freshItems seen l)),
   mkWorld (ls_items w) (ls_readable w) (ls_accepts w) (dispatched w)
     (nanoid_source w) (nanoid_drawn w + length (freshItems seen l))).
Proof.
  revert seen added w. induction l as [|x l IH]; intros seen added w; cbn.
  - unfold ret. rewrite app_nil_r, Nat.add_0_r. by destruct w.
  - fold (itemKey x). case_bool_decide; [apply IH|].
    unfold bind, nanoid. rewrite IH. cbn. rewrite <- app_assoc. cbn.
    do 2 f_equal. lia.
Qed.

(** Reading the stored events changes nothing. *)
Lemma loadUserEventsFromStorage_pure w :
  exists existing, loadUserEventsFromStorage w = (Ok existing, w).
Proof.
  unfold loadUserEventsFromStorage, try_catch, bind, localStorage_getItem.
  destruct (ls_readable w); [|by eexists].
  destruct (ls_items w !! USER_EVENTS_STORAGE_KEY) as [[| |j]|]; cbn; try by eexists.
  destruct j; cbn; by eexists.
Qed.

Lemma find_map_same_id (f : ChatMessage -> ChatMessage) messageId prev target :
  (forall msg, msg_id (f msg) = msg_id msg) ->
  List.find (fun msg => jsstring_eqb (msg_id msg) messageId) prev = Some target ->
  List.find (fun msg => jsstring_eqb (msg_id msg) messageId) (List.map f prev)
  = Some (f target).
Proof.
  intros Hf. induction prev as [|m l IH]; cbn; [done|].
  rewrite Hf. destruct (jsstring_eqb (msg_id m) messageId); [by intros [= ->]|auto].
Qed.

Lemma find_id messageId prev target :
  List.find (fun msg => jsstring_eqb (msg_id msg) messageId) prev = Some target ->
  jsstring_eqb (msg_id target) messageId = true.
Proof. intros H. by apply find_some in H as [_ H]. Qed.

Lemma applyScheduleProposal_commits messageId prev w proposal existing :
  proposalOf messageId prev = Some proposal ->
  applied proposal <> Some true ->
  selectedItemsOf (items proposal) (selected proposal) <> [] ->
  loadUserEventsFromStorage w = (Ok existing, w) ->
  let selectedItems := selectedItemsOf (items proposal) (selected proposal) in
  let seen : gset jsstring := list_to_set (List.map eventKey existing) in
  let added := eventsOf (nanoid_source w) (nanoid_drawn w) (freshItems seen selectedItems) in
  exists next w',
    applyScheduleProposal messageId prev w = (Ok next, w') /\
    proposalOf messageId next = Some (appliedProposal proposal (length added)) /\
    ls_items w' =
      (if ls_accepts w USER_EVENTS_STORAGE_KEY (storedEvents (added ++ existing))
       then <[USER_EVENTS_STORAGE_KEY := storedEvents (added ++ existing)]> (ls_items w)
       else ls_items w) /\
    dispatched w' = USER_EVENTS_UPDATED_EVENT :: dispatched w /\
    nanoid_drawn w' = (nanoid_drawn w + length added)%nat.
Proof.
  intros Hp Happlied Hsel Hload selectedItems seen added.
  unfold proposalOf in Hp. unfold applyScheduleProposal.
  destruct (List.find _ prev) as [target|] eqn:Hfind; [|done].
  rewrite Hp. rewrite bool_decide_eq_false_2 by done.
  fold selectedItems.
  destruct (length selectedItems =? 0)%nat eqn:El.
  { apply Nat.eqb_eq, length_zero_iff_nil in El. done. }
  unfold bind at 1. rewrite Hload. unfold bind at 1.
  change (fun ev => dedupKey (date ev) (title ev)) with eventKey.
  fold seen. rewrite addLoop_spec. rewrite app_nil_l. fold added.
  replace (length (freshItems seen selectedItems)) with (length added)
    by (unfold added; by rewrite eventsOf_length).
  unfold bind, saveUserEventsToStorage, try_catch, localStorage_setItem, JSON_stringify,
    dispatchEvent, ret.
  cbn [ls_accepts ls_items ls_readable dispatched nanoid_source nanoid_drawn].
  fold (storedEvents (added ++ existing)).
  assert (Hprop : proposalOf messageId
            (List.map
               (fun msg =>
                  if negb (jsstring_eqb (msg_id msg) messageId) then msg
                  else mkMessage (msg_id msg)
                         (trim (text msg ++ [10%N; 10%N]
                                ++ join_lines (applySummary proposal added)))
                         (isUser msg)
                         (Some (appliedProposal proposal (length added))))
               prev)
          = Some (appliedProposal proposal (length added))).
  { unfold proposalOf.
    erewrite find_map_same_id; [| |exact Hfind].
    - rewrite (find_id _ _ _ Hfind). reflexivity.
    - intros msg. by destruct (negb _). }
  destruct (ls_accepts w USER_EVENTS_STORAGE_KEY (storedEvents (added ++ existing)));
    (eexists _, _; split; [reflexivity|]; split; [exact Hprop|];
     cbn [ls_items dispatched nanoid_drawn]; auto).
Qed.

End Apply.

Section ApplyClaims.
Import Chatbot.

Lemma applyScheduleProposal_applied messageId msgs w proposal :
  proposalOf messageId msgs = Some proposal ->
  applied proposal = Some true ->
  applyScheduleProposal messageId msgs w = (Ok msgs, w).
Proof.
  unfold proposalOf, applyScheduleProposal. intros Hp Ha.
  destruct (List.find _ msgs) as [target|]; [|done].
  rewrite Hp. by rewrite bool_decide_eq_true_2.
Qed.

Lemma seen_existing (existing : list StoredUserEvent) k :
  k ∈ (list_to_set (List.map eventKey existing) : gset jsstring) <->
  In k (List.map eventKey existing).
Proof. by rewrite elem_of_list_to_set, list_elem_of_In. Qed.

(** What an apply does relative to the events as the loader returns them,
    that is with their titles trimmed: on a proposal that is not yet
    applied and has a selected item it creates one user event of source
    [ai] for each selected item whose key is not among the keys of the
    loaded events, once per key even when several selected items share it;
    it stores the new events in front of the loaded ones, marks the
    proposal applied with [appliedCount] the number of events added, and a
    second call changes neither the messages nor the world. *)
Lemma applyScheduleProposal_commit_of_loaded messageId prev w proposal :
  proposalOf messageId prev = Some proposal ->
  applied proposal <> Some true ->
  selectedItemsOf (items proposal) (selected proposal) <> [] ->
  exists existing added next w',
    loadUserEventsFromStorage w = (Ok existing, w) /\
    applyScheduleProposal messageId prev w = (Ok next, w') /\
    (forall ev, In ev added ->
       source ev = ai /\ ~ In (eventKey ev) (List.map eventKey existing) /\
       exists item,
         In item (selectedItemsOf (items proposal) (selected proposal)) /\
         date ev = item_date item /\ title ev = item_title item /\
         category ev = item_category item) /\
    (forall item,
       In item (selectedItemsOf (items proposal) (selected proposal)) ->
       ~ In (itemKey item) (List.map eventKey existing) ->
       countKey (itemKey item) added = 1%nat) /\
    (ls_accepts w USER_EVENTS_STORAGE_KEY (storedEvents (added ++ existing)) = true ->
     ls_items w' !! USER_EVENTS_STORAGE_KEY = Some (storedEvents (added ++ existing))) /\
    dispatched w' = USER_EVENTS_UPDATED_EVENT :: dispatched w /\
    proposalOf messageId next = Some (appliedProposal proposal (length added)) /\
    applyScheduleProposal messageId next w' = (Ok next, w').
Proof.
  intros Hp Ha Hsel.
  destruct (loadUserEventsFromStorage_pure w) as [existing Hload].
  destruct (applyScheduleProposal_commits _ _ _ _ _ Hp Ha Hsel Hload)
    as (next & w' & Happ & Hnext & Hitems & Hdisp & _).
  set (seen := list_to_set (List.map eventKey existing) : gset jsstring) in *.
  set (fresh := freshItems seen (selectedItemsOf (items proposal) (selected proposal))) in *.
  destruct (freshItems_spec seen (selectedItemsOf (items proposal) (selected proposal)))
    as (Hnd & Hin & Hall). fold fresh in Hnd, Hin, Hall.
  exists existing, (eventsOf (nanoid_source w) (nanoid_drawn w) fresh), next, w'.
  split; [done|]. split; [done|]. split; [|split; [|split; [|split; [|split]]]].
  - intros ev Hev. pose proof Hev as Hk.
    apply eventsOf_In in Hev as (Hsrc & item & Hi & Hd & Ht & Hc).
    destruct (Hin item Hi) as [Hs Hn]. split; [done|]. split.
    + intros Hc'. apply Hn, seen_existing.
      unfold itemKey. rewrite <- Hd, <- Ht. exact Hc'.
    + exists item. auto.
  - intros item Hi Hn. apply countKey_NoDup; rewrite eventsOf_keys; [done|].
    apply Hall; [done|]. intros Hs. apply Hn. by apply seen_existing.
  - intros Hacc. rewrite Hitems, Hacc. apply lookup_insert_eq.
  - done.
  - done.
  - eapply applyScheduleProposal_applied; [exact Hnext|done].
Qed.

Lemma selectedItemsOf_toggle (its : list ScheduleProposalItem) sel i item :
  selectedItemsOf its sel = [] -> its !! i = Some item -> (i < length sel)%nat ->
  selectedItemsOf its (alter negb i sel) = [item].
Proof.
  revert sel i. induction its as [|x its IH]; intros [|b sel] i; cbn; try done; try lia.
  destruct b; [done|]. intros Hnil. destruct i as [|i]; cbn.
  - intros [= ->] _. by rewrite Hnil.
  - intros Hi Hl. apply IH; auto. lia.
Qed.

Lemma proposalOf_toggle messageId prev proposal (i : nat) :
  proposalOf messageId prev = Some proposal ->
  applied proposal <> Some true ->
  (i < length (selected proposal))%nat ->
  proposalOf messageId (toggleScheduleProposalItem messageId (Z.of_nat i) prev)
  = Some (withSelected proposal (alter negb i (selected proposal))).
Proof.
  unfold proposalOf, toggleScheduleProposalItem. intros Hp Ha Hi.
  destruct (List.find _ prev) as [target|] eqn:Hfind; [|done].
  erewrite find_map_same_id; [| |exact Hfind].
  - rewrite (find_id _ _ _ Hfind). cbn [negb]. rewrite Hp.
    rewrite bool_decide_eq_false_2 by done.
    destruct (Z.ltb_spec (Z.of_nat i) 0); [lia|].
    destruct (Z.leb_spec (Z.of_nat (length (selected proposal))) (Z.of_nat i)); [lia|].
    cbn. by rewrite Nat2Z.id.
  - intros msg. destruct (negb _); [done|].
    destruct (scheduleProposal msg) as [p|]; [|done].
    destruct (bool_decide _); [done|]. by destruct (_ || _).
Qed.

(** C10. When no item of a proposal that is not yet applied is selected,
    [applyScheduleProposal] returns the messages as they are and leaves the
    world untouched: nothing is stored, nothing is dispatched, no identifier
    is drawn and the proposal keeps its unset [applied] fields; selecting
    an item afterwards and applying again commits it. *)
Theorem applyScheduleProposal_nothing_selected messageId prev w proposal :
  proposalOf messageId prev = Some proposal ->
  applied proposal <> Some true ->
  selectedItemsOf (items proposal) (selected proposal) = [] ->
  applyScheduleProposal messageId prev w = (Ok prev, w) /\
  forall (index : nat) item,
    items proposal !! index = Some item ->
    (index < length (selected proposal))%nat ->
    exists existing next w',
      loadUserEventsFromStorage w = (Ok existing, w) /\
      applyScheduleProposal messageId
        (toggleScheduleProposalItem messageId (Z.of_nat index) prev) w = (Ok next, w') /\
      let added :=
        if bool_decide (itemKey item ∈ List.map eventKey existing) then []
        else eventsOf (nanoid_source w) (nanoid_drawn w) [item] in
      (exists p', proposalOf messageId next = Some p' /\
                  applied p' = Some true /\ appliedCount p' = Some (length added)) /\
      (ls_accepts w USER_EVENTS_STORAGE_KEY (storedEvents (added ++ existing)) = true ->
       ls_items w' !! USER_EVENTS_STORAGE_KEY = Some (storedEvents (added ++ existing))).
Proof.
  intros Hp Ha Hsel. split.
  - unfold proposalOf in Hp. unfold applyScheduleProposal.
    destruct (List.find _ prev) as [target|]; [|done].
    rewrite Hp, bool_decide_eq_false_2, Hsel by done. reflexivity.
  - intros index item Hitem Hidx.
    destruct (loadUserEventsFromStorage_pure w) as [existing Hload].
    pose proof (proposalOf_toggle _ _ _ index Hp Ha Hidx) as Hp'.
    set (p1 := withSelected proposal (alter negb index (selected proposal))) in *.
    assert (Hsel1 : selectedItemsOf (items p1) (selected p1) = [item])
      by (by apply selectedItemsOf_toggle).
    destruct (applyScheduleProposal_commits _ _ w p1 existing Hp') as
      (next & w' & Happ & Hnext & Hitems & _); [done|by rewrite Hsel1|done|].
    rewrite Hsel1 in Hnext, Hitems. cbn [freshItems] in Hnext, Hitems.
    exists existing, next, w'. split; [done|]. split; [done|].
    assert (E : bool_decide (itemKey item ∈ (list_to_set (List.map eventKey existing) : gset jsstring))
                = bool_decide (itemKey item ∈ List.map eventKey existing))
      by (apply bool_decide_ext, elem_of_list_to_set).
    rewrite E in Hnext, Hitems. cbv zeta.
    destruct (bool_decide (itemKey item ∈ List.map eventKey existing)).
    + split; [by eexists|]. intros Hacc. rewrite Hitems.
      cbn [eventsOf] in *. rewrite Hacc. apply lookup_insert_eq.
    + split; [by eexists|]. intros Hacc. rewrite Hitems, Hacc. apply lookup_insert_eq.
Qed.

End ApplyClaims.

Section ApplyTwice.
Import Chatbot.

(** What the loader returns for a stored array. *)
Lemma loadUserEventsFromStorage_array w entries :
  ls_readable w = true ->
  ls_items w !! USER_EVENTS_STORAGE_KEY = Some (Json (JArr entries)) ->
  loadUserEventsFromStorage w = (Ok (omap parseStoredUserEvent entries), w).
Proof.
  intros Hr Hs.
  unfold loadUserEventsFromStorage, try_catch, bind, localStorage_getItem.
  by rewrite Hr, Hs.
Qed.

Lemma loadUserEventsFromStorage_nothing w :
  ls_readable w = true ->
  ls_items w !! USER_EVENTS_STORAGE_KEY = None ->
  loadUserEventsFromStorage w = (Ok [], w).
Proof.
  intros Hr Hs.
  unfold loadUserEventsFromStorage, try_catch, bind, localStorage_getItem.
  by rewrite Hr, Hs.
Qed.

(** The messages and the world after an apply that the store accepts. *)
Lemma applyScheduleProposal_world messageId prev w proposal existing :
  proposalOf messageId prev = Some proposal ->
  applied proposal <> Some true ->
  selectedItemsOf (items proposal) (selected proposal) <> [] ->
  loadUserEventsFromStorage w = (Ok existing, w) ->
  let selectedItems := selectedItemsOf (items proposal) (selected proposal) in
  let seen : gset jsstring := list_to_set (List.map eventKey existing) in
  let added := eventsOf (nanoid_source w) (nanoid_drawn w) (freshItems seen selectedItems) in
  ls_accepts w USER_EVENTS_STORAGE_KEY (storedEvents (added ++ existing)) = true ->
  applyScheduleProposal messageId prev w =
    (Ok (List.map
           (fun msg =>
              if negb (jsstring_eqb (msg_id msg) messageId) then msg
              else mkMessage (msg_id msg)
                     (trim (text msg ++ [10%N; 10%N]
                            ++ join_lines (applySummary proposal added)))
                     (isUser msg)
                     (Some (appliedProposal proposal (length added))))
           prev),
     mkWorld (<[USER_EVENTS_STORAGE_KEY := storedEvents (added ++ existing)]> (ls_items w))
       (ls_readable w) (ls_accepts w) (USER_EVENTS_UPDATED_EVENT :: dispatched w)
       (nanoid_source w) (nanoid_drawn w + length added)).
Proof.
  intros Hp Happlied Hsel Hload selectedItems seen added Hacc.
  unfold proposalOf in Hp. unfold applyScheduleProposal.
  destruct (List.find _ prev) as [target|] eqn:Hfind; [|done].
  rewrite Hp. rewrite bool_decide_eq_false_2 by done.
  fold selectedItems.
  destruct (length selectedItems =? 0)%nat eqn:El.
  { apply Nat.eqb_eq, length_zero_iff_nil in El. done. }
  unfold bind at 1. rewrite Hload. unfold bind at 1.
  change (fun ev => dedupKey (date ev) (title ev)) with eventKey.
  fold seen. rewrite addLoop_spec. rewrite app_nil_l. fold added.
  replace (length (freshItems seen selectedItems)) with (length added)
    by (unfold added; by rewrite eventsOf_length).
  unfold bind, saveUserEventsToStorage, try_catch, localStorage_setItem, JSON_stringify,
    dispatchEvent, ret.
  cbn [ls_accepts ls_items ls_readable dispatched nanoid_source nanoid_drawn].
  fold (storedEvents (added ++ existing)). rewrite Hacc. reflexivity.
Qed.

(** C1 (the code at the failing input).  The model's answer gives the
    item titled by the project name, a colon and a space.  Applying the
    first card stores an event with this date and title; applying the
    second card, whose first item has the date and the title of that
    stored event, adds an event for it again: [appliedCount] is 1 and the
    stored array holds three events. *)
Theorem applyScheduleProposal_adds_stored_key_again :
  buildScheduleProposal colon_request (mkD 2025 10 1) colon_payload = Some colon_proposal /\
  exists next1 w1 next2 w2,
    applyScheduleProposal (u "ai-1") colon_messages fresh_world = (Ok next1, w1) /\
    proposalOf (u "ai-1") next1 = Some (appliedProposal colon_proposal 2) /\
    proposalOf (u "ai-2") next1 = Some colon_proposal /\
    ls_items w1 !! USER_EVENTS_STORAGE_KEY
    = Some (storedEvents
              [mkStoredUserEvent (u "user-0") (u "2025-12-18") (u "현수막: ") Other ai;
               mkStoredUserEvent (u "user-1") (u "2025-12-24") (u "현수막: 검수") Other ai]) /\
    applyScheduleProposal (u "ai-2") next1 w1 = (Ok next2, w2) /\
    proposalOf (u "ai-2") next2 = Some (appliedProposal colon_proposal 1) /\
    ls_items w2 !! USER_EVENTS_STORAGE_KEY
    = Some (storedEvents
              [mkStoredUserEvent (u "user-2") (u "2025-12-18") (u "현수막: ") Other ai;
               mkStoredUserEvent (u "user-0") (u "2025-12-18") (u "현수막:") Other ai;
               mkStoredUserEvent (u "user-1") (u "2025-12-24") (u "현수막: 검수") Other ai]).
Proof.
  split; [vm_compute; reflexivity|].
  set (e0 := mkStoredUserEvent (u "user-0") (u "2025-12-18") (u "현수막: ") Other ai).
  set (e0' := mkStoredUserEvent (u "user-0") (u "2025-12-18") (u "현수막:") Other ai).
  set (e1 := mkStoredUserEvent (u "user-1") (u "2025-12-24") (u "현수막: 검수") Other ai).
  set (e2 := mkStoredUserEvent (u "user-2") (u "2025-12-18") (u "현수막: ") Other ai).
  assert (Hfresh1 : freshItems (list_to_set (List.map eventKey []))
                      (selectedItemsOf (items colon_proposal) (selected colon_proposal))
                    = items colon_proposal).
  { cbn [selectedItemsOf colon_proposal items selected List.map list_to_set freshItems].
    rewrite bool_decide_eq_false_2 by set_solver.
    rewrite bool_decide_eq_false_2; [done|].
    rewrite elem_of_union, elem_of_singleton. intros [E|E]; [|set_solver].
    vm_compute in E. discriminate E. }
  assert (Hfresh2 : freshItems (list_to_set (List.map eventKey [e0'; e1]))
                      (selectedItemsOf (items colon_proposal) (selected colon_proposal))
                    = [mkItem (u "2025-12-18") (u "현수막: ") Other]).
  { cbn [selectedItemsOf colon_proposal items selected freshItems].
    rewrite bool_decide_eq_false_2.
    2:{ rewrite seen_existing. vm_compute. intros [E|[E|[]]]; discriminate E. }
    rewrite bool_decide_eq_true_2; [done|].
    apply elem_of_union_r, seen_existing. vm_compute. auto. }
  pose proof (applyScheduleProposal_world (u "ai-1") colon_messages fresh_world
                colon_proposal [] eq_refl ltac:(discriminate) ltac:(discriminate)
                (loadUserEventsFromStorage_nothing fresh_world eq_refl eq_refl)) as H1.
  cbv zeta in H1. rewrite Hfresh1 in H1. specialize (H1 eq_refl).
  eexists _, _, _, _. split; [exact H1|].
  split; [vm_compute; reflexivity|]. split; [vm_compute; reflexivity|].
  split; [cbn [ls_items]; by rewrite lookup_insert_eq|].
  match type of H1 with _ = (Ok ?n, ?w) => set (next1 := n) in *; set (w1 := w) in * end.
  assert (Hload : loadUserEventsFromStorage w1 = (Ok [e0'; e1], w1)).
  { assert (omap parseStoredUserEvent (List.map storedUserEvent_json [e0; e1]) = [e0'; e1])
      as <- by (vm_compute; reflexivity).
    apply loadUserEventsFromStorage_array; [done|].
    unfold w1. cbn [ls_items]. by rewrite lookup_insert_eq. }
  pose proof (applyScheduleProposal_world (u "ai-2") next1 w1
                colon_proposal [e0'; e1] ltac:(vm_compute; reflexivity)
                ltac:(discriminate) ltac:(discriminate) Hload) as H2.
  cbv zeta in H2. rewrite Hfresh2 in H2. specialize (H2 eq_refl).
  split; [exact H2|].
  split; [vm_compute; reflexivity|].
  cbn [ls_items]. by rewrite lookup_insert_eq.
Qed.

End ApplyTwice.

(** ** Validation of the model's answer *)

Section Validation.
Import Chatbot.

Lemma category_of_string_spec s c :
  category_of_string s = Some c <-> s = category_string c.
Proof.
  split.
  - intros H. apply find_some in H as [_ H]. by apply bool_decide_eq_true in H.
  - intros ->. by destruct c.
Qed.

Lemma isDateKeyLike_length s : isDateKeyLike s = true -> length s = 10%nat.
Proof.
  unfold isDateKeyLike.
  do 10 (destruct s as [|? s]; [done|]). by destruct s.
Qed.










End Validation.

Section ValidationClaim.
Import Chatbot.


Lemma sort_insert_length {A} (le : A -> A -> bool) x l :
  length (sort_insert le x l) = S (length l).
Proof. induction l as [|y l IH]; cbn; [done|]. destruct (le x y); cbn; auto. Qed.

Lemma stable_sort_length {A} (le : A -> A -> bool) l :
  length (stable_sort le l) = length l.
Proof. induction l as [|x l IH]; cbn; [done|]. by rewrite sort_insert_length, IH. Qed.

Lemma respread_length desired order indices l :
  length (respread desired order indices l) = length l.
Proof.
  revert order l. induction indices as [|i indices IH]; intros; cbn; [done|].
  rewrite IH. destruct (l !! i); [apply length_insert|done].
Qed.

Lemma arrangeAroundWindow_length today s e l :
  length (arrangeAroundWindow today s e l) = length l.
Proof.
  unfold arrangeAroundWindow.
  repeat match goal with
         | |- context [if ?b then _ else _] => destruct b
         end; rewrite ?respread_length, ?length_map; reflexivity.
Qed.

Lemma proposedItems_length text now parsed :
  length (proposedItems text now parsed)
  = length (validatedItems (proposalProject text parsed) parsed).
Proof.
  unfold proposedItems. rewrite stable_sort_length.
  destruct (inferExecutionWindowFromText text now) as [w|];
    [destruct (_ && _)|]; rewrite ?arrangeAroundWindow_length, length_map; reflexivity.
Qed.


End ValidationClaim.

(** ** Clamping around the execution window *)

Section Clamp.
Import Chatbot.

Lemma key_le_refl a : key_le a a.
Proof. unfold key_le. by rewrite compareDateKey_refl. Qed.

Lemma key_le_trans a b c : key_le a b -> key_le b c -> key_le a c.
Proof. apply compareDateKey_trans_le. Qed.

Lemma key_le_total a b : key_le a b \/ key_le b a.
Proof.
  unfold key_le. rewrite (compareDateKey_antisym a b).
  destruct (compareDateKey a b); cbn; auto.
Qed.

Lemma key_le_of_Lt a b : compareDateKey a b = Lt -> key_le a b.
Proof. unfold key_le. by intros ->. Qed.

Lemma key_le_of_not_Lt a b : compareDateKey a b <> Lt -> key_le b a.
Proof.
  unfold key_le. rewrite (compareDateKey_antisym a b).
  destruct (compareDateKey a b); cbn; done.
Qed.

Lemma clampMinDateKey_min k m : key_le m (clampMinDateKey k m).
Proof.
  unfold clampMinDateKey. destruct (compareDateKey k m) eqn:E;
    try apply key_le_refl; apply key_le_of_not_Lt; by rewrite E.
Qed.

Lemma clampMinDateKey_self k m : key_le k (clampMinDateKey k m).
Proof.
  unfold clampMinDateKey. destruct (compareDateKey k m) eqn:E;
    try apply key_le_refl. by apply key_le_of_Lt.
Qed.

Lemma clampMinDateKey_upper k m b : key_le k b -> key_le m b -> key_le (clampMinDateKey k m) b.
Proof. unfold clampMinDateKey. by destruct (compareDateKey k m). Qed.

Lemma clampMaxDateKey_max k m : key_le (clampMaxDateKey k m) m.
Proof.
  unfold clampMaxDateKey. destruct (compareDateKey k m) eqn:E;
    try apply key_le_refl; unfold key_le; by rewrite E.
Qed.

Lemma date_compare_formatDateKey_le a b :
  year4 a -> year4 b -> md_range a -> md_range b ->
  date_compare a b <> Gt -> key_le (formatDateKey a) (formatDateKey b).
Proof. intros. unfold key_le. by rewrite compareDateKey_formatDateKey. Qed.

Lemma date_compare_le a b :
  getFullYear a < getFullYear b \/
  (getFullYear a = getFullYear b /\
   (getMonth a < getMonth b \/ (getMonth a = getMonth b /\ getDate a <= getDate b))) ->
  date_compare a b <> Gt.
Proof.
  unfold date_compare. intros H.
  destruct (Z.compare_spec (getFullYear a) (getFullYear b));
    destruct (Z.compare_spec (getMonth a) (getMonth b));
    destruct (Z.compare_spec (getDate a) (getDate b)); try done; lia.
Qed.

Lemma md_before_spec m1 d1 m2 d2 :
  md_before m1 d1 m2 d2 = true <-> m1 < m2 \/ (m1 = m2 /\ d1 < d2).
Proof.
  unfold md_before. rewrite orb_true_iff, andb_true_iff, !Z.ltb_lt, Z.eqb_eq. tauto.
Qed.

(** An inferred window does not start before today and does not end
    before it starts. *)
Lemma inferred_window_ordered text now w :
  wf_date now -> 1000 <= getFullYear now <= 9997 ->
  inferExecutionWindowFromText text now = Some w ->
  key_le (formatDateKey now) (start w) /\ key_le (start w) (end_ w).
Proof.
  intros Hwf Hy H.
  destruct (inferExecutionWindowFromText_inv now text w Hwf ltac:(unfold year4; lia) H)
    as (sm & sd & em & ed & _ & [Hsm Hsd] & [Hem Hed] & _ & _ & Hs & He).
  rewrite Hs, He.
  assert (Hsy : getFullYear now <= inferred_start_year now sm sd <= getFullYear now + 1)
    by (unfold inferred_start_year; destruct (md_before _ _ _ _); lia).
  assert (Hey : inferred_start_year now sm sd <= inferred_end_year now sm sd em ed
                <= inferred_start_year now sm sd + 1)
    by (unfold inferred_end_year; destruct (md_before _ _ _ _); lia).
  rewrite !build_format by lia.
  pose proof (wf_date_md_range now Hwf) as [Hm Hd].
  split; apply date_compare_formatDateKey_le;
    try (unfold year4; cbn [getFullYear]; lia);
    try (unfold md_range; cbn [getMonth getDate]; lia);
    apply date_compare_le; cbn [getFullYear getMonth getDate].
  - unfold inferred_start_year.
    destruct (md_before sm sd (getMonth now + 1) (getDate now)) eqn:E; [lia|].
    right. split; [done|].
    assert (Hn : ~ (sm < getMonth now + 1 \/ (sm = getMonth now + 1 /\ sd < getDate now)))
      by (rewrite <- md_before_spec, E; done).
    lia.
  - unfold inferred_end_year.
    destruct (md_before em ed sm sd) eqn:E; [lia|].
    right. split; [done|].
    assert (Hn : ~ (em < sm \/ (em = sm /\ ed < sd)))
      by (rewrite <- md_before_spec, E; done).
    lia.
Qed.

End Clamp.

Section ClampClaim.
Import Chatbot.

(** The claim as first stated fails when the window starts today: the
    pre-work item of 22 December stays on 20 December, the day the window
    starts, which is after 19 December. *)
Lemma clampToWindow_prework_on_start_day :
  inferExecutionWindowFromText (u "12월 20~24일 공사") (mkD 2025 11 20)
  = Some (mkWindow (u "2025-12-20") (u "2025-12-24")) /\
  formatDateKey (mkD 2025 11 20) = u "2025-12-20" /\
  isPreWorkTitle (u "현수막: 품의") = true /\
  compareDateKey (u "2025-12-22") (u "2025-12-20") = Gt /\
  item_date (clampToWindow (u "2025-12-20") (u "2025-12-20") (u "2025-12-24")
               (mkItem (u "2025-12-22") (u "현수막: 품의") Other))
  = u "2025-12-20" /\
  shiftDateKeyByDays (u "2025-12-20") (-1) = u "2025-12-19" /\
  compareDateKey (u "2025-12-20") (u "2025-12-19") = Gt.
Proof. vm_compute. repeat split. Qed.

(** A title with a pre-work and a post-work keyword takes the pre-work
    branch and is moved before the window. *)
Example clampToWindow_both_keywords :
  isPreWorkTitle (u "계약 대금") = true /\ isPostWorkTitle (u "계약 대금") = true /\
  item_date (clampToWindow (u "2025-12-01") (u "2025-12-20") (u "2025-12-24")
               (mkItem (u "2025-12-22") (u "계약 대금") Other))
  = u "2025-12-19".
Proof. vm_compute. repeat split. Qed.

End ClampClaim.

(** ** The OpenRouter client *)

Section OpenRouterFacts.
Import OpenRouter.
Variable Net : Type.
Variable fetch : Request -> Net -> fetched * Net.
Variable ToString : json -> jsstring.

(** Whatever the body of a response that is not OK, the error is the one
    built from the status code. *)
Lemma notOkBranch_always_generic res candidateModel :
  notOkBranch ToString res candidateModel
  = Throw (requestFailed (status res) candidateModel).
Proof.
  unfold notOkBranch, try_catch_pure. by destruct (raw res).
Qed.

(** One attempt sends one request, the one for its model, and returns the
    content exactly when that request succeeds. *)
Lemma attempt_fetch options candidateModel net r net1 :
  fetch (requestFor options candidateModel) net = (r, net1) ->
  (exists content,
     Succeeds r content /\
     attempt Net fetch ToString options candidateModel net = (Ok content, net1)) \/
  ((forall content, ~ Succeeds r content) /\
   exists e, attempt Net fetch ToString options candidateModel net = (Throw e, net1)).
Proof.
  intros Hf. unfold attempt.
  change (mkRequest _ _ _ _) with (requestFor options candidateModel).
  rewrite Hf. destruct r as [e|res].
  - right. split; [|by eexists]. intros content (res & parsed & [=] & _).
  - destruct (ok res) eqn:Eok; cbn [negb].
    + destruct (raw res) as [parsed|e] eqn:Eraw.
      * assert (Hno : forall v,
                  prop (prop (first_element (prop (Some parsed) "choices")) "message")
                    "content" = v ->
                  (forall c s, v <> Some (JStr (c :: s))) ->
                  forall content, ~ Succeeds (Resolved res) content).
        { intros v Ev Hv content (res' & parsed' & [= <-] & _ & Hraw & Hc & Hne).
          rewrite Eraw in Hraw. injection Hraw as <-.
          rewrite Ev in Hc. destruct content as [|c s]; [done|]. by apply (Hv c s). }
        destruct (prop (prop (first_element (prop (Some parsed) "choices")) "message")
                    "content") as [[|b|n|s|items|fields]|] eqn:Ec;
          try (right; split; [by apply (Hno _ eq_refl)|by eexists]).
        destruct s as [|c s]; [right; split; [by apply (Hno _ eq_refl)|by eexists]|].
        left. exists (c :: s). split; [|done].
        exists res, parsed. by repeat split.
      * right. split; [|by eexists].
        intros content (res' & parsed' & [= <-] & _ & Hraw & _). congruence.
    + rewrite notOkBranch_always_generic. right. split; [|by eexists].
      intros content (res' & parsed' & [= <-] & Hok & _). congruence.
Qed.

Lemma tryModels_spec options candidates last net :
  (exists failed m rest netk r net' content,
     candidates = failed ++ m :: rest /\
     TriedAndFailed Net fetch options net failed netk /\
     fetch (requestFor options m) netk = (r, net') /\
     Succeeds r content /\
     tryModels Net fetch ToString options candidates last net = (Ok content, net')) \/
  (exists net' message,
     TriedAndFailed Net fetch options net candidates net' /\
     tryModels Net fetch ToString options candidates last net
     = (Throw (ErrorObj message), net')).
Proof.
  revert last net. induction candidates as [|m rest IH]; intros last net.
  - right. cbn [tryModels].
    destruct last as [[message|]|]; eexists net, _; (split; [constructor|reflexivity]).
  - cbn [tryModels].
    destruct (fetch (requestFor options m) net) as [r net1] eqn:Ef.
    destruct (attempt_fetch options m net r net1 Ef)
      as [(content & Hs & ->)|(Hn & e & ->)].
    + left. exists [], m, rest, net, r, net1, content.
      split; [done|]. split; [constructor|]. done.
    + destruct (IH (Some e) net1) as
        [(failed & m' & rest' & netk & r' & net' & content & -> & Hf & Hok & Hs & Hr)
        |(net' & message & Hf & Hr)].
      * left. exists (m :: failed), m', rest', netk, r', net', content.
        split; [done|]. split; [by econstructor|]. done.
      * right. exists net', message. split; [by econstructor|]. done.
Qed.

(** C7. The candidates are the caller's model, when one is given, followed
    by the four literal fallback models.  One request is sent for each
    candidate in this order, each to the network as the request before it
    left it, up to the first candidate that succeeds; the content of that
    response is returned and no further request is sent.  An error is
    thrown only when a request has been sent for every candidate and none
    has succeeded. *)
Theorem openRouterChatCompletion_fallback options net :
  modelsToTry options =
    match model options with
    | Some (c :: m) => [c :: m]
    | _ => []
    end
    ++ [u "mistralai/mistral-7b-instruct:free";
        u "meta-llama/llama-3.2-3b-instruct:free";
        u "google/gemma-3-4b-it:free";
        u "openai/gpt-oss-20b:free"] /\
  ((exists failed m rest netk r net' content,
      modelsToTry options = failed ++ m :: rest /\
      TriedAndFailed Net fetch options net failed netk /\
      fetch (requestFor options m) netk = (r, net') /\
      Succeeds r content /\
      openRouterChatCompletion Net fetch ToString options net = (Ok content, net')) \/
   (exists net' message,
      TriedAndFailed Net fetch options net (modelsToTry options) net' /\
      openRouterChatCompletion Net fetch ToString options net
      = (Throw (ErrorObj message), net'))).
Proof.
  split.
  - unfold modelsToTry. by destruct (model options) as [[|c m]|].
  - apply tryModels_spec.
Qed.

End OpenRouterFacts.

(** On the logging network: the caller's model is refused, the first
    default model answers 429, the second one succeeds.  Three requests
    have been sent, for these three models in this order, each with the
    caller's key, messages and temperature, and none for the last two
    models. *)
Example openRouterChatCompletion_third_candidate :
  OpenRouter.openRouterChatCompletion _ logging (fun _ => [])
    (OpenRouter.mkOptions (u "sk-or-v1-0") hello (Some (u "broken/model")) None) []
  = (Ok (u "from meta-llama/llama-3.2-3b-instruct:free"),
     [OpenRouter.mkRequest (u "Bearer sk-or-v1-0") (u "meta-llama/llama-3.2-3b-instruct:free")
        hello (2 # 10)%Q;
      OpenRouter.mkRequest (u "Bearer sk-or-v1-0") (u "mistralai/mistral-7b-instruct:free")
        hello (2 # 10)%Q;
      OpenRouter.mkRequest (u "Bearer sk-or-v1-0") (u "broken/model") hello (2 # 10)%Q]).
Proof. vm_compute. reflexivity. Qed.

(** C6 (the code at the failing input). A 401 response whose body carries
    [error.message = "Invalid API key"] surfaces as the error built from
    the status code, for one attempt and for the whole call. *)
Theorem openRouter_structured_message_lost :
  OpenRouter.attempt unit unauthorized (fun _ => [])
    (OpenRouter.mkOptions (u "sk-or-v1-0") [] None None)
    (u "mistralai/mistral-7b-instruct:free") tt
  = (Throw (ErrorObj (u "OpenRouter 요청 실패 (401) - model=mistralai/mistral-7b-instruct:free")),
     tt) /\
  OpenRouter.openRouterChatCompletion unit unauthorized (fun _ => [])
    (OpenRouter.mkOptions (u "sk-or-v1-0") [] None None) tt
  = (Throw (ErrorObj (u "OpenRouter 요청 실패 (401) - model=openai/gpt-oss-20b:free")), tt).
Proof. vm_compute. split; reflexivity. Qed.

(** ** Builtin overrides *)

Section Overrides.
Import Calendar.

(** C5 (the code at the failing input). Opening the editor on a builtin
    event and saving it unchanged stores an override that holds the event's
    own category: the override has a field, and the event it yields is the
    base event. *)
Theorem handleSaveDraft_unchanged_keeps_category :
  exists ed st,
    handleSaveDraft (openEditEditor budget_event closed_editor) budget_store fresh_world
    = (Ok (ed, st), fresh_world) /\
    builtinEventOverrides st !! ce_id budget_event
    = Some (mkOverride None None (Some Budget)) /\
    applyOverride (builtinEventOverrides st) budget_event = budget_event.
Proof.
  eexists _, _. split; [vm_compute; reflexivity|]. split; vm_compute; reflexivity.
Qed.

Lemma hasNoField_false_date d t c :
  isDateKeyLike d = true -> hasNoField (mkOverride (Some d) t c) = false.
Proof.
  intros H. apply isDateKeyLike_length in H. destruct d; [done|]. reflexivity.
Qed.

(** Moving and saving never leave an override without a field behind. *)
Lemma dropOverrideDate_nonempty eventId prev :
  overrides_nonempty prev -> overrides_nonempty (dropOverrideDate eventId prev).
Proof.
  unfold dropOverrideDate. intros Hp id o.
  destruct (prev !! eventId) as [existing|] eqn:E; [|apply Hp].
  destruct (hasNoField _) eqn:En.
  - rewrite lookup_delete. case_decide; [done|apply Hp].
  - rewrite lookup_insert. case_decide; [|apply Hp]. by intros [= <-].
Qed.

Lemma setOverrideDate_nonempty eventId nextDateKey prev :
  isDateKeyLike nextDateKey = true ->
  overrides_nonempty prev -> overrides_nonempty (setOverrideDate eventId nextDateKey prev).
Proof.
  unfold setOverrideDate. intros Hd Hp id o.
  rewrite lookup_insert. case_decide; [|apply Hp].
  intros [= <-]. by apply hasNoField_false_date.
Qed.

Lemma saveOverride_nonempty bases draftId dateKey cleanedTitle draftCategory prev :
  overrides_nonempty prev ->
  overrides_nonempty (saveOverride bases draftId dateKey cleanedTitle draftCategory prev).
Proof.
  unfold saveOverride. intros Hp id o.
  destruct (findById draftId bases); [|apply Hp].
  destruct (hasNoField _) eqn:En.
  - rewrite lookup_delete. case_decide; [done|apply Hp].
  - rewrite lookup_insert. case_decide; [|apply Hp]. by intros [= <-].
Qed.

Lemma moveEventToDate_nonempty eventId nextDateKey st :
  overrides_nonempty (builtinEventOverrides st) ->
  overrides_nonempty (builtinEventOverrides (moveEventToDate eventId nextDateKey st)).
Proof.
  unfold moveEventToDate. intros Hp.
  destruct (jsstring_eqb eventId []); [done|].
  destruct (isDateKeyLike nextDateKey) eqn:Hd; [|done]. cbn [negb].
  destruct (findById eventId (userEvents st)) as [ue|].
  { by destruct (jsstring_eqb (ce_date ue) nextDateKey). }
  destruct (findById eventId (baseEvents st)) as [base|]; [|done].
  cbn. destruct (jsstring_eqb (ce_date base) nextDateKey).
  - by apply dropOverrideDate_nonempty.
  - by apply setOverrideDate_nonempty.
Qed.

(** Moving a builtin event back to its base date leaves no [date] in its
    override. *)
Lemma moveEventToDate_back_drops_date eventId st base :
  eventId <> [] -> isDateKeyLike (ce_date base) = true ->
  findById eventId (userEvents st) = None ->
  findById eventId (baseEvents st) = Some base ->
  forall o,
    builtinEventOverrides (moveEventToDate eventId (ce_date base) st) !! eventId = Some o ->
    date o = None.
Proof.
  intros Hne Hd Hu Hb o. unfold moveEventToDate.
  unfold jsstring_eqb at 1. rewrite bool_decide_eq_false_2 by done.
  rewrite Hd, Hu, Hb. cbn.
  unfold jsstring_eqb at 1. rewrite bool_decide_eq_true_2 by done.
  unfold dropOverrideDate.
  destruct (builtinEventOverrides st !! eventId) as [existing|] eqn:E.
  - destruct (hasNoField _).
    + by rewrite lookup_delete_eq.
    + rewrite lookup_insert_eq. by intros [= <-].
  - by rewrite E.
Qed.

End Overrides.

(** ** Storage writes *)






(** ** Importing a backup *)

Section BackupImport.
Import ApiKeyModal.

Lemma loadStoredUserEvents_pure w :
  exists existing, loadStoredUserEvents w = (Ok existing, w).
Proof.
  unfold loadStoredUserEvents, try_catch, bind, localStorage_getItem.
  destruct (ls_readable w); [|by eexists].
  destruct (ls_items w !! USER_EVENTS_STORAGE_KEY) as [[| |j]|]; cbn; try by eexists.
  destruct j; cbn; by eexists.
Qed.

Lemma loadStoredBuiltinOverrides_pure w :
  exists existing, loadStoredBuiltinOverrides w = (Ok existing, w).
Proof.
  unfold loadStoredBuiltinOverrides, try_catch, bind, localStorage_getItem.
  destruct (ls_readable w); [|by eexists].
  destruct (ls_items w !! BUILTIN_EVENT_OVERRIDES_STORAGE_KEY) as [[| |j]|]; cbn;
    try by eexists.
  destruct j; cbn; by eexists.
Qed.

(** The overrides read depend on the store's overrides entry only. *)
Lemma loadStoredBuiltinOverrides_ext w1 w2 existing :
  ls_readable w1 = ls_readable w2 ->
  ls_items w1 !! BUILTIN_EVENT_OVERRIDES_STORAGE_KEY
  = ls_items w2 !! BUILTIN_EVENT_OVERRIDES_STORAGE_KEY ->
  loadStoredBuiltinOverrides w1 = (Ok existing, w1) ->
  loadStoredBuiltinOverrides w2 = (Ok existing, w2).
Proof.
  unfold loadStoredBuiltinOverrides, try_catch, bind, localStorage_getItem.
  intros <- <-. destruct (ls_readable w1); [|by intros [= <-]].
  destruct (ls_items w1 !! BUILTIN_EVENT_OVERRIDES_STORAGE_KEY) as [[| |j]|]; cbn;
    try by intros [= <-].
  destruct j; cbn; by intros [= <-].
Qed.

Lemma storage_keys_differ : USER_EVENTS_STORAGE_KEY <> BUILTIN_EVENT_OVERRIDES_STORAGE_KEY.
Proof. intros E. vm_compute in E. discriminate. Qed.

Lemma fold_overrides_years (Y : Z) (entries : list (jsstring * json))
    (acc : gmap jsstring StoredBuiltinEventOverride) :
  (forall id o, acc !! id = Some o -> effectiveYear id o = Some Y) ->
  forall id o,
    fold_left
      (fun overrides entry =>
         if negb (isPlainObject (snd entry)) then overrides
         else
           let next := readOverride (snd entry) in
           if negb (bool_decide (effectiveYear (fst entry) next = Some Y))
           then overrides
           else if hasField next then assignProperty overrides (fst entry) next
           else overrides)
      entries acc !! id = Some o ->
    effectiveYear id o = Some Y.
Proof.
  revert acc. induction entries as [|[k v] entries IH]; intros acc Hacc; cbn; [done|].
  apply IH. destruct (negb (isPlainObject v)); [done|].
  case_bool_decide as Ey; cbn; [|done].
  destruct (hasField _); [|done].
  unfold assignProperty. destruct (jsstring_eqb k _); [done|].
  intros id o. rewrite lookup_insert. case_decide; [|apply Hacc].
  by intros [= <-]; subst.
Qed.

(** A normalised backup holds only events and overrides of its year. *)
Lemma normalizeBackupPayload_years nowIso payload backup :
  normalizeBackupPayload nowIso payload = Ok backup ->
  Forall (fun ev => otherYear (year backup) ev = false) (userEvents backup) /\
  (forall id o, builtinEventOverrides backup !! id = Some o ->
                effectiveYear id o = Some (year backup)).
Proof.
  unfold normalizeBackupPayload.
  destruct payload; try done.
  destruct (negb _); [done|].
  destruct (prop _ "year") as [[| |[y|]| | |]|]; try done.
  destruct (nullish_or (prop _ "userEvents") _) as [[| | | |raw|]|]; try done.
  destruct (nullish_or (prop _ "builtinEventOverrides") _) as [[| | | | |entries]|];
    try done; intros [= <-]; cbn [year userEvents builtinEventOverrides].
  - split.
    + apply Forall_forall. intros ev Hev.
      apply list_elem_of_omap in Hev as (item & _ & Hev).
      destruct (parseStoredUserEvent item); [|done].
      revert Hev. case_bool_decide as Ey; [|done]. intros [= <-].
      unfold otherYear. by rewrite bool_decide_eq_true_2.
    + apply fold_overrides_years. intros id o. by rewrite lookup_empty.
  - split.
    + apply Forall_forall. intros ev Hev.
      apply list_elem_of_omap in Hev as (item & _ & Hev).
      destruct (parseStoredUserEvent item); [|done].
      revert Hev. case_bool_decide as Ey; [|done]. intros [= <-].
      unfold otherYear. by rewrite bool_decide_eq_true_2.
    + intros id o. by rewrite lookup_empty.
Qed.

Lemma filter_all {A} (p : A -> bool) l :
  Forall (fun x => p x = true) l -> List.filter p l = l.
Proof. induction 1 as [|x l Hx _ IH]; cbn; [done|]. by rewrite Hx, IH. Qed.

Lemma filter_none {A} (p : A -> bool) l :
  Forall (fun x => p x = false) l -> List.filter p l = [].
Proof. induction 1 as [|x l Hx _ IH]; cbn; [done|]. by rewrite Hx, IH. Qed.

Lemma filter_filter_neg {A} (p : A -> bool) l :
  List.filter (fun x => negb (p x)) (List.filter p l) = [].
Proof.
  apply filter_none, Forall_forall. intros x Hx.
  apply list_elem_of_In, filter_In in Hx as [_ Hx]. by rewrite Hx.
Qed.

Lemma filter_idem {A} (p : A -> bool) l :
  List.filter p (List.filter p l) = List.filter p l.
Proof.
  apply filter_all, Forall_forall. intros x Hx.
  by apply list_elem_of_In, filter_In in Hx as [_ Hx].
Qed.

(** The run of an import whose two writes are accepted. *)
Lemma handleImportBackupFile_run nowIso payload backup w existingEvents existingOverrides :
  normalizeBackupPayload nowIso payload = Ok backup ->
  loadStoredUserEvents w = (Ok existingEvents, w) ->
  loadStoredBuiltinOverrides w = (Ok existingOverrides, w) ->
  ls_accepts w USER_EVENTS_STORAGE_KEY
    (storedModalEvents (importedEvents backup existingEvents)) = true ->
  ls_accepts w BUILTIN_EVENT_OVERRIDES_STORAGE_KEY
    (storedOverrides (importedOverrides backup existingOverrides)) = true ->
  exists message w',
    handleImportBackupFile nowIso (Json payload) w = (Ok (success message), w') /\
    ls_items w' =
      <[BUILTIN_EVENT_OVERRIDES_STORAGE_KEY :=
          storedOverrides (importedOverrides backup existingOverrides)]>
        (<[USER_EVENTS_STORAGE_KEY :=
             storedModalEvents (importedEvents backup existingEvents)]> (ls_items w)).
Proof.
  intros Hn He Ho Ha1 Ha2.
  unfold handleImportBackupFile, try_catch.
  unfold bind at 1. cbn [JSON_parse]. unfold ret at 1.
  unfold bind at 1. rewrite Hn. cbn [lift]. unfold ret at 1.
  unfold bind at 1. rewrite He.
  unfold bind at 1. unfold saveStoredUserEvents, JSON_stringify.
  unfold bind at 1. unfold localStorage_setItem at 1.
  fold (otherYear (year backup)).
  change (userEvents backup ++ List.filter (otherYear (year backup)) existingEvents)
    with (importedEvents backup existingEvents).
  fold (storedModalEvents (importedEvents backup existingEvents)).
  rewrite Ha1. unfold dispatchEvent at 1.
  cbn [ls_items ls_readable ls_accepts dispatched nanoid_source nanoid_drawn].
  set (w1 := mkWorld _ _ _ _ _ _).
  assert (Ho1 : loadStoredBuiltinOverrides w1 = (Ok existingOverrides, w1)).
  { apply (loadStoredBuiltinOverrides_ext w); [done| |done].
    subst w1; cbn [ls_items]. rewrite lookup_insert_ne; [done|apply storage_keys_differ]. }
  unfold bind at 1. rewrite Ho1.
  unfold bind at 1. unfold saveStoredBuiltinOverrides, JSON_stringify.
  unfold bind at 1. unfold localStorage_setItem at 1.
  change (builtinEventOverrides backup ∪ remainingOverrides (year backup) existingOverrides)
    with (importedOverrides backup existingOverrides).
  fold (storedOverrides (importedOverrides backup existingOverrides)).
  subst w1. cbn [ls_items ls_readable ls_accepts dispatched nanoid_source nanoid_drawn].
  rewrite Ha2. unfold dispatchEvent, ret.
  cbn [ls_items ls_readable ls_accepts dispatched nanoid_source nanoid_drawn].
  eexists _, _. split; reflexivity.
Qed.

End BackupImport.

Section ImportClaim.
Import ApiKeyModal.

Lemma importedEvents_frame backup existing :
  Forall (fun ev => otherYear (year backup) ev = false) (userEvents backup) ->
  List.filter (otherYear (year backup)) (importedEvents backup existing)
  = List.filter (otherYear (year backup)) existing /\
  List.filter (fun ev => negb (otherYear (year backup) ev)) (importedEvents backup existing)
  = userEvents backup.
Proof.
  intros Hy. unfold importedEvents. rewrite !List.filter_app. split.
  - by rewrite (filter_none _ _ Hy), filter_idem.
  - rewrite filter_filter_neg, app_nil_r. apply filter_all.
    eapply Forall_impl; [exact Hy|]. cbn. by intros ev ->.
Qed.

Lemma importedOverrides_lookup backup existing id :
  importedOverrides backup existing !! id =
  match builtinEventOverrides backup !! id with
  | Some o => Some o
  | None =>
    match existing !! id with
    | Some o =>
      if bool_decide (effectiveYear id o = Some (year backup)) then None else Some o
    | None => None
    end
  end.
Proof.
  unfold importedOverrides, remainingOverrides.
  destruct (builtinEventOverrides backup !! id) as [o|] eqn:Eb.
  - by apply lookup_union_Some_l.
  - rewrite lookup_union_r by done.
    rewrite map_lookup_filter. destruct (existing !! id) as [o|]; cbn; [|done].
    case_bool_decide as Ey.
    + rewrite option_guard_False; [done|]. cbn. by intros H.
    + by rewrite option_guard_True.
Qed.

(** The claim as first stated fails for an override of another year whose
    id the backup also holds: the title override of the 2026 event is
    replaced by the backup's date override. *)
Lemma import_replaces_override_of_other_year :
  loadedOverride collision_world event_2026
  = Some (mkOverride None (Some (u "예산 계획")) None) /\
  effectiveYear event_2026 (mkOverride None (Some (u "예산 계획")) None) = Some 2026 /\
  (exists message,
     fst (handleImportBackupFile [] (Json collision_backup) collision_world)
     = Ok (success message)) /\
  loadedOverride
    (snd (handleImportBackupFile [] (Json collision_backup) collision_world)) event_2026
  = Some (mkOverride (Some (u "2025-05-05")) None None).
Proof.
  split; [vm_compute; reflexivity|]. split; [vm_compute; reflexivity|].
  split; [eexists; vm_compute; reflexivity|]. vm_compute. reflexivity.
Qed.

End ImportClaim.

Section ObjectEntries.

Lemma find_snoc {A} (p : A -> bool) l x :
  List.find p (l ++ [x]) =
  match List.find p l with
  | Some y => Some y
  | None => if p x then Some x else None
  end.
Proof. induction l as [|a l IH]; cbn; [done|]. by destruct (p a). Qed.

Lemma existsb_find {A} (p : A -> bool) l :
  existsb p l = match List.find p l with Some _ => true | None => false end.
Proof. induction l as [|a l IH]; cbn; [done|]. by destruct (p a). Qed.

Lemma find_map_set obj key value id :
  List.find (assoc_test id)
    (List.map (fun kv => if jsstring_eqb (fst kv) key then (key, value) else kv) obj)
  = if jsstring_eqb key id
    then match List.find (assoc_test key) obj with
         | Some _ => Some (key, value)
         | None => None
         end
    else List.find (assoc_test id) obj.
Proof.
  induction obj as [|[k v] obj IH]; cbn [List.map List.find fst].
  - by destruct (jsstring_eqb key id).
  - unfold assoc_test at 1 3 5. cbn [fst].
    destruct (jsstring_eqb k key) eqn:Ek; cbn [fst].
    + apply jsstring_eqb_true in Ek as ->.
      destruct (jsstring_eqb key id) eqn:Ei; [done|]. exact IH.
    + rewrite IH. destruct (jsstring_eqb key id) eqn:Ei.
      * apply jsstring_eqb_true in Ei as <-. by rewrite Ek.
      * done.
Qed.

Lemma setProperty_find obj key value id :
  List.find (assoc_test id) (setProperty obj key value) =
  if jsstring_eqb key id
  then Some (key, value)
  else List.find (assoc_test id) obj.
Proof.
  unfold setProperty. rewrite existsb_find. fold (assoc_test key).
  destruct (List.find (assoc_test key) obj) as [kv|] eqn:Ef.
  - rewrite find_map_set. by rewrite Ef.
  - rewrite find_snoc. unfold assoc_test at 2. cbn [fst].
    destruct (jsstring_eqb key id) eqn:Ek.
    + apply jsstring_eqb_true in Ek as ->. by rewrite Ef.
    + by destruct (List.find (assoc_test id) obj).
Qed.

Lemma NoDup_snoc {A} (l : list A) x :
  ~ In x l -> List.NoDup l -> List.NoDup (l ++ [x]).
Proof.
  intros Hx Hl. induction Hl as [|y l Hy Hl IH]; cbn.
  - constructor; [intros []|constructor].
  - constructor.
    + rewrite in_app_iff. intros [H|[->|[]]]; [done|]. apply Hx. by left.
    + apply IH. intros H. apply Hx. by right.
Qed.

Lemma setProperty_NoDup obj key value :
  List.NoDup (List.map fst obj) -> List.NoDup (List.map fst (setProperty obj key value)).
Proof.
  intros Hnd. unfold setProperty.
  destruct (existsb _ obj) eqn:Ee.
  - replace (List.map fst (List.map _ obj)) with (List.map fst obj); [done|].
    rewrite map_map. apply map_ext_in. intros [k v] _. cbn [fst].
    destruct (jsstring_eqb k key) eqn:Ek; [|done].
    by apply jsstring_eqb_true in Ek.
  - rewrite map_app. cbn [List.map fst]. apply NoDup_snoc; [|done].
    intros Hk. apply in_map_iff in Hk as ([k v] & Hkv & Hin). cbn in Hkv. subst k.
    assert (existsb (fun kv => jsstring_eqb (fst kv) key) obj = true); [|congruence].
    apply existsb_exists. exists (key, v). split; [done|]. by apply jsstring_eqb_true.
Qed.

Lemma fold_setProperty fields obj :
  List.NoDup (List.map fst obj) ->
  List.NoDup (List.map fst
                (fold_left (fun obj kv => setProperty obj (fst kv) (snd kv)) fields obj)) /\
  forall id,
    List.find (assoc_test id)
      (fold_left (fun obj kv => setProperty obj (fst kv) (snd kv)) fields obj)
    = match List.find (assoc_test id) (rev fields) with
      | Some kv => Some kv
      | None => List.find (assoc_test id) obj
      end.
Proof.
  revert obj. induction fields as [|[k v] fields IH]; intros obj Hnd; cbn [fold_left].
  - done.
  - destruct (IH (setProperty obj k v) (setProperty_NoDup _ _ _ Hnd)) as [Hn Hf].
    split; [done|]. intros id. rewrite Hf. cbn [rev]. rewrite find_snoc.
    destruct (List.find (assoc_test id) (rev fields)); [done|].
    rewrite setProperty_find. unfold assoc_test at 2. cbn [fst snd]. by destruct (jsstring_eqb k id).
Qed.

Lemma Object_entries_spec fields :
  List.NoDup (List.map fst (Object_entries fields)) /\
  forall id, List.find (assoc_test id) (Object_entries fields)
             = List.find (assoc_test id) (rev fields).
Proof.
  destruct (fold_setProperty fields []) as [Hn Hf]; [constructor|].
  split; [done|]. intros id. unfold Object_entries. rewrite Hf.
  by destruct (List.find _ (rev fields)).
Qed.

(** What a loop of assignments over entries with distinct keys leaves
    under [id]. *)
Lemma fold_assignProperty {V} (pick : jsstring -> json -> option V)
    (entries : list (jsstring * json))
    (acc : gmap jsstring V) id :
  List.NoDup (List.map fst entries) ->
  fold_left
    (fun overrides entry =>
       match pick (fst entry) (snd entry) with
       | Some next => assignProperty overrides (fst entry) next
       | None => overrides
       end)
    entries acc !! id
  = match List.find (assoc_test id) entries with
    | Some kv =>
      if jsstring_eqb id (u "__proto__") then acc !! id
      else match pick id (snd kv) with
           | Some next => Some next
           | None => acc !! id
           end
    | None => acc !! id
    end.
Proof.
  revert acc. induction entries as [|[k v] entries IH]; intros acc Hnd; cbn [fold_left];
    [done|].
  cbn [List.map fst] in Hnd. inversion Hnd as [|? ? Hk Hnd']; subst.
  rewrite IH by done. cbn [List.find]. unfold assoc_test at 2. cbn [fst snd].
  destruct (jsstring_eqb k id) eqn:Ek.
  - apply jsstring_eqb_true in Ek as ->.
    assert (List.find (assoc_test id) entries = None) as ->.
    { destruct (List.find (assoc_test id) entries) as [[k' v']|] eqn:Ef; [|done].
      apply find_some in Ef as [Hin Ht]. apply jsstring_eqb_true in Ht. cbn in Ht. subst k'.
      exfalso. apply Hk. apply in_map_iff. by exists (id, v'). }
    unfold assignProperty. destruct (jsstring_eqb id (u "__proto__")) eqn:Ep.
    + cbn [snd]. by destruct (pick id v).
    + cbn [snd]. destruct (pick id v); [|done]. by rewrite lookup_insert_eq.
  - assert (Hacc : match pick k v with
                   | Some next => assignProperty acc k next
                   | None => acc
                   end !! id = acc !! id).
    { destruct (pick k v); [|done]. unfold assignProperty.
      destruct (jsstring_eqb k (u "__proto__")); [done|].
      apply lookup_insert_ne. intros ->. by rewrite (proj2 (jsstring_eqb_true _ _)) in Ek. }
    by rewrite Hacc.
Qed.

End ObjectEntries.
Section ImportRaw.
Import ApiKeyModal.

Lemma fold_left_ext_eq {A B} (f g : A -> B -> A) l a :
  (forall a b, f a b = g a b) -> fold_left f l a = fold_left g l a.
Proof. intros H. revert a. induction l as [|b l IH]; intros a; cbn; [done|]. by rewrite H, IH. Qed.

Lemma find_lastValue fields id :
  lastValue fields id =
  match List.find (assoc_test id) (Object_entries fields) with
  | Some kv => Some (snd kv)
  | None => None
  end.
Proof.
  unfold lastValue. by rewrite (proj2 (Object_entries_spec fields) id).
Qed.

(** The overrides that the stored-overrides loop collects, pointwise. *)
Lemma stored_overrides_lookup fields id :
  fold_left
    (fun overrides entry =>
       if negb (isPlainObject (snd entry)) then overrides
       else
         let next := readOverride (snd entry) in
         if hasField next then assignProperty overrides (fst entry) next
         else overrides)
    (Object_entries fields) (∅ : gmap jsstring StoredBuiltinEventOverride) !! id
  = overrideAt fields id.
Proof.
  pose (pick := fun (_ : jsstring) v =>
                  if negb (isPlainObject v) then None
                  else if hasField (readOverride v) then Some (readOverride v)
                       else None).
  rewrite (fold_left_ext_eq _
             (fun overrides entry =>
                match pick (fst entry) (snd entry) with
                | Some next => assignProperty overrides (fst entry) next
                | None => overrides
                end)).
  2:{ intros o [k v]. unfold pick. cbn [fst snd]. destruct (negb (isPlainObject v)); [done|].
      cbv zeta. by destruct (hasField _). }
  rewrite (fold_assignProperty pick) by apply Object_entries_spec.
  unfold overrideAt, pick. rewrite find_lastValue, lookup_empty.
  destruct (List.find (assoc_test id) (Object_entries fields)) as [[k v]|];
    [|by destruct (jsstring_eqb id _)].
  destruct (jsstring_eqb id _); [done|]. cbn [snd].
  destruct v; cbn [isPlainObject negb]; try done.
  by destruct (hasField _).
Qed.

(** The overrides that the loop over the file's overrides collects. *)
Lemma file_overrides_lookup Y fields id :
  fold_left
    (fun overrides entry =>
       if negb (isPlainObject (snd entry)) then overrides
       else
         let next := readOverride (snd entry) in
         if negb (bool_decide (effectiveYear (fst entry) next = Some Y))
         then overrides
         else if hasField next then assignProperty overrides (fst entry) next
         else overrides)
    (Object_entries fields) (∅ : gmap jsstring StoredBuiltinEventOverride) !! id
  = overrideOfYear Y fields id.
Proof.
  pose (pick := fun k v =>
                  if negb (isPlainObject v) then None
                  else if negb (bool_decide (effectiveYear k (readOverride v) = Some Y))
                       then None
                       else if hasField (readOverride v) then Some (readOverride v)
                            else None).
  rewrite (fold_left_ext_eq _
             (fun overrides entry =>
                match pick (fst entry) (snd entry) with
                | Some next => assignProperty overrides (fst entry) next
                | None => overrides
                end)).
  2:{ intros o [k v]. unfold pick. cbn [fst snd]. destruct (negb (isPlainObject v)); [done|].
      cbv zeta. destruct (negb (bool_decide _)); [done|]. by destruct (hasField _). }
  rewrite (fold_assignProperty pick) by apply Object_entries_spec.
  unfold overrideOfYear, overrideAt, pick. rewrite find_lastValue, lookup_empty.
  destruct (List.find (assoc_test id) (Object_entries fields)) as [[k v]|];
    [|by destruct (jsstring_eqb id _)].
  destruct (jsstring_eqb id _); [done|]. cbn [snd].
  destruct v; cbn [isPlainObject negb]; try done.
  destruct (hasField _); by destruct (bool_decide _).
Qed.

Lemma loadStoredUserEvents_raw w :
  ls_readable w = true ->
  loadStoredUserEvents w
  = (Ok (omap parseStoredUserEvent (storedArray w USER_EVENTS_STORAGE_KEY)), w).
Proof.
  intros Hr. unfold loadStoredUserEvents, storedArray, try_catch, bind, localStorage_getItem.
  rewrite Hr. destruct (ls_items w !! USER_EVENTS_STORAGE_KEY) as [[| |j]|]; cbn; try done.
  by destruct j.
Qed.

Lemma loadStoredBuiltinOverrides_raw w :
  ls_readable w = true ->
  exists existing,
    loadStoredBuiltinOverrides w = (Ok existing, w) /\
    forall id,
      existing !! id = overrideAt (storedObject w BUILTIN_EVENT_OVERRIDES_STORAGE_KEY) id.
Proof.
  intros Hr.
  assert (Hnone : forall id, (∅ : gmap jsstring StoredBuiltinEventOverride) !! id
                             = overrideAt [] id).
  { intros id. unfold overrideAt. rewrite lookup_empty. by destruct (jsstring_eqb id _). }
  unfold loadStoredBuiltinOverrides, storedObject, try_catch, bind, localStorage_getItem.
  rewrite Hr.
  destruct (ls_items w !! BUILTIN_EVENT_OVERRIDES_STORAGE_KEY) as [[| |j]|]; cbn;
    try (by eexists).
  destruct j; cbn; try (by eexists).
  eexists. split; [reflexivity|]. apply stored_overrides_lookup.
Qed.

Lemma omap_ext_eq {A B} (f g : A -> option B) (l : list A) :
  (forall a, f a = g a) -> omap f l = omap g l.
Proof. intros H. induction l as [|a l IH]; cbn; [done|]. by rewrite H, IH. Qed.

Lemma omap_filter {A B} (f : A -> option B) (p : B -> bool) (l : list A) :
  omap (fun a => match f a with
                 | Some b => if p b then Some b else None
                 | None => None
                 end) l
  = List.filter p (omap f l).
Proof.
  induction l as [|a l IH]; cbn; [done|].
  destruct (f a) as [b|]; [|done]. cbn. destruct (p b); by rewrite IH.
Qed.

(** What the normaliser makes of a file that gives a version it accepts,
    a year, an array of events and an object of overrides. *)
Lemma normalizeBackupPayload_file nowIso fields y fileEvents fileOverrides :
  (prop (Some (JObj fields)) "version" = None \/
   exists v, prop (Some (JObj fields)) "version" = Some (JNum (Finite v)) /\
             ((v == 0)%Q \/ (v == 1)%Q)) ->
  prop (Some (JObj fields)) "year" = Some (JNum (Finite y)) ->
  prop (Some (JObj fields)) "userEvents" = Some (JArr fileEvents) ->
  prop (Some (JObj fields)) "builtinEventOverrides" = Some (JObj fileOverrides) ->
  exists backup,
    normalizeBackupPayload nowIso (JObj fields) = Ok backup /\
    year backup = Math_trunc y /\
    userEvents backup
    = List.filter (fun ev => negb (otherYear (Math_trunc y) ev))
        (omap parseStoredUserEvent fileEvents) /\
    forall id, builtinEventOverrides backup !! id
               = overrideOfYear (Math_trunc y) fileOverrides id.
Proof.
  intros Hv Hy He Ho. unfold normalizeBackupPayload.
  assert (match prop (Some (JObj fields)) "version" with
          | Some (JNum (Finite v)) =>
            Qeq_bool v 0 || Qeq_bool v (inject_Z BACKUP_FILE_VERSION)
          | Some _ => false
          | None => true
          end = true) as ->.
  { destruct Hv as [->|(v & -> & [H|H])]; [done| |].
    - apply Qeq_bool_iff in H. by rewrite H.
    - apply Qeq_bool_iff in H. change (inject_Z BACKUP_FILE_VERSION) with 1%Q.
      rewrite H. apply orb_true_r. }
  cbn [negb]. rewrite Hy, He, Ho. cbn [nullish_or].
  eexists. split; [reflexivity|]. cbn [year userEvents builtinEventOverrides].
  split; [done|]. split.
  - rewrite <- omap_filter. apply omap_ext_eq. intros item.
    destruct (parseStoredUserEvent item) as [ev|]; [|done].
    unfold otherYear. by rewrite negb_involutive.
  - apply file_overrides_lookup.
Qed.

(** An event in normal form is read back as it is. *)
Lemma parseStoredUserEvent_normalForm ev :
  normalForm ev -> parseStoredUserEvent (storedUserEvent_json ev) = Some ev.
Proof.
  intros (Hi & Hd & Ht & Hne). destruct ev as [i d t c s]. cbn [id date title] in *.
  unfold parseStoredUserEvent, storedUserEvent_json. cbn [id date title category source].
  change (asString (prop (Some (JObj ?f)) "id")) with (Some i).
  change (asString (prop (Some (JObj ?f)) "date")) with (Some d).
  change (asString (prop (Some (JObj ?f)) "title")) with (Some t).
  cbv beta iota zeta. rewrite Ht, Hd. cbn [negb].
  rewrite (proj2 (jsstring_eqb_false t []) Hne), (proj2 (jsstring_eqb_false i []) Hi).
  change (isEventCategory (prop _ "category")) with (category_of_string (category_string c)).
  change (prop _ "source") with (Some (JStr (source_string s))).
  rewrite (proj2 (category_of_string_spec _ c) eq_refl).
  by destruct s.
Qed.

(** What makes an entry of a stored array an event, and the event it is
    read as. *)
Lemma parseStoredUserEvent_spec item ev :
  parseStoredUserEvent item = Some ev <->
  exists i d t,
    prop (Some item) "id" = Some (JStr i) /\ i <> [] /\
    prop (Some item) "date" = Some (JStr d) /\ isDateKeyLike d = true /\
    prop (Some item) "title" = Some (JStr t) /\ trim t <> [] /\
    ev = mkStoredUserEvent i d (trim t)
           (default Other (isEventCategory (prop (Some item) "category")))
           (default manual (isCalendarEventSource (prop (Some item) "source"))).
Proof.
  unfold parseStoredUserEvent. split.
  - destruct item as [| | | | |fields]; try done.
    destruct (prop (Some (JObj fields)) "id") as [[| | |i| |]|]; try done.
    destruct (prop (Some (JObj fields)) "date") as [[| | |d| |]|]; try done.
    destruct (prop (Some (JObj fields)) "title") as [[| | |t| |]|]; try done.
    cbn [asString].
    destruct (jsstring_eqb i []) eqn:Ei; [done|].
    destruct (isDateKeyLike d) eqn:Ed; [|done]. cbn [negb].
    destruct (jsstring_eqb (trim t) []) eqn:Et; [done|].
    intros [= <-]. exists i, d, t.
    apply jsstring_eqb_false in Ei, Et. by repeat split.
  - intros (i & d & t & Hi & Hin & Hd & Hdl & Ht & Htn & ->).
    destruct item as [| | | | |fields]; try done.
    rewrite Hi, Hd, Ht. cbn [asString].
    rewrite (proj2 (jsstring_eqb_false i []) Hin), Hdl. cbn [negb].
    by rewrite (proj2 (jsstring_eqb_false (trim t) []) Htn).
Qed.

(** The three fields read from the value of an overrides object. *)
Lemma readOverride_spec value :
  (forall d, o_date (readOverride value) = Some d <->
             prop (Some value) "date" = Some (JStr d) /\ isDateKeyLike d = true) /\
  (forall t, o_title (readOverride value) = Some t <->
             exists raw, prop (Some value) "title" = Some (JStr raw) /\
                         t = trim raw /\ t <> []) /\
  o_category (readOverride value) = isEventCategory (prop (Some value) "category") /\
  (hasField (readOverride value) = true <->
   o_date (readOverride value) <> None \/ o_title (readOverride value) <> None \/
   o_category (readOverride value) <> None).
Proof.
  unfold readOverride. cbn [o_date o_title o_category].
  split; [|split; [|split; [done|]]].
  - intros d. destruct (prop (Some value) "date") as [[| | |s| |]|]; cbn [asString];
      try (split; [done|by intros [? _]]).
    destruct (isDateKeyLike s) eqn:E.
    + split; [by intros [= <-]|by intros [[= <-] _]].
    + split; [done|]. intros [[= <-] H]. congruence.
  - intros t. destruct (prop (Some value) "title") as [[| | |s| |]|]; cbn [asString];
      try (split; [done|by intros (? & ? & _)]).
    destruct (jsstring_eqb (trim s) []) eqn:E.
    + apply jsstring_eqb_true in E. split; [done|].
      intros (raw & [= <-] & -> & H). done.
    + apply jsstring_eqb_false in E. split.
      * intros [= <-]. by exists s.
      * by intros (raw & [= <-] & -> & _).
  - unfold hasField. cbn [o_date o_title o_category].
    set (od := match asString (prop (Some value) "date") with
               | Some d => if isDateKeyLike d then Some d else None
               | None => None
               end).
    assert (Hod : forall d, od = Some d -> d <> []).
    { intros d. unfold od. destruct (asString (prop (Some value) "date")) as [s|]; [|done].
      destruct (isDateKeyLike s) eqn:E; [|done]. intros [= <-] ->. done. }
    set (ot := match asString (prop (Some value) "title") with
               | Some t => if jsstring_eqb (trim t) [] then None else Some (trim t)
               | None => None
               end).
    assert (Hot : forall t, ot = Some t -> t <> []).
    { intros t. unfold ot. destruct (asString (prop (Some value) "title")) as [s|]; [|done].
      destruct (jsstring_eqb (trim s) []) eqn:E; [done|].
      apply jsstring_eqb_false in E. by intros [= <-]. }
    destruct od as [[|c d]|]; [by destruct (Hod [] eq_refl)| |].
    { split; [by left|done]. }
    destruct ot as [[|c' t]|]; [by destruct (Hot [] eq_refl)| |].
    { split; [by right; left|done]. }
    destruct (isEventCategory _).
    + split; [by right; right|done].
    + split; [done|]. by intros [?|[?|?]].
Qed.

End ImportRaw.
Section ImportClaimRaw.
Import ApiKeyModal.

(** C9 (amended). An entry of a stored array or of a file is an event when
    it has an id that is not empty, a date of the form of a date key and a
    title that is not blank; it is read with its title trimmed, the
    category "기타" for a category outside the enumeration and the source
    manual for an unknown source.  An import of a file for the year [Y]
    whose two writes are accepted stores the events of the file that are
    dated in [Y], followed by the stored events that are not dated in [Y],
    all as they are read, so a stored event of another year that is in
    this form stays as it is; and it stores, for each id, the override of
    the file when the file holds one whose effective year is [Y], else the
    stored override when its effective year is not [Y], and none
    otherwise.  Every other key of the store stays as it was.  A backup
    whose version is a number other than 0 and 1 is rejected and leaves
    the world as it was. *)
Theorem handleImportBackupFile_year_slice :
  (forall item ev,
     parseStoredUserEvent item = Some ev <->
     exists i d t,
       prop (Some item) "id" = Some (JStr i) /\ i <> [] /\
       prop (Some item) "date" = Some (JStr d) /\ isDateKeyLike d = true /\
       prop (Some item) "title" = Some (JStr t) /\ trim t <> [] /\
       ev = mkStoredUserEvent i d (trim t)
              (default Other (isEventCategory (prop (Some item) "category")))
              (default manual (isCalendarEventSource (prop (Some item) "source")))) /\
  (forall value,
     (forall d, o_date (readOverride value) = Some d <->
                prop (Some value) "date" = Some (JStr d) /\ isDateKeyLike d = true) /\
     (forall t, o_title (readOverride value) = Some t <->
                exists raw, prop (Some value) "title" = Some (JStr raw) /\
                            t = trim raw /\ t <> []) /\
     o_category (readOverride value) = isEventCategory (prop (Some value) "category") /\
     (hasField (readOverride value) = true <->
      o_date (readOverride value) <> None \/ o_title (readOverride value) <> None \/
      o_category (readOverride value) <> None)) /\
  (forall nowIso fields y fileEvents fileOverrides w,
     (prop (Some (JObj fields)) "version" = None \/
      exists v, prop (Some (JObj fields)) "version" = Some (JNum (Finite v)) /\
                ((v == 0)%Q \/ (v == 1)%Q)) ->
     prop (Some (JObj fields)) "year" = Some (JNum (Finite y)) ->
     prop (Some (JObj fields)) "userEvents" = Some (JArr fileEvents) ->
     prop (Some (JObj fields)) "builtinEventOverrides" = Some (JObj fileOverrides) ->
     ls_readable w = true ->
     let Y := Math_trunc y in
     let newEvents :=
       List.filter (fun ev => negb (otherYear Y ev)) (omap parseStoredUserEvent fileEvents)
       ++ List.filter (otherYear Y)
            (omap parseStoredUserEvent (storedArray w USER_EVENTS_STORAGE_KEY)) in
     exists newOverrides,
       (forall id,
          newOverrides !! id =
          match overrideOfYear Y fileOverrides id with
          | Some o => Some o
          | None =>
            overrideOfOtherYear Y (storedObject w BUILTIN_EVENT_OVERRIDES_STORAGE_KEY) id
          end) /\
       (forall ev,
          normalForm ev -> otherYear Y ev = true ->
          In (storedUserEvent_json ev) (storedArray w USER_EVENTS_STORAGE_KEY) ->
          In ev newEvents) /\
       (ls_accepts w USER_EVENTS_STORAGE_KEY (storedModalEvents newEvents) = true ->
        ls_accepts w BUILTIN_EVENT_OVERRIDES_STORAGE_KEY (storedOverrides newOverrides) = true ->
        exists message w',
          handleImportBackupFile nowIso (Json (JObj fields)) w = (Ok (success message), w') /\
          ls_items w' =
            <[BUILTIN_EVENT_OVERRIDES_STORAGE_KEY := storedOverrides newOverrides]>
              (<[USER_EVENTS_STORAGE_KEY := storedModalEvents newEvents]> (ls_items w)))) /\
  (forall nowIso payload n w,
     prop (Some payload) "version" = Some (JNum n) ->
     (forall v, n = Finite v -> ~ (v == 0)%Q /\ ~ (v == 1)%Q) ->
     handleImportBackupFile nowIso (Json payload) w
     = (Ok (error (u "지원하지 않는 백업 파일 버전입니다.")), w)).
Proof.
  split; [apply parseStoredUserEvent_spec|].
  split; [apply readOverride_spec|].
  split.
  - intros nowIso fields y fileEvents fileOverrides w Hv Hy He Ho Hr Y newEvents.
    destruct (normalizeBackupPayload_file nowIso fields y fileEvents fileOverrides
                Hv Hy He Ho) as (backup & Hn & Hyear & Hev & Hov).
    destruct (loadStoredBuiltinOverrides_raw w Hr) as (existing & Hlo & Hex).
    pose proof (loadStoredUserEvents_raw w Hr) as Hle.
    assert (Hnew : importedEvents backup
                     (omap parseStoredUserEvent (storedArray w USER_EVENTS_STORAGE_KEY))
                   = newEvents).
    { unfold importedEvents. by rewrite Hev, Hyear. }
    exists (importedOverrides backup existing).
    split; [|split].
    + intros id. rewrite importedOverrides_lookup, Hov, Hex, Hyear.
      unfold overrideOfOtherYear. fold Y.
      by destruct (overrideOfYear Y fileOverrides id).
    + intros ev Hnf Hoy Hin. unfold newEvents. apply in_app_iff. right.
      apply filter_In. split; [|done].
      apply list_elem_of_In, list_elem_of_omap. exists (storedUserEvent_json ev).
      split; [by apply list_elem_of_In|]. by apply parseStoredUserEvent_normalForm.
    + intros Ha1 Ha2. rewrite <- Hnew in *.
      by apply handleImportBackupFile_run.
  - intros nowIso payload n w Hv Hn.
    unfold handleImportBackupFile, try_catch.
    unfold bind at 1. cbn [JSON_parse]. unfold ret at 1.
    unfold bind at 1.
    assert (E : normalizeBackupPayload nowIso payload
                = Throw (ErrorObj (u "지원하지 않는 백업 파일 버전입니다."))).
    { unfold normalizeBackupPayload. destruct payload; try done.
      rewrite Hv. destruct n as [v|]; [|done].
      destruct (Hn v eq_refl) as [H0 H1].
      replace (Qeq_bool v 0) with false
        by (symmetry; apply not_true_is_false; by rewrite Qeq_bool_iff).
      replace (Qeq_bool v (inject_Z BACKUP_FILE_VERSION)) with false
        by (symmetry; apply not_true_is_false; by rewrite Qeq_bool_iff).
      reflexivity. }
    rewrite E. reflexivity.
Qed.

(** On the sample store the import of the sample backup keeps the event
    of 2024 with its title trimmed, drops the entry without id, and puts
    the file's event of 2025 in the place of the stored one. *)
Lemma handleImportBackupFile_year_slice_witness :
  exists message w',
    handleImportBackupFile [] (Json (JObj import_fields)) import_store
    = (Ok (success message), w') /\
    ls_items w' !! USER_EVENTS_STORAGE_KEY
    = Some (storedModalEvents
              [mkStoredUserEvent (u "user-c") (u "2025-07-07") (u "계약") Contract ai;
               mkStoredUserEvent (u "user-a") (u "2024-03-04") (u "결산") Budget manual]).
Proof.
  destruct (proj1 (proj2 (proj2 handleImportBackupFile_year_slice)) [] import_fields 2025%Q
              _ [] import_store
              ltac:(right; exists 1%Q; split; [reflexivity|right; reflexivity])
              eq_refl eq_refl eq_refl eq_refl)
    as (newOverrides & _ & _ & Hrun).
  destruct (Hrun eq_refl eq_refl) as (message & w' & Hrun' & Hitems).
  exists message, w'. split; [exact Hrun'|].
  rewrite Hitems, lookup_insert_ne by (symmetry; apply storage_keys_differ).
  rewrite lookup_insert_eq. reflexivity.
Defined.

(** The loader on a key that the stored text gives twice and on the key
    [__proto__]: the last value of the key counts, here [null], and
    [__proto__] gives no override. *)
Example loadStoredBuiltinOverrides_last_value :
  let w :=
    mkWorld
      {[BUILTIN_EVENT_OVERRIDES_STORAGE_KEY :=
          Json (JObj [(event_2026, JObj [(u "title", JStr (u "예산 계획"))]);
                      (event_2026, JNull);
                      (u "__proto__", JObj [(u "title", JStr (u "예산 계획"))])])]}
      true (fun _ _ => true) [] (fun n => String_of_int (Z.of_nat n)) 0 in
  loadedOverride w event_2026 = None /\ loadedOverride w (u "__proto__") = None.
Proof. split; vm_compute; reflexivity. Qed.

End ImportClaimRaw.

(** ** Instances of the statements with hypotheses *)


Lemma applyScheduleProposal_commit_of_loaded_witness :
  exists next w',
    Chatbot.applyScheduleProposal (u "ai-1") (banner_messages [true; true; true]) fresh_world
    = (Ok next, w') /\
    Chatbot.applyScheduleProposal (u "ai-1") next w' = (Ok next, w').
Proof.
  destruct (applyScheduleProposal_commit_of_loaded (u "ai-1")
              (banner_messages [true; true; true]) fresh_world
              (banner_proposal [true; true; true]))
    as (existing & added & next & w' & _ & Happ & _ & _ & _ & _ & _ & Hagain).
  - reflexivity.
  - discriminate.
  - discriminate.
  - exists next, w'. split; [exact Happ|exact Hagain].
Defined.

Lemma applyScheduleProposal_nothing_selected_witness :
  Chatbot.applyScheduleProposal (u "ai-1") (banner_messages [false; false; false]) fresh_world
  = (Ok (banner_messages [false; false; false]), fresh_world).
Proof.
  apply (proj1 (applyScheduleProposal_nothing_selected (u "ai-1")
                  (banner_messages [false; false; false]) fresh_world
                  (banner_proposal [false; false; false])
                  eq_refl ltac:(discriminate) eq_refl)).
Defined.


(* ===================================================================== *)
(** * Further properties of the date keys *)

Section DayStepping.

Lemma daysInMonth_december y : daysInMonth y 11 = 31.
Proof. reflexivity. Qed.

Lemma succ_day_wf d : wf_date d -> wf_date (succ_day d).
Proof.
  intros [Hm Hd]. unfold succ_day, wf_date.
  destruct (Z.ltb_spec (getDate d) (daysInMonth (getFullYear d) (getMonth d))).
  - cbn [getFullYear getMonth getDate]. lia.
  - destruct (Z.ltb_spec (getMonth d) 11); cbn [getFullYear getMonth getDate].
    + pose proof (daysInMonth_bounds (getFullYear d) (getMonth d + 1)). lia.
    + pose proof (daysInMonth_bounds (getFullYear d + 1) 0). lia.
Qed.

Lemma pred_day_wf d : wf_date d -> wf_date (pred_day d).
Proof.
  intros [Hm Hd]. unfold pred_day, wf_date.
  destruct (Z.ltb_spec 1 (getDate d)).
  - cbn [getFullYear getMonth getDate]. lia.
  - destruct (Z.ltb_spec 0 (getMonth d)); cbn [getFullYear getMonth getDate].
    + pose proof (daysInMonth_bounds (getFullYear d) (getMonth d - 1)). lia.
    + rewrite daysInMonth_december. lia.
Qed.

Lemma pred_succ_day d : wf_date d -> pred_day (succ_day d) = d.
Proof.
  intros [Hm Hd]. destruct d as [y m dd]; cbn [getFullYear getMonth getDate] in *.
  unfold succ_day; cbn [getFullYear getMonth getDate].
  destruct (Z.ltb_spec dd (daysInMonth y m)).
  - unfold pred_day; cbn [getFullYear getMonth getDate].
    destruct (Z.ltb_spec 1 (dd + 1)); [|lia]. f_equal; lia.
  - destruct (Z.ltb_spec m 11); unfold pred_day; cbn [getFullYear getMonth getDate].
    + destruct (Z.ltb_spec 0 (m + 1)); [|lia].
      replace (m + 1 - 1) with m by lia. f_equal; lia.
    + assert (m = 11) as -> by lia. rewrite daysInMonth_december in *.
      f_equal; lia.
Qed.

Lemma succ_pred_day d : wf_date d -> succ_day (pred_day d) = d.
Proof.
  intros [Hm Hd]. destruct d as [y m dd]; cbn [getFullYear getMonth getDate] in *.
  unfold pred_day; cbn [getFullYear getMonth getDate].
  destruct (Z.ltb_spec 1 dd).
  - unfold succ_day; cbn [getFullYear getMonth getDate].
    destruct (Z.ltb_spec (dd - 1) (daysInMonth y m)); [|lia]. f_equal; lia.
  - destruct (Z.ltb_spec 0 m); unfold succ_day; cbn [getFullYear getMonth getDate].
    + rewrite Z.ltb_irrefl. destruct (Z.ltb_spec (m - 1) 11); [|lia]. f_equal; lia.
    + rewrite daysInMonth_december, Z.ltb_irrefl. cbn. f_equal; lia.
Qed.

Lemma iter_wf (f : Date -> Date) (n : nat) d :
  (forall x, wf_date x -> wf_date (f x)) -> wf_date d -> wf_date (Nat.iter n f d).
Proof. intros Hf Hd. induction n; cbn; auto. Qed.

Lemma add_days_wf k d : wf_date d -> wf_date (add_days k d).
Proof.
  intros Hd. unfold add_days.
  destruct (0 <=? k); apply iter_wf; auto using succ_day_wf, pred_day_wf.
Qed.

Lemma add_days_succ k d : wf_date d -> add_days (k + 1) d = succ_day (add_days k d).
Proof.
  intros Hd. unfold add_days.
  destruct (Z.leb_spec 0 k), (Z.leb_spec 0 (k + 1)); try lia.
  - replace (Z.to_nat (k + 1)) with (S (Z.to_nat k)) by lia. reflexivity.
  - assert (k = -1) as -> by lia. cbn. by rewrite succ_pred_day.
  - replace (Z.to_nat (- k)) with (S (Z.to_nat (- (k + 1)))) by lia.
    rewrite Nat.iter_succ, succ_pred_day; [done|].
    apply iter_wf; auto using pred_day_wf.
Qed.

Lemma add_days_pred k d : wf_date d -> add_days (k - 1) d = pred_day (add_days k d).
Proof.
  intros Hd.
  rewrite <- (pred_succ_day (add_days (k - 1) d)) by by apply add_days_wf.
  rewrite <- add_days_succ by done. by replace (k - 1 + 1) with k by lia.
Qed.

Lemma add_days_add a b d :
  wf_date d -> add_days a (add_days b d) = add_days (a + b) d.
Proof.
  intros Hd. pose proof (add_days_wf b d Hd) as Hb.
  assert (Hpos : forall n : nat,
             add_days (Z.of_nat n) (add_days b d) = add_days (Z.of_nat n + b) d).
  { induction n as [|n IH]; [reflexivity|].
    replace (Z.of_nat (S n)) with (Z.of_nat n + 1) by lia.
    rewrite add_days_succ, IH by done.
    rewrite <- add_days_succ by done. f_equal; lia. }
  assert (Hneg : forall n : nat,
             add_days (- Z.of_nat n) (add_days b d) = add_days (- Z.of_nat n + b) d).
  { induction n as [|n IH]; [reflexivity|].
    replace (- Z.of_nat (S n)) with (- Z.of_nat n - 1) by lia.
    rewrite add_days_pred, IH by done.
    rewrite <- add_days_pred by done. f_equal; lia. }
  destruct (Z.le_ge_cases 0 a).
  - specialize (Hpos (Z.to_nat a)). by rewrite Z2Nat.id in Hpos.
  - specialize (Hneg (Z.to_nat (- a))).
    by rewrite Z2Nat.id, Z.opp_involutive in Hneg by lia.
Qed.

Lemma MakeDay_wf y m dt : wf_date (MakeDay y m dt).
Proof.
  unfold MakeDay. apply add_days_wf. split; cbn [getFullYear getMonth getDate].
  - pose proof (Z.mod_pos_bound m 12 ltac:(lia)). lia.
  - pose proof (daysInMonth_bounds (y + m / 12) (m mod 12)). lia.
Qed.

Lemma newDate_is_wf y m d : wf_date (newDate y m d).
Proof. apply MakeDay_wf. Qed.

(** [setDate(getDate() + k)] steps [k] days, across months and years. *)
Lemma setDate_add_days D k :
  wf_date D -> setDate D (getDate D + k) = add_days k D.
Proof.
  intros HD. pose proof HD as [Hm Hd]. unfold setDate, MakeDay.
  rewrite Z.div_small, Z.mod_small, Z.add_0_r by lia.
  replace (getDate D + k - 1) with (k + (getDate D - 1)) by lia.
  rewrite <- add_days_add.
  - f_equal. destruct D as [y m d]; cbn [getFullYear getMonth getDate] in *.
    pose proof (MakeDay_exact y m d Hm Hd) as E. unfold MakeDay in E.
    by rewrite Z.div_small, Z.mod_small, Z.add_0_r in E by lia.
  - split; cbn [getFullYear getMonth getDate]; [lia|].
    pose proof (daysInMonth_bounds (getFullYear D) (getMonth D)). lia.
Qed.

End DayStepping.

Section ValidKeys.

Lemma pad2_digits n :
  0 <= n <= 99 -> pad2 n = [Z.to_N (48 + n / 10); Z.to_N (48 + n mod 10)].
Proof.
  intros Hn.
  apply (forallb_zrange
           (fun n => jsstring_eqb (pad2 n) [Z.to_N (48 + n / 10); Z.to_N (48 + n mod 10)])
           0 99) in Hn.
  - by apply bool_decide_eq_true in Hn.
  - vm_compute. reflexivity.
Qed.

Lemma padStart0_4_split y :
  0 <= y <= 9999 -> padStart0 4 (String_of_int y) = pad2 (y / 100) ++ pad2 (y mod 100).
Proof.
  intros Hy. destruct (Z_lt_ge_dec y 1000) as [Hlt|Hge].
  - assert (Hy' : 0 <= y <= 999) by lia.
    apply (forallb_zrange
             (fun y => jsstring_eqb (padStart0 4 (String_of_int y))
                         (pad2 (y / 100) ++ pad2 (y mod 100))) 0 999) in Hy'.
    + by apply bool_decide_eq_true in Hy'.
    + vm_compute. reflexivity.
  - rewrite padStart0_4_year by lia. apply String_of_int_year_split. lia.
Qed.

Lemma isDigit_spec c : isDigit c = true <-> (48 <= c <= 57)%N.
Proof. unfold isDigit. rewrite andb_true_iff, !N.leb_le. tauto. Qed.

Lemma pad2_of_digits a b :
  isDigit a = true -> isDigit b = true ->
  pad2 (10 * (Z.of_N a - 48) + (Z.of_N b - 48)) = [a; b].
Proof.
  intros Ha%isDigit_spec Hb%isDigit_spec.
  rewrite pad2_digits by lia.
  replace ((10 * (Z.of_N a - 48) + (Z.of_N b - 48)) / 10) with (Z.of_N a - 48)
    by (Z.to_euclidean_division_equations; lia).
  replace ((10 * (Z.of_N a - 48) + (Z.of_N b - 48)) mod 10) with (Z.of_N b - 48)
    by (Z.to_euclidean_division_equations; lia).
  f_equal; [|f_equal]; lia.
Qed.

Lemma pad2_isDigit n c : 0 <= n <= 99 -> In c (pad2 n) -> isDigit c = true.
Proof.
  intros Hn Hc. rewrite pad2_digits in Hc by done.
  apply isDigit_spec.
  assert (0 <= n / 10 <= 9) by (Z.to_euclidean_division_equations; lia).
  assert (0 <= n mod 10 <= 9) by (Z.to_euclidean_division_equations; lia).
  destruct Hc as [<-|[<-|[]]]; lia.
Qed.

Lemma buildDateKeyFromParts_split y m d :
  0 <= y <= 9999 ->
  buildDateKeyFromParts y m d =
  pad2 (y / 100) ++ pad2 (y mod 100) ++ u "-" ++ pad2 m ++ u "-" ++ pad2 d.
Proof.
  intros Hy. unfold buildDateKeyFromParts. rewrite padStart0_4_split by done.
  by rewrite <- app_assoc.
Qed.

Lemma split_nosep (l : jsstring) :
  Forall (fun c => c <> 45%N) l -> split 45 l = [l].
Proof.
  induction 1 as [|c l Hc _ IH]; [reflexivity|].
  cbn [split]. apply N.eqb_neq in Hc. by rewrite Hc, IH.
Qed.

Lemma split_app_sep (l rest : jsstring) :
  Forall (fun c => c <> 45%N) l -> split 45 (l ++ 45%N :: rest) = l :: split 45 rest.
Proof.
  induction 1 as [|c l Hc _ IH]; [reflexivity|].
  cbn [split app]. apply N.eqb_neq in Hc. by rewrite Hc, IH.
Qed.

Lemma pad2_nosep n : 0 <= n <= 99 -> Forall (fun c => c <> 45%N) (pad2 n).
Proof.
  intros Hn. apply List.Forall_forall. intros c Hc.
  apply (pad2_isDigit n c Hn), isDigit_spec in Hc. lia.
Qed.

Lemma Number_of_digits_pad2 n : 0 <= n <= 99 -> Number_of_digits (pad2 n) = n.
Proof.
  intros Hn. rewrite pad2_digits by done.
  unfold Number_of_digits. cbn [fold_left].
  assert (0 <= n / 10 <= 9) by (Z.to_euclidean_division_equations; lia).
  assert (0 <= n mod 10 <= 9) by (Z.to_euclidean_division_equations; lia).
  rewrite !Z2N.id by lia. Z.to_euclidean_division_equations; lia.
Qed.

Lemma Number_of_digits_app a b :
  Number_of_digits (a ++ b) =
  fold_left (fun acc c => 10 * acc + (Z.of_N c - 48)) b (Number_of_digits a).
Proof. unfold Number_of_digits. by rewrite fold_left_app. Qed.

(** The keys [buildDateKeyFromParts] writes have the shape [YYYY-MM-DD],
    and reading one back gives the numbers written. *)
Lemma buildDateKeyFromParts_parse y m d :
  0 <= y <= 9999 -> 0 <= m <= 99 -> 0 <= d <= 99 ->
  isDateKeyLike (buildDateKeyFromParts y m d) = true /\
  parseDateKeyParts (buildDateKeyFromParts y m d) = Some (y, m, d).
Proof.
  intros Hy Hm Hd. rewrite buildDateKeyFromParts_split by done.
  assert (Hq : 0 <= y / 100 <= 99) by (Z.to_euclidean_division_equations; lia).
  assert (Hr : 0 <= y mod 100 <= 99) by (Z.to_euclidean_division_equations; lia).
  split.
  - pose proof (pad2_isDigit (y / 100)) as H1. pose proof (pad2_isDigit (y mod 100)) as H2.
    pose proof (pad2_isDigit m) as H3. pose proof (pad2_isDigit d) as H4.
    rewrite !pad2_digits in * by done.
    change (u "-") with [45%N]. cbn [app isDateKeyLike].
    rewrite !H1, !H2, !H3, !H4 by (done || (cbn [In]; tauto)). reflexivity.
  - unfold parseDateKeyParts. change (u "-") with [45%N].
    rewrite (app_assoc (pad2 (y / 100))).
    change ([45%N] ++ pad2 m ++ [45%N] ++ pad2 d)
      with (45%N :: (pad2 m ++ 45%N :: pad2 d)).
    rewrite split_app_sep by (apply Forall_app; split; by apply pad2_nosep).
    rewrite split_app_sep by by apply pad2_nosep.
    rewrite split_nosep by by apply pad2_nosep.
    cbn [List.map]. rewrite !Number_of_digits_pad2 by done.
    rewrite Number_of_digits_app, Number_of_digits_pad2 by done.
    rewrite (pad2_digits (y mod 100)) by done. cbn [fold_left].
    assert (0 <= y mod 100 / 10 <= 9) by (Z.to_euclidean_division_equations; lia).
    assert (0 <= (y mod 100) mod 10 <= 9) by (Z.to_euclidean_division_equations; lia).
    rewrite !Z2N.id by lia.
    do 3 f_equal. Z.to_euclidean_division_equations; lia.
Qed.

Lemma isDateKeyLike_build key :
  isDateKeyLike key = true ->
  exists y m d, 0 <= y <= 9999 /\ 0 <= m <= 99 /\ 0 <= d <= 99 /\
                key = buildDateKeyFromParts y m d.
Proof.
  intros H. unfold isDateKeyLike in H.
  destruct key as [|y1 [|y2 [|y3 [|y4 [|h1 [|m1 [|m2 [|h2 [|d1 [|d2 [|]]]]]]]]]]]; try done.
  rewrite !andb_true_iff in H.
  destruct H as (((((((((Hy1 & Hy2) & Hy3) & Hy4) & Hh1) & Hm1) & Hm2) & Hh2) & Hd1) & Hd2).
  apply N.eqb_eq in Hh1, Hh2. subst h1 h2.
  pose proof Hy1 as Hy1'%isDigit_spec. pose proof Hy2 as Hy2'%isDigit_spec.
  pose proof Hy3 as Hy3'%isDigit_spec. pose proof Hy4 as Hy4'%isDigit_spec.
  pose proof Hm1 as Hm1'%isDigit_spec. pose proof Hm2 as Hm2'%isDigit_spec.
  pose proof Hd1 as Hd1'%isDigit_spec. pose proof Hd2 as Hd2'%isDigit_spec.
  set (hi := 10 * (Z.of_N y1 - 48) + (Z.of_N y2 - 48)).
  set (lo := 10 * (Z.of_N y3 - 48) + (Z.of_N y4 - 48)).
  exists (100 * hi + lo), (10 * (Z.of_N m1 - 48) + (Z.of_N m2 - 48)),
         (10 * (Z.of_N d1 - 48) + (Z.of_N d2 - 48)).
  split; [subst hi lo; lia|]. split; [lia|]. split; [lia|].
  rewrite buildDateKeyFromParts_split by (subst hi lo; lia).
  replace ((100 * hi + lo) / 100) with hi
    by (subst hi lo; Z.to_euclidean_division_equations; lia).
  replace ((100 * hi + lo) mod 100) with lo
    by (subst hi lo; Z.to_euclidean_division_equations; lia).
  subst hi lo. by rewrite !pad2_of_digits.
Qed.

Lemma succ_day_year d : getFullYear d <= getFullYear (succ_day d).
Proof.
  unfold succ_day.
  destruct (getDate d <? _); [cbn; lia|].
  destruct (getMonth d <? 11); cbn; lia.
Qed.

Lemma iter_succ_day_year n d : getFullYear d <= getFullYear (Nat.iter n succ_day d).
Proof.
  induction n as [|n IH]; cbn [Nat.iter nat_rect]; [lia|].
  pose proof (succ_day_year (Nat.iter n succ_day d)). 
  change (nat_rect _ d (fun _ => succ_day) n) with (Nat.iter n succ_day d). lia.
Qed.

End ValidKeys.

Section ValidKeyTheorems.

Lemma isValidDateKey_build y m d :
  100 <= y <= 9999 -> 1 <= m <= 12 -> 1 <= d <= daysInMonth y (m - 1) ->
  isValidDateKey (buildDateKeyFromParts y m d) = true.
Proof.
  intros Hy Hm Hd. pose proof (daysInMonth_bounds y (m - 1)).
  unfold isValidDateKey.
  destruct (buildDateKeyFromParts_parse y m d) as [-> ->]; try lia.
  cbn [negb]. cbv zeta. rewrite newDate_exact by lia.
  cbn [getFullYear getMonth getDate]. by rewrite !Z.eqb_refl.
Qed.

Lemma formatDateKey_build D :
  year4 D ->
  formatDateKey D = buildDateKeyFromParts (getFullYear D) (getMonth D + 1) (getDate D).
Proof.
  intros Hy. unfold year4 in Hy. destruct D as [y m d]; cbn [getFullYear getMonth getDate] in *.
  rewrite build_format by lia. by replace (m + 1 - 1) with m by lia.
Qed.

Lemma shiftDateKeyByDays_formatDateKey (D : Date) (k : Z) :
  wf_date D -> year4 D ->
  shiftDateKeyByDays (formatDateKey D) k = formatDateKey (add_days k D).
Proof.
  intros HD Hy. pose proof HD as [Hm Hd]. pose proof Hy as Hy'. unfold year4 in Hy'.
  pose proof (daysInMonth_bounds (getFullYear D) (getMonth D)).
  unfold shiftDateKeyByDays. rewrite formatDateKey_build by done.
  rewrite isValidDateKey_build
    by (rewrite ?Z.add_simpl_r; lia).
  destruct (buildDateKeyFromParts_parse (getFullYear D) (getMonth D + 1) (getDate D))
    as [_ ->]; try lia.
  cbn [negb]. cbv zeta. rewrite Z.add_simpl_r.
  rewrite newDate_wf by (done || lia).
  by rewrite setDate_add_days.
Qed.

(** X1.  A key is valid exactly when it is the zero-padded [YYYY-MM-DD]
    writing of a real day of the calendar in the years 100 to 9999: the
    shape alone is not enough, and the years 0 to 99 are refused because
    [new Date(y, m, d)] reads them as 1900 + y. *)
Theorem isValidDateKey_iff (key : jsstring) :
  isValidDateKey key = true <->
  exists y m d, 100 <= y <= 9999 /\ 1 <= m <= 12 /\
                1 <= d <= daysInMonth y (m - 1) /\
                key = buildDateKeyFromParts y m d.
Proof.
  split.
  - unfold isValidDateKey. destruct (isDateKeyLike key) eqn:Hlike; [|done].
    cbn [negb]. apply isDateKeyLike_build in Hlike as (y & m & d & Hy & Hm & Hd & ->).
    destruct (buildDateKeyFromParts_parse y m d Hy Hm Hd) as [_ ->].
    cbv zeta. rewrite !andb_true_iff, !Z.eqb_eq. intros [[Ey Em] Ed].
    pose proof (newDate_is_wf y (m - 1) d) as [Hwm Hwd].
    rewrite Ey, Em, Ed in *.
    exists y, m, d. split; [|split; [lia|split; [lia|done]]].
    destruct (Z_lt_ge_dec y 100) as [Hlt|]; [exfalso|lia].
    unfold newDate, MakeDay, add_days in Ey.
    replace ((0 <=? y) && (y <=? 99)) with true in Ey by (symmetry; apply andb_true_iff; lia).
    destruct (Z.leb_spec 0 (d - 1)); [|lia].
    pose proof (iter_succ_day_year (Z.to_nat (d - 1))
                  (mkD (1900 + y + (m - 1) / 12) ((m - 1) mod 12) 1)) as Hge.
    rewrite Ey in Hge. cbn [getFullYear] in Hge.
    rewrite Z.div_small in Hge by lia. lia.
  - intros (y & m & d & Hy & Hm & Hd & ->). by apply isValidDateKey_build.
Qed.

(** X2.  For a day of a four-digit year, [formatDateKey] writes a valid
    key, and splitting the key at the hyphens gives back the year, the
    month (counted from 1) and the day it was written from. *)
Theorem formatDateKey_round_trip (D : Date) :
  wf_date D -> year4 D ->
  isValidDateKey (formatDateKey D) = true /\
  parseDateKeyParts (formatDateKey D) =
    Some (getFullYear D, getMonth D + 1, getDate D).
Proof.
  intros [Hm Hd] Hy. rewrite formatDateKey_build by done. unfold year4 in Hy.
  pose proof (daysInMonth_bounds (getFullYear D) (getMonth D)).
  split.
  - apply isValidDateKey_build; rewrite ?Z.add_simpl_r; lia.
  - apply buildDateKeyFromParts_parse; lia.
Qed.

(** X3.  [shiftDateKeyByDays] steps day by day through the calendar, in
    either direction and across the ends of months and years, and what it
    returns is again a valid key as long as the year keeps four digits.
    The shift is at most 90 000 000 days: from a day of a four-digit year
    that stays inside the range of [Date] (100 000 000 days on either side
    of 1 January 1970), where [setDate] gives a day and not an Invalid
    Date. *)
Theorem shiftDateKeyByDays_steps (D : Date) (k : Z) :
  wf_date D -> year4 D -> -90000000 <= k <= 90000000 ->
  shiftDateKeyByDays (formatDateKey D) k = formatDateKey (add_days k D) /\
  (year4 (add_days k D) -> isValidDateKey (shiftDateKeyByDays (formatDateKey D) k) = true).
Proof.
  intros HD Hy _. rewrite shiftDateKeyByDays_formatDateKey by done.
  split; [done|]. intros Hy'.
  pose proof (add_days_wf k D HD) as [Hm Hd].
  rewrite formatDateKey_build by done. unfold year4 in Hy'.
  apply isValidDateKey_build; rewrite ?Z.add_simpl_r; lia.
Qed.

(** X4.  Two shifts in a row are one shift by the sum of the two, so a
    shift is undone by the opposite shift. *)
Theorem shiftDateKeyByDays_compose (D : Date) (a b : Z) :
  wf_date D -> year4 D -> year4 (add_days a D) ->
  shiftDateKeyByDays (shiftDateKeyByDays (formatDateKey D) a) b =
    shiftDateKeyByDays (formatDateKey D) (a + b) /\
  shiftDateKeyByDays (shiftDateKeyByDays (formatDateKey D) a) (- a) = formatDateKey D.
Proof.
  intros HD Hy Hy'.
  rewrite !(shiftDateKeyByDays_formatDateKey D) by done.
  rewrite !shiftDateKeyByDays_formatDateKey by (done || by apply add_days_wf).
  rewrite !add_days_add by done.
  split; [f_equal; f_equal; lia|].
  replace (- a + a) with 0 by lia. reflexivity.
Qed.

(** X5.  Zero-padded keys sort as text the way their days sort in time:
    [compareDateKey] on two keys is the comparison of (year, month, day). *)
Theorem compareDateKey_chronological (y m d y' m' d' : Z) :
  0 <= y <= 9999 -> 0 <= m <= 99 -> 0 <= d <= 99 ->
  0 <= y' <= 9999 -> 0 <= m' <= 99 -> 0 <= d' <= 99 ->
  compareDateKey (buildDateKeyFromParts y m d) (buildDateKeyFromParts y' m' d') =
    date_compare (mkD y m d) (mkD y' m' d').
Proof.
  intros Hy Hm Hd Hy' Hm' Hd'.
  rewrite !buildDateKeyFromParts_split by done.
  unfold date_compare; cbn [getFullYear getMonth getDate].
  assert (Hq : 0 <= y / 100 <= 99) by (Z.to_euclidean_division_equations; lia).
  assert (Hq' : 0 <= y' / 100 <= 99) by (Z.to_euclidean_division_equations; lia).
  pose proof (Z.mod_pos_bound y 100 ltac:(lia)) as Hr.
  pose proof (Z.mod_pos_bound y' 100 ltac:(lia)) as Hr'.
  rewrite compareDateKey_app by (rewrite !pad2_length; lia).
  rewrite compareDateKey_app by (rewrite !pad2_length; lia).
  rewrite (compareDateKey_app (u "-") (u "-")) by reflexivity.
  rewrite compareDateKey_app by (rewrite !pad2_length; lia).
  rewrite (compareDateKey_app (u "-") (u "-")) by reflexivity.
  rewrite !pad2_compare by lia.
  change (compareDateKey (u "-") (u "-")) with Eq.
  pose proof (Z.div_mod y 100 ltac:(lia)) as Ea.
  pose proof (Z.div_mod y' 100 ltac:(lia)) as Eb.
  destruct (Z.compare_spec (y / 100) (y' / 100)) as [E1|E1|E1];
    destruct (Z.compare_spec (y mod 100) (y' mod 100)) as [E2|E2|E2];
    destruct (Z.compare_spec y y') as [E3|E3|E3]; try lia; reflexivity.
Qed.

Lemma formatDateKey_round_trip_witness :
  isValidDateKey (formatDateKey (mkD 2024 1 29)) = true /\
  parseDateKeyParts (formatDateKey (mkD 2024 1 29)) = Some (2024, 2, 29).
Proof.
  apply (formatDateKey_round_trip (mkD 2024 1 29)).
  - unfold wf_date. vm_compute. repeat split; discriminate.
  - unfold year4. cbn. lia.
Defined.

Lemma shiftDateKeyByDays_steps_witness :
  shiftDateKeyByDays (formatDateKey (mkD 2024 11 31)) 1 = u "2025-01-01".
Proof.
  apply (proj1 (shiftDateKeyByDays_steps (mkD 2024 11 31) 1
                  ltac:(unfold wf_date; vm_compute; repeat split; discriminate)
                  ltac:(unfold year4; cbn; lia) ltac:(lia))).
Defined.

Lemma shiftDateKeyByDays_compose_witness :
  shiftDateKeyByDays (shiftDateKeyByDays (formatDateKey (mkD 2024 1 28)) 2) (- 2)
  = formatDateKey (mkD 2024 1 28).
Proof.
  apply (proj2 (shiftDateKeyByDays_compose (mkD 2024 1 28) 2 0
                  ltac:(unfold wf_date; vm_compute; repeat split; discriminate)
                  ltac:(unfold year4; cbn; lia)
                  ltac:(unfold year4; vm_compute; repeat split; discriminate))).
Defined.

Lemma compareDateKey_chronological_witness :
  compareDateKey (buildDateKeyFromParts 999 12 31) (buildDateKeyFromParts 1000 1 1)
  = date_compare (mkD 999 12 31) (mkD 1000 1 1).
Proof.
  apply compareDateKey_chronological; lia.
Defined.

End ValidKeyTheorems.

(* ===================================================================== *)
(** * Further properties of the chat component *)

Section JsonExtraction.
Import Chatbot.

Lemma indexOf_Some c s i :
  indexOf c s = Some i -> s !! i = Some c /\ c ∉ take i s.
Proof.
  revert i. induction s as [|d s IH]; intros i; cbn [indexOf]; [done|].
  destruct (N.eqb_spec d c) as [->|Hne].
  - intros [= <-]. split; [done|]. cbn. apply not_elem_of_nil.
  - destruct (indexOf c s) as [k|]; [|done]. cbn. intros [= <-].
    destruct (IH k eq_refl) as [H1 H2]. split; [done|].
    cbn. rewrite not_elem_of_cons. split; [congruence|done].
Qed.

Lemma indexOf_app c pre post :
  c ∉ pre -> indexOf c (pre ++ c :: post) = Some (length pre).
Proof.
  induction pre as [|d pre IH]; intros Hc; cbn [indexOf app length].
  - by rewrite N.eqb_refl.
  - apply not_elem_of_cons in Hc as [Hne Hc].
    destruct (N.eqb_spec d c); [congruence|]. by rewrite IH.
Qed.

Lemma lastIndexOf_None c s : lastIndexOf c s = None -> c ∉ s.
Proof.
  induction s as [|d s IH]; cbn [lastIndexOf]; [intros; apply not_elem_of_nil|].
  destruct (lastIndexOf c s); [done|].
  destruct (N.eqb_spec d c); [done|]. intros _.
  apply not_elem_of_cons. split; [congruence|auto].
Qed.

Lemma lastIndexOf_notin c s : c ∉ s -> lastIndexOf c s = None.
Proof.
  induction s as [|d s IH]; intros Hc; cbn [lastIndexOf]; [done|].
  apply not_elem_of_cons in Hc as [Hne Hc]. rewrite IH by done.
  destruct (N.eqb_spec d c); congruence.
Qed.

Lemma lastIndexOf_Some c s j :
  lastIndexOf c s = Some j -> s !! j = Some c /\ c ∉ drop (S j) s.
Proof.
  revert j. induction s as [|d s IH]; intros j; cbn [lastIndexOf]; [done|].
  destruct (lastIndexOf c s) as [k|] eqn:E.
  - intros [= <-]. destruct (IH k eq_refl) as [H1 H2]. by split.
  - destruct (N.eqb_spec d c) as [->|]; [|done]. intros [= <-].
    split; [done|]. cbn. rewrite drop_0. by apply lastIndexOf_None.
Qed.

Lemma lastIndexOf_app c pre post :
  c ∉ post -> lastIndexOf c (pre ++ c :: post) = Some (length pre).
Proof.
  intros Hc. induction pre as [|d pre IH]; cbn [lastIndexOf app length].
  - by rewrite lastIndexOf_notin, N.eqb_refl.
  - by rewrite IH.
Qed.

(** X6.  [extractFirstJsonObject] returns the part of the text from its
    first opening brace to its last closing brace, both included, and
    [null] exactly when the text has no closing brace after its first
    opening brace. *)
Theorem extractFirstJsonObject_spec (text s : jsstring) :
  extractFirstJsonObject text = Some s <->
  exists pre mid post,
    text = pre ++ [123%N] ++ mid ++ [125%N] ++ post /\
    (123%N ∉ pre) /\ (125%N ∉ post) /\ s = [123%N] ++ mid ++ [125%N].
Proof.
  unfold extractFirstJsonObject. split.
  - destruct (indexOf 123 text) as [i|] eqn:Ei; [|done].
    destruct (lastIndexOf 125 text) as [j|] eqn:Ej; [|done].
    destruct (Nat.leb_spec j i) as [|Hij]; [done|]. intros [= <-].
    apply indexOf_Some in Ei as [Hi Hpre]. apply lastIndexOf_Some in Ej as [Hj Hpost].
    exists (take i text), (take (j - i - 1) (drop (S i) text)), (drop (S j) text).
    assert (Hmid : take (j - i) (drop (S i) text)
                   = take (j - i - 1) (drop (S i) text) ++ [125%N]).
    { replace (j - i)%nat with (S (j - i - 1)) at 1 by lia.
      apply take_S_r. rewrite lookup_drop.
      by replace (S i + (j - i - 1))%nat with j by lia. }
    assert (Hdrop : drop i text = 123%N :: drop (S i) text) by by apply drop_S.
    assert (Hrest : drop (S i) text
                    = take (j - i - 1) (drop (S i) text) ++ [125%N] ++ drop (S j) text).
    { rewrite <- (take_drop (j - i) (drop (S i) text)) at 1.
      rewrite Hmid, drop_drop, <- app_assoc. do 3 f_equal. lia. }
    split; [|split; [done|split; [done|]]].
    + rewrite <- (take_drop i text) at 1. rewrite Hdrop. f_equal. cbn. f_equal.
      exact Hrest.
    + unfold slice. change firstn with (@take N). change skipn with (@drop N).
      rewrite Hdrop. replace (j + 1 - i)%nat with (S (j - i)) by lia.
      cbn. by rewrite Hmid.
  - intros (pre & mid & post & -> & Hpre & Hpost & ->). cbn [app].
    rewrite indexOf_app by done.
    replace (pre ++ 123%N :: mid ++ 125%N :: post)
      with ((pre ++ 123%N :: mid) ++ 125%N :: post) by (by rewrite <- app_assoc).
    rewrite lastIndexOf_app by done.
    rewrite length_app. cbn [length].
    destruct (Nat.leb_spec (length pre + S (length mid)) (length pre)); [lia|].
    f_equal. unfold slice. change firstn with (@take N). change skipn with (@drop N).
    rewrite <- app_assoc. rewrite drop_app_length.
    replace (length pre + S (length mid) + 1 - length pre)%nat
      with (length (123%N :: mid ++ [125%N])) by (cbn; rewrite length_app; cbn; lia).
    replace ((123%N :: mid) ++ 125%N :: post) with ((123%N :: mid ++ [125%N]) ++ post)
      by (cbn; by rewrite <- app_assoc).
    by rewrite take_app_length.
Qed.

End JsonExtraction.

Section Keywords.
Import Chatbot.

Lemma startsWith_app s a b : startsWith s (a ++ b) = true -> startsWith s a = true.
Proof.
  revert s. induction a as [|c a IH]; intros s; [by destruct s|].
  destruct s as [|d s]; cbn; [done|].
  rewrite !andb_true_iff. intros [-> H]. eauto.
Qed.

Lemma includes_app s a b : includes s (a ++ b) = true -> includes s a = true.
Proof.
  induction s as [|d s IH]; cbn [includes].
  - rewrite !orb_false_r. apply startsWith_app.
  - rewrite !orb_true_iff. intros [H|H]; [left; by eapply startsWith_app|right; auto].
Qed.

(** X7.  The two keyword lists and the two rank tables agree: a title
    gets a rank below 3 exactly when it is a pre-work (post-work) title,
    so every item that is re-spread has a place in the order. *)
Theorem workRank_keywords (title : jsstring) :
  (preWorkRank title <? 3) = isPreWorkTitle title /\
  (postWorkRank title <? 3) = isPostWorkTitle title.
Proof.
  split.
  - unfold preWorkRank, isPreWorkTitle. cbn [existsb].
    destruct (includes title (u "품의")), (includes title (u "상신")),
      (includes title (u "결재")), (includes title (u "견적")),
      (includes title (u "업체")), (includes title (u "선정")),
      (includes title (u "입찰")), (includes title (u "계약")),
      (includes title (u "원인행위")), (includes title (u "발주")); reflexivity.
  - unfold postWorkRank, isPostWorkTitle. cbn [existsb].
    pose proof (includes_app title (u "대금") (u "지급")) as H1.
    pose proof (includes_app title (u "지출") (u "결의")) as H2.
    change (u "대금" ++ u "지급") with (u "대금지급") in H1.
    change (u "지출" ++ u "결의") with (u "지출결의") in H2.
    destruct (includes title (u "검수")), (includes title (u "준공")),
      (includes title (u "정산")), (includes title (u "지출")),
      (includes title (u "세금계산서")), (includes title (u "대금")),
      (includes title (u "대금지급")), (includes title (u "지출결의"));
      try reflexivity; try (by specialize (H1 eq_refl)); by specialize (H2 eq_refl).
Qed.

End Keywords.

Section Pipeline.
Import Chatbot.

Lemma sort_insert_perm {A} (le : A -> A -> bool) x l : sort_insert le x l ≡ₚ x :: l.
Proof.
  induction l as [|y l IH]; cbn; [done|].
  destruct (le x y); [done|]. rewrite IH. apply Permutation_swap.
Qed.

Lemma stable_sort_perm {A} (le : A -> A -> bool) l : stable_sort le l ≡ₚ l.
Proof.
  induction l as [|x l IH]; cbn; [done|]. by rewrite sort_insert_perm, IH.
Qed.

Lemma sort_insert_sorted {A} (le : A -> A -> bool) x l :
  (forall a b, le a b = false -> le b a = true) ->
  (forall a b c, le a b = true -> le b c = true -> le a c = true) ->
  StronglySorted (fun a b => le a b = true) l ->
  StronglySorted (fun a b => le a b = true) (sort_insert le x l).
Proof.
  intros Htot Htrans. induction 1 as [|y l Hs IH Hy]; cbn.
  - constructor; constructor.
  - destruct (le x y) eqn:E.
    + constructor; [by constructor|]. constructor; [done|].
      eapply Forall_impl; [exact Hy|]. cbv beta. eauto.
    + constructor; [done|]. rewrite sort_insert_perm. constructor; auto.
Qed.

Lemma stable_sort_sorted {A} (le : A -> A -> bool) l :
  (forall a b, le a b = false -> le b a = true) ->
  (forall a b c, le a b = true -> le b c = true -> le a c = true) ->
  StronglySorted (fun a b => le a b = true) (stable_sort le l).
Proof.
  intros Htot Htrans. induction l as [|x l IH]; cbn; [constructor|].
  by apply sort_insert_sorted.
Qed.

Lemma respread_Forall (P : ScheduleProposalItem -> Prop) desired order indices l :
  (forall item k, P (withDate item (desired k))) ->
  Forall P l -> Forall P (respread desired order indices l).
Proof.
  intros Hd. revert order l. induction indices as [|i indices IH]; intros order l Hl; cbn.
  - done.
  - apply IH. destruct (l !! i); [|done]. by apply Forall_insert.
Qed.

Lemma respread_titleCategory desired order indices l :
  List.map titleCategory (respread desired order indices l) = List.map titleCategory l.
Proof.
  revert order l. induction indices as [|i indices IH]; intros order l; cbn; [done|].
  rewrite IH. destruct (l !! i) as [item|] eqn:E; [|done].
  change (List.map titleCategory) with (fmap (M:=list) titleCategory).
  rewrite list_fmap_insert. apply list_insert_id.
  by rewrite list_lookup_fmap, E.
Qed.

Lemma arrangeAroundWindow_from_today today s e l :
  Forall (fun item => key_le today (item_date item)) (arrangeAroundWindow today s e l).
Proof.
  unfold arrangeAroundWindow.
  assert (H0 : Forall (fun item => key_le today (item_date item))
                 (List.map (clampToWindow today s e) l)).
  { apply List.Forall_forall. intros x (y & <- & _)%in_map_iff.
    unfold clampToWindow. cbn [withDate item_date]. apply clampMinDateKey_min. }
  repeat match goal with
         | |- context [if ?b then _ else _] => destruct b
         end;
    repeat (apply respread_Forall; [intros; cbn [withDate item_date]; apply clampMinDateKey_min|]);
    exact H0.
Qed.

Lemma arrangeAroundWindow_titleCategory today s e l :
  List.map titleCategory (arrangeAroundWindow today s e l) = List.map titleCategory l.
Proof.
  unfold arrangeAroundWindow.
  assert (H0 : List.map titleCategory (List.map (clampToWindow today s e) l)
               = List.map titleCategory l).
  { rewrite List.map_map. apply List.map_ext. intros x. reflexivity. }
  repeat match goal with
         | |- context [if ?b then _ else _] => destruct b
         end; rewrite ?respread_titleCategory; exact H0.
Qed.

(** X8.  Whatever the model answered, the proposal lists its items in
    ascending order of their dates, and no item is dated before today. *)
Theorem proposedItems_sorted_from_today (text : jsstring) (now : Date) (parsed : json) :
  StronglySorted date_le (proposedItems text now parsed) /\
  Forall (fun item => key_le (formatDateKey now) (item_date item))
    (proposedItems text now parsed).
Proof.
  unfold proposedItems. cbv zeta. split.
  - match goal with
    | |- StronglySorted _ (stable_sort ?le ?l) =>
      assert (H : StronglySorted (fun a b => le a b = true) (stable_sort le l))
    end.
    { apply stable_sort_sorted.
      - intros a b Hab. apply negb_false_iff, bool_decide_eq_true in Hab.
        apply negb_true_iff, bool_decide_eq_false.
        rewrite compareDateKey_antisym, Hab. done.
      - intros a b c Hab Hbc.
        apply negb_true_iff, bool_decide_eq_false in Hab, Hbc.
        apply negb_true_iff, bool_decide_eq_false.
        by eapply compareDateKey_trans_le. }
    induction H as [|x l Hs IH Hx]; constructor; [done|].
    eapply Forall_impl; [exact Hx|]. cbv beta. intros b Hab.
    apply negb_true_iff, bool_decide_eq_false in Hab. exact Hab.
  - rewrite stable_sort_perm.
    assert (H0 : Forall (fun item => key_le (formatDateKey now) (item_date item))
                   (List.map
                      (fun item => withDate item
                                     (clampMinDateKey (item_date item) (formatDateKey now)))
                      (validatedItems (proposalProject text parsed) parsed))).
    { apply List.Forall_forall. intros x (y & <- & _)%in_map_iff.
      cbn [withDate item_date]. apply clampMinDateKey_min. }
    destruct (inferExecutionWindowFromText text now) as [w|]; [|exact H0].
    destruct (_ && _); [apply arrangeAroundWindow_from_today|exact H0].
Qed.

(** X9.  The pipeline after the validation only re-dates and re-orders:
    the titles and categories of the proposal are those of the validated
    items, each as often as there. *)
Theorem proposedItems_keeps_titles (text : jsstring) (now : Date) (parsed : json) :
  List.map titleCategory (proposedItems text now parsed) ≡ₚ
  List.map titleCategory (validatedItems (proposalProject text parsed) parsed).
Proof.
  unfold proposedItems. cbv zeta.
  rewrite (stable_sort_perm _ _).
  assert (H0 : List.map titleCategory
                 (List.map
                    (fun item => withDate item
                                   (clampMinDateKey (item_date item) (formatDateKey now)))
                    (validatedItems (proposalProject text parsed) parsed))
               = List.map titleCategory (validatedItems (proposalProject text parsed) parsed)).
  { rewrite List.map_map. apply List.map_ext. intros x. reflexivity. }
  destruct (inferExecutionWindowFromText text now) as [w|]; [|by rewrite H0].
  destruct (_ && _); [|by rewrite H0].
  by rewrite arrangeAroundWindow_titleCategory, H0.
Qed.

End Pipeline.

Section WindowDays.

Lemma date_compare_dayOrd a b :
  md_range a -> md_range b -> dayOrd a <= dayOrd b -> date_compare a b <> Gt.
Proof.
  intros [Hma Hda] [Hmb Hdb] H. apply date_compare_le. unfold dayOrd in H. lia.
Qed.

Lemma succ_day_dayOrd d : wf_date d -> dayOrd d < dayOrd (succ_day d).
Proof.
  intros [Hm Hd]. pose proof (daysInMonth_bounds (getFullYear d) (getMonth d)).
  unfold succ_day, dayOrd.
  destruct (Z.ltb_spec (getDate d) (daysInMonth (getFullYear d) (getMonth d)));
    [cbn [getFullYear getMonth getDate]; lia|].
  destruct (Z.ltb_spec (getMonth d) 11); cbn [getFullYear getMonth getDate]; lia.
Qed.

Lemma pred_day_dayOrd d : wf_date d -> dayOrd (pred_day d) < dayOrd d.
Proof.
  intros [Hm Hd]. unfold pred_day, dayOrd.
  destruct (Z.ltb_spec 1 (getDate d)); [cbn [getFullYear getMonth getDate]; lia|].
  destruct (Z.ltb_spec 0 (getMonth d)); cbn [getFullYear getMonth getDate].
  - pose proof (daysInMonth_bounds (getFullYear d) (getMonth d - 1)). lia.
  - lia.
Qed.

Lemma succ_day_year_le d : getFullYear (succ_day d) <= getFullYear d + 1.
Proof.
  unfold succ_day.
  destruct (getDate d <? _); [cbn; lia|].
  destruct (getMonth d <? 11); cbn; lia.
Qed.

Lemma pred_day_year d : getFullYear d - 1 <= getFullYear (pred_day d) <= getFullYear d.
Proof.
  unfold pred_day.
  destruct (1 <? getDate d); [cbn; lia|].
  destruct (0 <? getMonth d); cbn; lia.
Qed.

Lemma iter_succ_day d (n : nat) :
  wf_date d ->
  dayOrd d <= dayOrd (Nat.iter n succ_day d) /\
  getFullYear d <= getFullYear (Nat.iter n succ_day d) <= getFullYear d + Z.of_nat n.
Proof.
  intros Hd. induction n as [|n IH]; cbn [Nat.iter nat_rect]; [lia|].
  change (nat_rect _ d (fun _ => succ_day) n) with (Nat.iter n succ_day d).
  pose proof (succ_day_dayOrd (Nat.iter n succ_day d)
                (iter_wf succ_day n d succ_day_wf Hd)).
  pose proof (succ_day_year_le (Nat.iter n succ_day d)).
  pose proof (succ_day_year (Nat.iter n succ_day d)). lia.
Qed.

Lemma iter_pred_day d (n : nat) :
  wf_date d ->
  dayOrd (Nat.iter n pred_day d) <= dayOrd d /\
  getFullYear d - Z.of_nat n <= getFullYear (Nat.iter n pred_day d) <= getFullYear d.
Proof.
  intros Hd. induction n as [|n IH]; cbn [Nat.iter nat_rect]; [lia|].
  change (nat_rect _ d (fun _ => pred_day) n) with (Nat.iter n pred_day d).
  pose proof (pred_day_dayOrd (Nat.iter n pred_day d)
                (iter_wf pred_day n d pred_day_wf Hd)).
  pose proof (pred_day_year (Nat.iter n pred_day d)). lia.
Qed.

(** Later days have later keys, earlier days earlier ones, as long as the
    years keep four digits. *)
Lemma add_days_later D k :
  wf_date D -> 0 <= k -> 1000 <= getFullYear D -> getFullYear D + k <= 9999 ->
  key_le (formatDateKey D) (formatDateKey (add_days k D)) /\
  getFullYear D <= getFullYear (add_days k D) <= getFullYear D + k.
Proof.
  intros HD Hk Hlo Hhi. pose proof (add_days_wf k D HD) as Hw.
  unfold add_days in *. destruct (Z.leb_spec 0 k); [|lia].
  destruct (iter_succ_day D (Z.to_nat k) HD) as [Ho Hy].
  split; [|lia].
  apply date_compare_formatDateKey_le; try (by apply wf_date_md_range);
    try (unfold year4; lia).
  apply date_compare_dayOrd; try by apply wf_date_md_range. done.
Qed.

Lemma add_days_earlier D k :
  wf_date D -> 0 <= k -> 1000 <= getFullYear D - k -> getFullYear D <= 9999 ->
  key_le (formatDateKey (add_days (- k) D)) (formatDateKey D) /\
  getFullYear D - k <= getFullYear (add_days (- k) D) <= getFullYear D.
Proof.
  intros HD Hk Hlo Hhi. pose proof (add_days_wf (- k) D HD) as Hw.
  destruct (Z.eq_dec k 0) as [->|Hk0].
  { change (add_days (- 0) D) with D. split; [apply key_le_refl|lia]. }
  unfold add_days in *. destruct (Z.leb_spec 0 (- k)); [lia|].
  destruct (iter_pred_day D (Z.to_nat (- - k)) HD) as [Ho Hy].
  split; [|lia].
  apply date_compare_formatDateKey_le; try (by apply wf_date_md_range);
    try (unfold year4; lia).
  apply date_compare_dayOrd; try by apply wf_date_md_range. done.
Qed.

End WindowDays.
Section WindowPipeline.
Import Chatbot.

Lemma dayKey_weaken lo hi lo' hi' k :
  lo' <= lo -> hi <= hi' -> dayKey lo hi k -> dayKey lo' hi' k.
Proof. intros ? ? (D & ? & ? & ?). exists D. split; [done|]. split; [lia|done]. Qed.

Lemma clampMinDateKey_dayKey lo hi a b :
  dayKey lo hi a -> dayKey lo hi b -> dayKey lo hi (clampMinDateKey a b).
Proof. intros. unfold clampMinDateKey. by destruct (compareDateKey a b). Qed.

Lemma shiftDateKeyByDays_later lo hi k n :
  dayKey lo hi k -> 0 <= n -> 1000 <= lo -> hi + n <= 9999 ->
  key_le k (shiftDateKeyByDays k n) /\ dayKey lo (hi + n) (shiftDateKeyByDays k n).
Proof.
  intros (D & HD & Hy & ->) Hn Hlo Hhi.
  rewrite shiftDateKeyByDays_formatDateKey by (done || unfold year4; lia).
  destruct (add_days_later D n HD Hn) as [Hle Hyr]; try lia.
  split; [done|]. exists (add_days n D). split; [by apply add_days_wf|]. split; [lia|done].
Qed.

Lemma shiftDateKeyByDays_earlier lo hi k n :
  dayKey lo hi k -> 0 <= n -> 1000 <= lo - n -> hi <= 9999 ->
  key_le (shiftDateKeyByDays k (- n)) k /\ dayKey (lo - n) hi (shiftDateKeyByDays k (- n)).
Proof.
  intros (D & HD & Hy & ->) Hn Hlo Hhi.
  rewrite shiftDateKeyByDays_formatDateKey by (done || unfold year4; lia).
  destruct (add_days_earlier D n HD Hn) as [Hle Hyr]; try lia.
  split; [done|]. exists (add_days (- n) D). split; [by apply add_days_wf|].
  split; [lia|done].
Qed.

Lemma titleAt_insert l idx item d j :
  l !! idx = Some item -> titleAt (<[idx := withDate item d]> l) j = titleAt l j.
Proof.
  intros Hi. unfold titleAt. destruct (decide (idx = j)) as [->|Hne].
  - rewrite list_lookup_insert_eq by (by eapply lookup_lt_Some). by rewrite Hi.
  - by rewrite list_lookup_insert_ne.
Qed.

Lemma titleAt_respread desired order indices l j :
  titleAt (respread desired order indices l) j = titleAt l j.
Proof.
  revert order l. induction indices as [|i indices IH]; intros order l; cbn; [done|].
  rewrite IH. destruct (l !! i) as [item|] eqn:E; [|done]. by apply titleAt_insert.
Qed.

(** A re-spread over indices whose titles satisfy [Q] keeps every bound
    that holds of an item with such a title at each of the new dates. *)
Lemma respread_inv (P : ScheduleProposalItem -> Prop) (Q : jsstring -> bool)
    desired (n order : nat) indices l :
  (forall idx, In idx indices -> Q (titleAt l idx) = true) ->
  (forall item k, Q (item_title item) = true -> (k < n)%nat ->
                  P (withDate item (desired k))) ->
  (order + length indices <= n)%nat ->
  Forall P l -> Forall P (respread desired order indices l).
Proof.
  intros HQ HP. revert order l HQ.
  induction indices as [|i indices IH]; intros order l HQ Hn Hl; cbn; [done|].
  cbn [length] in Hn. apply IH; [| lia |].
  - intros idx Hidx. destruct (l !! i) as [item|] eqn:E.
    + rewrite titleAt_insert by done. apply HQ. by right.
    + apply HQ. by right.
  - destruct (l !! i) as [item|] eqn:E; [|done].
    apply Forall_insert; [done|]. apply HP; [|lia].
    specialize (HQ i (or_introl eq_refl)). unfold titleAt in HQ. by rewrite E in HQ.
Qed.

Lemma rankedIndices_In p rank l idx :
  In idx (rankedIndices p rank l) -> p (titleAt l idx) = true.
Proof.
  unfold rankedIndices. intros H.
  apply list_elem_of_In in H. rewrite stable_sort_perm in H.
  by apply list_elem_of_In, filter_In in H as [_ H].
Qed.

Lemma rankedIndices_length p rank l :
  (length (rankedIndices p rank l) <= length l)%nat.
Proof.
  unfold rankedIndices. rewrite stable_sort_length.
  etransitivity; [apply List.filter_length_le|]. by rewrite length_seq.
Qed.

End WindowPipeline.
Section WindowClaim.
Import Chatbot.

(** The first pass around a window that does not start before today. *)
Lemma clampToWindow_aroundWindow T s e item :
  key_le T s -> key_le s e ->
  aroundWindow (clampMinDateKey (shiftDateKeyByDays s (-1)) T) s e
    (clampToWindow T s e item).
Proof.
  intros Hts Hse. unfold aroundWindow, clampToWindow.
  cbn [withDate item_date item_title].
  split; [|split].
  - intros -> _. apply clampMinDateKey_upper.
    + apply clampMaxDateKey_max.
    + apply clampMinDateKey_min.
  - intros -> ->.
    eapply key_le_trans; [|apply clampMinDateKey_self].
    eapply key_le_trans; [|apply clampMinDateKey_min].
    apply clampMinDateKey_self.
  - intros -> ->.
    set (c1 := match compareDateKey (item_date item) s with
               | Lt => s | _ => item_date item end).
    assert (H1 : key_le s c1).
    { subst c1. destruct (compareDateKey (item_date item) s) eqn:E;
        try apply key_le_refl; apply key_le_of_not_Lt; by rewrite E. }
    set (c2 := match compareDateKey c1 e with Gt => e | _ => c1 end).
    assert (H2 : key_le s c2 /\ key_le c2 e).
    { subst c2. destruct (compareDateKey c1 e) eqn:E.
      - split; [done|]. unfold key_le. by rewrite E.
      - split; [done|]. unfold key_le. by rewrite E.
      - split; [done|]. apply key_le_refl. }
    destruct H2 as [H2 H3]. split.
    + eapply key_le_trans; [exact H2|apply clampMinDateKey_self].
    + apply clampMinDateKey_upper; [done|]. by eapply key_le_trans.
Qed.

(** The bounds hold of the whole arrangement: the two re-spreads keep
    them for every title that has keywords of one kind only. *)
Lemma arrangeAroundWindow_bounds Y T s e l :
  1004 <= Y <= 9994 ->
  dayKey Y Y T -> dayKey Y (Y + 1) s -> dayKey Y (Y + 2) e ->
  key_le T s -> key_le s e ->
  (length l <= 4)%nat ->
  Forall (aroundWindow (clampMinDateKey (shiftDateKeyByDays s (-1)) T) s e)
    (arrangeAroundWindow T s e l).
Proof.
  intros HY HT Hs He Hts Hse Hlen. unfold arrangeAroundWindow.
  set (L := clampMinDateKey (shiftDateKeyByDays s (-1)) T).
  set (E := clampMinDateKey e T).
  set (l1 := List.map (clampToWindow T s e) l).
  set (preIdx := rankedIndices isPreWorkTitle preWorkRank l1).
  set (postIdx := rankedIndices isPostWorkTitle postWorkRank l1).
  assert (Hl1 : (length l1 <= 4)%nat) by (unfold l1; by rewrite length_map).
  assert (HL : dayKey (Y - 1) (Y + 1) L).
  { apply clampMinDateKey_dayKey.
    - apply (shiftDateKeyByDays_earlier Y (Y + 1) s 1); (done || lia).
    - eapply dayKey_weaken; [| |exact HT]; lia. }
  assert (HTL : key_le T L) by apply clampMinDateKey_min.
  assert (HE : dayKey Y (Y + 2) E).
  { apply clampMinDateKey_dayKey; [done|]. eapply dayKey_weaken; [| |exact HT]; lia. }
  assert (HeE : key_le e E) by apply clampMinDateKey_self.
  assert (H1 : Forall (aroundWindow L s e) l1).
  { apply List.Forall_forall. intros x (y & <- & _)%in_map_iff.
    by apply clampToWindow_aroundWindow. }
  set (l2 := if datesCollide l1 preIdx then respread _ 0 preIdx l1 else l1).
  assert (Ht2 : forall j, titleAt l2 j = titleAt l1 j).
  { intros j. unfold l2. destruct (datesCollide l1 preIdx); [|done].
    apply titleAt_respread. }
  assert (H2 : Forall (aroundWindow L s e) l2).
  { unfold l2. destruct (datesCollide l1 preIdx); [|done].
    apply (respread_inv _ isPreWorkTitle _ (length preIdx)); [| |lia|done].
    - intros idx Hidx. by apply rankedIndices_In in Hidx.
    - intros item k Hpre Hk. unfold aroundWindow. cbn [withDate item_date item_title].
      rewrite Hpre. split; [|split; intros; done].
      intros _ _. cbv zeta.
      pose proof (rankedIndices_length isPreWorkTitle preWorkRank l1) as Hn.
      fold preIdx in Hn.
      apply clampMinDateKey_upper; [|done].
      apply (shiftDateKeyByDays_earlier (Y - 1) (Y + 1) L); (done || lia). }
  destruct (datesCollide l2 postIdx); [|done].
  apply (respread_inv _ isPostWorkTitle _ (length postIdx)); [| |lia|done].
  - intros idx Hidx. rewrite Ht2. by apply rankedIndices_In in Hidx.
  - intros item k Hpost Hk. unfold aroundWindow. cbn [withDate item_date item_title].
    rewrite Hpost. split; [intros; done|]. split; [|intros; done].
    intros _ _.
    pose proof (rankedIndices_length isPostWorkTitle postWorkRank l1) as Hn.
    fold postIdx in Hn.
    eapply key_le_trans; [|apply clampMinDateKey_self].
    eapply key_le_trans; [exact HeE|].
    apply (shiftDateKeyByDays_later Y (Y + 2) E); (done || lia).
Qed.

Lemma formatDateKey_nonempty D : formatDateKey D <> [].
Proof.
  unfold formatDateKey. cbv zeta. intros H.
  apply app_eq_nil in H as [_ H]. discriminate H.
Qed.

Lemma key_le_antisym a b : key_le a b -> key_le b a -> a = b.
Proof.
  unfold key_le. rewrite (compareDateKey_antisym a b). intros H1 H2.
  apply compareDateKey_eq. destruct (compareDateKey a b); cbn in *; done.
Qed.

(** C2 (amended). When a window is inferred from the request, every item
    of the proposal whose title has pre-work keywords only is dated today
    or at most one day before the window start; every item whose title has
    post-work keywords only is dated on the window end or later; and
    every item whose title has neither is dated inside the window.  Here
    [S] is the day on which the window starts. *)
Theorem proposedItems_window_bounds text now parsed w :
  wf_date now -> 1004 <= getFullYear now <= 9994 ->
  inferExecutionWindowFromText text now = Some w ->
  exists S,
    wf_date S /\ start w = formatDateKey S /\
    forall item,
      In item (proposedItems text now parsed) ->
      (isPreWorkTitle (item_title item) = true ->
       isPostWorkTitle (item_title item) = false ->
       item_date item = formatDateKey now \/
       key_le (item_date item) (formatDateKey (pred_day S))) /\
      (isPreWorkTitle (item_title item) = false ->
       isPostWorkTitle (item_title item) = true ->
       key_le (end_ w) (item_date item)) /\
      (isPreWorkTitle (item_title item) = false ->
       isPostWorkTitle (item_title item) = false ->
       key_le (start w) (item_date item) /\ key_le (item_date item) (end_ w)).
Proof.
  intros Hwf Hy Hw.
  destruct (inferred_window_ordered text now w Hwf ltac:(lia) Hw) as [Hts Hse].
  destruct (inferExecutionWindowFromText_inv now text w Hwf ltac:(unfold year4; lia) Hw)
    as (sm & sd & em & ed & _ & [Hsm Hsd] & [Hem Hed] & Hns & Hne & Hs & He).
  cbv zeta in Hns, Hne, Hs, He.
  set (sy := inferred_start_year now sm sd) in *.
  set (ey := inferred_end_year now sm sd em ed) in *.
  assert (Hsy : getFullYear now <= sy <= getFullYear now + 1)
    by (unfold sy, inferred_start_year; destruct (md_before _ _ _ _); lia).
  assert (Hey : sy <= ey <= sy + 1)
    by (unfold ey, inferred_end_year; fold sy; destruct (md_before _ _ _ _); lia).
  rewrite build_format in Hs, He by lia.
  assert (HwS : wf_date (mkD sy (sm - 1) sd)) by (rewrite <- Hns; apply newDate_is_wf).
  assert (HwE : wf_date (mkD ey (em - 1) ed)) by (rewrite <- Hne; apply newDate_is_wf).
  exists (mkD sy (sm - 1) sd). split; [done|]. split; [done|].
  intros item Hin.
  set (T := formatDateKey now) in *.
  assert (Hperm : proposedItems text now parsed ≡ₚ
                  arrangeAroundWindow T (start w) (end_ w)
                    (List.map
                       (fun item => withDate item (clampMinDateKey (item_date item) T))
                       (validatedItems (proposalProject text parsed) parsed))).
  { unfold proposedItems. cbv zeta. rewrite Hw. fold T.
    rewrite (proj2 (jsstring_eqb_false (start w) []))
      by (rewrite Hs; apply formatDateKey_nonempty).
    rewrite (proj2 (jsstring_eqb_false (end_ w) []))
      by (rewrite He; apply formatDateKey_nonempty).
    cbn [negb andb]. apply stable_sort_perm. }
  assert (Hfrom : Forall (fun item => key_le T (item_date item))
                    (proposedItems text now parsed))
    by (rewrite Hperm; apply arrangeAroundWindow_from_today).
  assert (Hb : Forall (aroundWindow
                         (clampMinDateKey (shiftDateKeyByDays (start w) (-1)) T)
                         (start w) (end_ w))
                 (proposedItems text now parsed)).
  { rewrite Hperm.
    apply (arrangeAroundWindow_bounds (getFullYear now)); try done.
    - exists now. split; [done|]. split; [lia|done].
    - exists (mkD sy (sm - 1) sd). split; [done|]. split; [cbn; lia|done].
    - exists (mkD ey (em - 1) ed). split; [done|]. split; [cbn; lia|done].
    - rewrite length_map. unfold validatedItems. rewrite length_firstn. lia. }
  rewrite List.Forall_forall in Hfrom, Hb.
  specialize (Hfrom item Hin). destruct (Hb item Hin) as (Hpre & Hpost & Hmid).
  split; [|split; [done|done]].
  intros Hp Hq. specialize (Hpre Hp Hq).
  rewrite Hs in Hpre.
  rewrite shiftDateKeyByDays_formatDateKey in Hpre by (done || unfold year4; cbn; lia).
  change (add_days (-1) (mkD sy (sm - 1) sd)) with (pred_day (mkD sy (sm - 1) sd)) in Hpre.
  unfold clampMinDateKey in Hpre.
  destruct (compareDateKey (formatDateKey (pred_day (mkD sy (sm - 1) sd))) T);
    [by right| |by right].
  left. by apply key_le_antisym.
Qed.

Lemma proposedItems_window_bounds_witness :
  exists S,
    wf_date S /\ u "2025-12-20" = formatDateKey S /\
    forall item,
      In item (proposedItems window_request (mkD 2025 10 1) window_payload) ->
      (isPreWorkTitle (item_title item) = true ->
       isPostWorkTitle (item_title item) = false ->
       item_date item = formatDateKey (mkD 2025 10 1) \/
       key_le (item_date item) (formatDateKey (pred_day S))) /\
      (isPreWorkTitle (item_title item) = false ->
       isPostWorkTitle (item_title item) = true ->
       key_le (u "2025-12-24") (item_date item)) /\
      (isPreWorkTitle (item_title item) = false ->
       isPostWorkTitle (item_title item) = false ->
       key_le (u "2025-12-20") (item_date item) /\ key_le (item_date item) (u "2025-12-24")).
Proof.
  apply (proposedItems_window_bounds window_request (mkD 2025 10 1) window_payload
           (mkWindow (u "2025-12-20") (u "2025-12-24"))).
  - unfold wf_date. vm_compute. repeat split; discriminate.
  - cbn. lia.
  - vm_compute. reflexivity.
Defined.

(** The proposal for this answer on 1 November 2025: approval and
    contract are spread over the two days before the window, installation
    stays inside it, inspection moves to its end. *)
Example proposedItems_around_window :
  proposedItems window_request (mkD 2025 10 1) window_payload
  = [mkItem (u "2025-12-18") (u "현수막: 품의") Other;
     mkItem (u "2025-12-19") (u "현수막: 계약") Other;
     mkItem (u "2025-12-22") (u "현수막: 설치") Other;
     mkItem (u "2025-12-24") (u "현수막: 검수") Other].
Proof. vm_compute. reflexivity. Qed.

(** A title with keywords of both kinds is outside the statement: the
    first pass takes it for pre-work, and here the re-spread of the
    post-work items dates it two days after the window. *)
Example proposedItems_both_keywords :
  isPreWorkTitle (u "현수막: 계약 대금") = true /\
  isPostWorkTitle (u "현수막: 계약 대금") = true /\
  proposedItems window_request (mkD 2025 10 1) both_payload
  = [mkItem (u "2025-12-24") (u "현수막: 검수") Other;
     mkItem (u "2025-12-25") (u "현수막: 정산") Other;
     mkItem (u "2025-12-26") (u "현수막: 계약 대금") Other].
Proof. vm_compute. repeat split. Qed.

End WindowClaim.

Section ProposalCard.
Import Chatbot.

Lemma alter_negb_twice (i : nat) (l : list bool) : alter negb i (alter negb i l) = l.
Proof.
  revert i. induction l as [|b l IH]; intros [|i]; cbn; try done.
  - by rewrite negb_involutive.
  - by rewrite IH.
Qed.

Lemma length_alter_bool (f : bool -> bool) (i : nat) (l : list bool) :
  length (alter f i l) = length l.
Proof. revert i. induction l as [|b l IH]; intros [|i]; cbn; auto. Qed.

(** X10.  Ticking the same box of a proposal twice gives back the
    messages as they were, whatever the message id and the index are. *)
Theorem toggleScheduleProposalItem_involutive (messageId : jsstring) (index : Z)
    (prev : list ChatMessage) :
  toggleScheduleProposalItem messageId index
    (toggleScheduleProposalItem messageId index prev) = prev.
Proof.
  unfold toggleScheduleProposalItem. rewrite List.map_map.
  rewrite <- (List.map_id prev) at 2. apply List.map_ext. intros msg.
  destruct (jsstring_eqb (msg_id msg) messageId) eqn:Eid; cbn [negb]; [|by rewrite Eid].
  destruct msg as [mid txt usr [p|]]; cbn [msg_id scheduleProposal text isUser] in *;
    [|by rewrite Eid].
  destruct (bool_decide (applied p = Some true)) eqn:Ea;
    cbn [msg_id scheduleProposal]; [by rewrite Eid, Ea|].
  destruct ((index <? 0) || (Z.of_nat (length (selected p)) <=? index)) eqn:Ei;
    cbn [msg_id scheduleProposal text isUser]; rewrite Eid; cbn [negb].
  - by rewrite Ea, Ei.
  - unfold withSelected.
    cbn [project deadline items selected applied appliedCount skippedCount].
    rewrite ?Ea, length_alter_bool, Ei, alter_negb_twice. by destruct p.
Qed.

Lemma selectedItemsOf_all {A} (its : list ScheduleProposalItem) (l : list A) (b : bool) :
  length l = length its ->
  selectedItemsOf its (List.map (fun _ => b) l) = if b then its else [].
Proof.
  revert l. induction its as [|x its IH]; intros [|c l]; cbn; try done.
  - by destruct b.
  - intros [= Hl]. rewrite IH by done. by destruct b.
Qed.

(** X11.  The select-all box of a proposal that is not applied selects
    every item unless every item is selected already, in which case it
    clears the selection; the items stay as they are. *)
Theorem toggleScheduleProposalAll_selects (messageId : jsstring)
    (prev : list ChatMessage) (p : ScheduleProposal) :
  proposalOf messageId prev = Some p ->
  applied p <> Some true ->
  length (selected p) = length (items p) ->
  exists p',
    proposalOf messageId (toggleScheduleProposalAll messageId prev) = Some p' /\
    items p' = items p /\ length (selected p') = length (items p') /\
    selectedItemsOf (items p') (selected p') =
      if forallb (fun b => b) (selected p) then [] else items p.
Proof.
  unfold proposalOf, toggleScheduleProposalAll. intros Hp Ha Hl.
  destruct (List.find _ prev) as [target|] eqn:Hfind; [|done].
  erewrite find_map_same_id; [| |exact Hfind].
  - rewrite (find_id _ _ _ Hfind). cbn [negb]. rewrite Hp.
    rewrite bool_decide_eq_false_2 by done. cbn [scheduleProposal].
    eexists. split; [reflexivity|]. unfold withSelected. cbn [items selected].
    split; [done|]. split; [by rewrite length_map|].
    rewrite selectedItemsOf_all by done. by destruct (forallb _ _).
  - intros msg. destruct (negb _); [done|].
    destruct (scheduleProposal msg) as [q|]; [|done].
    by destruct (bool_decide _).
Qed.

(** X12.  Changing the date of one item of a proposal that is not
    applied re-dates that item and nothing else: the other items, the
    titles, the categories and the selection stay, and the items are not
    sorted again.  A date that is not a valid key changes nothing. *)
Theorem updateScheduleProposalDate_sets_one_date (messageId : jsstring) (index : nat)
    (nextDateKey : jsstring) (prev : list ChatMessage) (p : ScheduleProposal) :
  proposalOf messageId prev = Some p ->
  applied p <> Some true ->
  (index < length (items p))%nat ->
  (isValidDateKey nextDateKey = false ->
   updateScheduleProposalDate messageId (Z.of_nat index) nextDateKey prev = prev) /\
  (isValidDateKey nextDateKey = true ->
   exists p',
     proposalOf messageId
       (updateScheduleProposalDate messageId (Z.of_nat index) nextDateKey prev) = Some p' /\
     selected p' = selected p /\ applied p' = applied p /\
     length (items p') = length (items p) /\
     forall k item, items p !! k = Some item ->
       items p' !! k = Some (if bool_decide (k = index) then withDate item nextDateKey
                             else item)).
Proof.
  intros Hp Ha Hi. unfold updateScheduleProposalDate.
  split; intros Hv; rewrite Hv; cbn [negb]; [done|].
  unfold proposalOf in *.
  destruct (List.find _ prev) as [target|] eqn:Hfind; [|done].
  erewrite find_map_same_id; [| |exact Hfind].
  - rewrite (find_id _ _ _ Hfind). cbn [negb]. rewrite Hp.
    rewrite bool_decide_eq_false_2 by done.
    destruct (Z.ltb_spec (Z.of_nat index) 0); [lia|].
    destruct (Z.leb_spec (Z.of_nat (length (items p))) (Z.of_nat index)); [lia|].
    cbn [orb scheduleProposal]. rewrite Nat2Z.id.
    eexists. split; [reflexivity|]. unfold withItems. cbn [items selected applied].
    split; [done|]. split; [done|]. split; [by rewrite length_alter|].
    intros k item Hk. case_bool_decide as Hki.
    + subst k. rewrite list_lookup_alter, decide_True by done. by rewrite Hk.
    + by rewrite list_lookup_alter_ne.
  - intros msg. destruct (negb _); [done|].
    destruct (scheduleProposal msg) as [q|]; [|done].
    destruct (bool_decide _); [done|]. by destruct (_ || _).
Qed.

End ProposalCard.

Section ApplyFrame.
Import Chatbot.

Lemma applyScheduleProposal_early messageId prev w :
  match proposalOf messageId prev with
  | Some p => applied p = Some true \/ selectedItemsOf (items p) (selected p) = []
  | None => True
  end ->
  applyScheduleProposal messageId prev w = (Ok prev, w).
Proof.
  unfold proposalOf, applyScheduleProposal.
  destruct (List.find _ prev) as [target|]; [|done].
  destruct (scheduleProposal target) as [p|]; [|done].
  case_bool_decide as Ha; [done|]. intros [Hap|Hnil]; [done|]. by rewrite Hnil.
Qed.

Lemma applyScheduleProposal_run messageId prev w p :
  proposalOf messageId prev = Some p ->
  applied p <> Some true ->
  selectedItemsOf (items p) (selected p) <> [] ->
  exists (n : nat) (summary : jsstring) w',
    applyScheduleProposal messageId prev w =
      (Ok (List.map
             (fun msg =>
                if negb (jsstring_eqb (msg_id msg) messageId) then msg
                else mkMessage (msg_id msg) (trim (text msg ++ [10%N; 10%N] ++ summary))
                       (isUser msg) (Some (appliedProposal p n)))
             prev), w').
Proof.
  intros Hp Happlied Hsel.
  unfold proposalOf in Hp. unfold applyScheduleProposal.
  destruct (List.find _ prev) as [target|] eqn:Hfind; [|done].
  rewrite Hp. rewrite bool_decide_eq_false_2 by done.
  destruct (length (selectedItemsOf (items p) (selected p)) =? 0)%nat eqn:El.
  { apply Nat.eqb_eq, length_zero_iff_nil in El. done. }
  destruct (loadUserEventsFromStorage_pure w) as [existing Hload].
  unfold bind at 1. rewrite Hload. unfold bind at 1.
  rewrite addLoop_spec. rewrite app_nil_l.
  unfold bind, saveUserEventsToStorage, try_catch, localStorage_setItem, JSON_stringify,
    dispatchEvent, ret.
  cbn [ls_accepts ls_items ls_readable dispatched nanoid_source nanoid_drawn].
  match goal with
  | |- context [if ls_accepts w ?k ?v then _ else _] => destruct (ls_accepts w k v)
  end; (eexists _, _, _; reflexivity).
Qed.

(** X13.  [applyScheduleProposal] never throws, whatever the storage
    does, and it leaves every message with another id as it is. *)
Theorem applyScheduleProposal_total_frame (messageId : jsstring)
    (prev : list ChatMessage) (w : World) :
  exists next w',
    applyScheduleProposal messageId prev w = (Ok next, w') /\
    length next = length prev /\
    forall k msg, prev !! k = Some msg -> msg_id msg <> messageId ->
                  next !! k = Some msg.
Proof.
  destruct (proposalOf messageId prev) as [p|] eqn:Hp.
  - destruct (decide (applied p = Some true)) as [Ha|Ha].
    { exists prev, w. split; [|done]. apply applyScheduleProposal_early. rewrite Hp. by left. }
    destruct (selectedItemsOf (items p) (selected p)) as [|x l] eqn:Hs.
    { exists prev, w. split; [|done]. apply applyScheduleProposal_early. rewrite Hp. by right. }
    destruct (applyScheduleProposal_run messageId prev w p Hp Ha) as (n & t & w' & H).
    { by rewrite Hs. }
    eexists _, w'. split; [exact H|]. split; [by rewrite length_map|].
    intros k msg Hk Hid.
    change (@List.map ChatMessage ChatMessage) with (@fmap list _ ChatMessage ChatMessage).
    rewrite list_lookup_fmap, Hk. cbn.
    by rewrite (proj2 (jsstring_eqb_false _ _) Hid).
  - exists prev, w. split; [|done]. apply applyScheduleProposal_early. by rewrite Hp.
Qed.

(** X14.  Once a proposal has been applied its card is frozen: ticking a
    box, the select-all box and a change of date all leave the messages
    as they are. *)
Theorem applyScheduleProposal_freezes (messageId : jsstring) (prev : list ChatMessage)
    (w : World) (p : ScheduleProposal) :
  proposalOf messageId prev = Some p ->
  applied p <> Some true ->
  selectedItemsOf (items p) (selected p) <> [] ->
  exists next w',
    applyScheduleProposal messageId prev w = (Ok next, w') /\
    (forall index, toggleScheduleProposalItem messageId index next = next) /\
    toggleScheduleProposalAll messageId next = next /\
    (forall index nextDateKey,
       updateScheduleProposalDate messageId index nextDateKey next = next).
Proof.
  intros Hp Ha Hs.
  destruct (applyScheduleProposal_run messageId prev w p Hp Ha Hs) as (n & t & w' & H).
  eexists _, w'. split; [exact H|].
  set (f := fun msg : ChatMessage => _).
  assert (Hfrozen : forall msg,
             negb (jsstring_eqb (msg_id (f msg)) messageId) = true \/
             exists q, scheduleProposal (f msg) = Some q /\ applied q = Some true).
  { intros msg. unfold f. destruct (jsstring_eqb (msg_id msg) messageId) eqn:E; cbn [negb].
    - right. by eexists.
    - left. by rewrite E. }
  assert (Hmap : forall g : ChatMessage -> ChatMessage,
             (forall m, negb (jsstring_eqb (msg_id m) messageId) = true \/
                        (exists q, scheduleProposal m = Some q /\ applied q = Some true) ->
                        g m = m) ->
             List.map g (List.map f prev) = List.map f prev).
  { intros g Hg. rewrite List.map_map. apply List.map_ext. intros m. apply Hg, Hfrozen. }
  split; [|split].
  - intros index. apply Hmap. intros m [->|(q & -> & Hq)]; [done|].
    destruct (negb _); [done|]. by rewrite bool_decide_eq_true_2.
  - apply Hmap. intros m [->|(q & -> & Hq)]; [done|].
    destruct (negb _); [done|]. by rewrite bool_decide_eq_true_2.
  - intros index d. unfold updateScheduleProposalDate.
    destruct (negb (isValidDateKey d)); [done|].
    apply Hmap. intros m [->|(q & -> & Hq)]; [done|].
    destruct (negb _); [done|]. by rewrite bool_decide_eq_true_2.
Qed.

Lemma Forall_map_preserve (P : ChatMessage -> Prop) (g : ChatMessage -> ChatMessage) l :
  (forall m, P m -> P (g m)) -> Forall P l -> Forall P (List.map g l).
Proof. intros Hg. induction 1; cbn; constructor; auto. Qed.

(** X15.  The selection flags of a proposal stay parallel to its items:
    a new proposal has between one and four items, all of them selected
    and none applied, and ticking boxes, changing dates and applying keep
    as many flags as items. *)
Theorem selection_flags_parallel :
  (forall text now parsed p,
     buildScheduleProposal text now parsed = Some p ->
     length (selected p) = length (items p) /\
     (1 <= length (items p) <= 4)%nat /\
     applied p = Some false /\
     selectedItemsOf (items p) (selected p) = items p) /\
  (forall messageId index nextDateKey prev,
     Forall flagsParallel prev ->
     Forall flagsParallel (toggleScheduleProposalItem messageId index prev) /\
     Forall flagsParallel (toggleScheduleProposalAll messageId prev) /\
     Forall flagsParallel (updateScheduleProposalDate messageId index nextDateKey prev)) /\
  (forall messageId prev w next w',
     Forall flagsParallel prev ->
     applyScheduleProposal messageId prev w = (Ok next, w') ->
     Forall flagsParallel next).
Proof.
  split; [|split].
  - intros text now parsed p. unfold buildScheduleProposal.
    destruct (Nat.ltb_spec 0 (length (proposedItems text now parsed))) as [Hl|]; [|done].
    intros [= <-]. cbn [selected items applied].
    split; [by rewrite length_map|]. split.
    + split; [lia|]. rewrite proposedItems_length. unfold validatedItems.
      rewrite length_firstn. lia.
    + split; [done|]. rewrite (selectedItemsOf_all _ _ true); [done|reflexivity].
  - intros messageId index d prev Hprev. split; [|split].
    + apply Forall_map_preserve; [|done]. intros m Hm.
      destruct (negb _); [done|]. unfold flagsParallel in *.
      destruct (scheduleProposal m) as [q|] eqn:Eq; [|by rewrite Eq].
      destruct (bool_decide _); [by rewrite Eq|]. destruct (_ || _); [by rewrite Eq|].
      cbn. by rewrite length_alter_bool.
    + apply Forall_map_preserve; [|done]. intros m Hm.
      destruct (negb _); [done|]. unfold flagsParallel in *.
      destruct (scheduleProposal m) as [q|] eqn:Eq; [|by rewrite Eq].
      destruct (bool_decide _); [by rewrite Eq|]. cbn. by rewrite length_map.
    + unfold updateScheduleProposalDate. destruct (negb (isValidDateKey d)); [done|].
      apply Forall_map_preserve; [|done]. intros m Hm.
      destruct (negb _); [done|]. unfold flagsParallel in *.
      destruct (scheduleProposal m) as [q|] eqn:Eq; [|by rewrite Eq].
      destruct (bool_decide _); [by rewrite Eq|]. destruct (_ || _); [by rewrite Eq|].
      cbn. by rewrite length_alter.
  - intros messageId prev w next w' Hprev Happ.
    destruct (proposalOf messageId prev) as [p|] eqn:Hp.
    + destruct (decide (applied p = Some true)) as [Ha|Ha].
      { rewrite applyScheduleProposal_early in Happ by (rewrite Hp; by left). congruence. }
      destruct (selectedItemsOf (items p) (selected p)) as [|x l] eqn:Hs.
      { rewrite applyScheduleProposal_early in Happ by (rewrite Hp; by right). congruence. }
      destruct (applyScheduleProposal_run messageId prev w p Hp Ha) as (n & t & w'' & H).
      { by rewrite Hs. }
      rewrite H in Happ. injection Happ as <- _.
      assert (Hpar : length (selected p) = length (items p)).
      { unfold proposalOf in Hp.
        destruct (List.find _ prev) as [target|] eqn:Hfind; [|done].
        apply find_some in Hfind as [Hin _].
        rewrite List.Forall_forall in Hprev. specialize (Hprev _ Hin).
        unfold flagsParallel in Hprev. by rewrite Hp in Hprev. }
      apply Forall_map_preserve; [|done]. intros m Hm.
      destruct (negb _); [done|]. unfold flagsParallel. by cbn.
    + rewrite applyScheduleProposal_early in Happ by (by rewrite Hp). congruence.
Qed.

Lemma applyScheduleProposal_freezes_witness :
  exists next w',
    applyScheduleProposal (u "ai-1") (banner_messages [true; false; true]) fresh_world
    = (Ok next, w') /\
    toggleScheduleProposalAll (u "ai-1") next = next.
Proof.
  destruct (applyScheduleProposal_freezes (u "ai-1")
              (banner_messages [true; false; true]) fresh_world
              (banner_proposal [true; false; true]))
    as (next & w' & Happ & _ & Hall & _).
  - reflexivity.
  - discriminate.
  - discriminate.
  - exists next, w'. split; [exact Happ|exact Hall].
Defined.

End ApplyFrame.

Section Window.
Import Chatbot.

(** X16.  An execution window read from the request text is made of two
    valid date keys; it does not start before today and does not end
    before it starts. *)
Theorem inferExecutionWindowFromText_window (text : jsstring) (now : Date)
    (w : ExecutionWindow) :
  wf_date now -> 1000 <= getFullYear now <= 9997 ->
  inferExecutionWindowFromText text now = Some w ->
  isValidDateKey (start w) = true /\ isValidDateKey (end_ w) = true /\
  key_le (formatDateKey now) (start w) /\ key_le (start w) (end_ w).
Proof.
  intros Hwf Hy H.
  destruct (inferred_window_ordered text now w Hwf Hy H) as [H1 H2].
  destruct (inferExecutionWindowFromText_inv now text w Hwf ltac:(unfold year4; lia) H)
    as (sm & sd & em & ed & _ & [Hsm Hsd] & [Hem Hed] & Hs' & He' & Hs & He).
  cbv zeta in Hs', He'.
  assert (Hsy : getFullYear now <= inferred_start_year now sm sd <= getFullYear now + 1)
    by (unfold inferred_start_year; destruct (md_before _ _ _ _); lia).
  assert (Hey : inferred_start_year now sm sd <= inferred_end_year now sm sd em ed
                <= inferred_start_year now sm sd + 1)
    by (unfold inferred_end_year; destruct (md_before _ _ _ _); lia).
  pose proof (newDate_is_wf (inferred_start_year now sm sd) (sm - 1) sd) as [_ Hd1].
  pose proof (newDate_is_wf (inferred_end_year now sm sd em ed) (em - 1) ed) as [_ Hd2].
  rewrite Hs' in Hd1. rewrite He' in Hd2. cbn [getFullYear getMonth getDate] in Hd1, Hd2.
  rewrite Hs, He.
  split; [apply isValidDateKey_build; lia|].
  split; [apply isValidDateKey_build; lia|].
  rewrite <- Hs, <- He. by split.
Qed.

Lemma inferExecutionWindowFromText_window_witness :
  isValidDateKey (u "2026-01-03") = true /\
  key_le (u "2025-12-28") (u "2026-01-03").
Proof.
  destruct (inferExecutionWindowFromText_window (u "12/28~1/3 행사") (mkD 2025 10 1)
              (mkWindow (u "2025-12-28") (u "2026-01-03")))
    as (_ & Hv & _ & Hle).
  - unfold wf_date. vm_compute. repeat split; discriminate.
  - cbn. lia.
  - vm_compute. reflexivity.
  - split; [exact Hv|exact Hle].
Defined.

End Window.

Section StorageRoundTrip.

Lemma isValidDateKey_like s : isValidDateKey s = true -> isDateKeyLike s = true.
Proof. unfold isValidDateKey. by destruct (isDateKeyLike s). Qed.

Lemma category_round_trip c : category_of_string (category_string c) = Some c.
Proof. by destruct c. Qed.

Lemma source_round_trip s :
  isCalendarEventSource (Some (JStr (source_string s))) = Some s.
Proof. by destruct s. Qed.

Lemma parseUserEvent_json ev :
  isDateKeyLike (ce_date ev) = true -> ce_kind ev = user ->
  Calendar.parseUserEvent (Calendar.userEvent_json ev) = Some ev.
Proof.
  intros Hd Hk. destruct ev as [i d t k c s]; cbn [ce_date ce_kind] in *. subst k.
  unfold Calendar.parseUserEvent, Calendar.userEvent_json.
  cbn [ce_id ce_date ce_title ce_category ce_source].
  change (asString (prop (Some (JObj ?f)) "id")) with (Some i).
  change (asString (prop (Some (JObj ?f)) "date")) with (Some d).
  change (asString (prop (Some (JObj ?f)) "title")) with (Some t).
  cbv beta iota zeta. rewrite Hd. cbn [negb].
  change (isEventCategory (prop _ "category")) with (category_of_string (category_string c)).
  change (prop _ "source") with (Some (JStr (source_string s))).
  by rewrite category_round_trip, source_round_trip.
Qed.

Lemma chat_parse_json ev :
  storable ev ->
  Chatbot.parseStoredUserEvent (Calendar.userEvent_json ev) = Some (chatEvent ev).
Proof.
  intros (Hk & Hi & Hd & Ht & Hne). destruct ev as [i d t k c s].
  cbn [ce_id ce_date ce_title ce_kind] in *.
  unfold Chatbot.parseStoredUserEvent, Calendar.userEvent_json, chatEvent.
  cbn [ce_id ce_date ce_title ce_category ce_source].
  change (asString (prop (Some (JObj ?f)) "id")) with (Some i).
  change (asString (prop (Some (JObj ?f)) "date")) with (Some d).
  change (asString (prop (Some (JObj ?f)) "title")) with (Some t).
  cbv beta iota zeta. rewrite Ht, Hd. cbn [negb].
  rewrite (proj2 (jsstring_eqb_false t []) Hne).
  change (Chatbot.asEventCategory (prop _ "category"))
    with (category_of_string (category_string c)).
  unfold Chatbot.asCalendarEventSource.
  change (prop _ "source") with (Some (JStr (source_string s))).
  by rewrite category_round_trip, source_round_trip.
Qed.

Lemma modal_parse_json ev :
  storable ev ->
  ApiKeyModal.parseStoredUserEvent (Calendar.userEvent_json ev) = Some (modalEvent ev).
Proof.
  intros (Hk & Hi & Hd%isValidDateKey_like & Ht & Hne). destruct ev as [i d t k c s].
  cbn [ce_id ce_date ce_title ce_kind] in *.
  unfold ApiKeyModal.parseStoredUserEvent, Calendar.userEvent_json, modalEvent.
  cbn [ce_id ce_date ce_title ce_category ce_source].
  change (asString (prop (Some (JObj ?f)) "id")) with (Some i).
  change (asString (prop (Some (JObj ?f)) "date")) with (Some d).
  change (asString (prop (Some (JObj ?f)) "title")) with (Some t).
  cbv beta iota zeta. rewrite Ht, Hd. cbn [negb].
  rewrite (proj2 (jsstring_eqb_false t []) Hne), (proj2 (jsstring_eqb_false i []) Hi).
  change (isEventCategory (prop _ "category")) with (category_of_string (category_string c)).
  change (prop _ "source") with (Some (JStr (source_string s))).
  by rewrite category_round_trip, source_round_trip.
Qed.

Lemma omap_map_Some {A B C} (f : B -> option C) (g : A -> B) (h : A -> C) l :
  Forall (fun x => f (g x) = Some (h x)) l ->
  omap f (List.map g l) = List.map h l.
Proof. induction 1 as [|x l Hx _ IH]; cbn; [done|]. by rewrite Hx, IH. Qed.

(** X17.  What the calendar saves, every component reads back: after
    [saveUserEventsToStorage] has written a list of the calendar's own
    user events, the loader of the calendar, the loader of the chat
    component and the loader of the settings dialog all return that list,
    in the same order. *)
Theorem user_events_round_trip (events : list CalendarEvent) (w : World) :
  Forall storable events ->
  ls_readable w = true ->
  ls_accepts w USER_EVENTS_STORAGE_KEY
    (Json (JArr (List.map Calendar.userEvent_json events))) = true ->
  exists w',
    Calendar.saveUserEventsToStorage events w = (Ok tt, w') /\
    Calendar.loadUserEventsFromStorage w' = (Ok events, w') /\
    Chatbot.loadUserEventsFromStorage w' = (Ok (List.map chatEvent events), w') /\
    ApiKeyModal.loadStoredUserEvents w' = (Ok (List.map modalEvent events), w').
Proof.
  intros Hev Hr Ha.
  unfold Calendar.saveUserEventsToStorage, try_catch, localStorage_setItem, JSON_stringify.
  rewrite Ha. eexists. split; [reflexivity|].
  unfold Calendar.loadUserEventsFromStorage, Chatbot.loadUserEventsFromStorage,
    ApiKeyModal.loadStoredUserEvents, try_catch, bind, localStorage_getItem.
  cbn [ls_readable ls_items]. rewrite Hr, lookup_insert_eq.
  cbn [JSON_parse]. unfold ret.
  split; [|split]; do 2 f_equal.
  - rewrite <- (List.map_id events) at 2. apply omap_map_Some.
    eapply Forall_impl; [exact Hev|]. intros ev (Hk & _ & Hd & _).
    apply parseUserEvent_json; [by apply isValidDateKey_like|done].
  - apply omap_map_Some. eapply Forall_impl; [exact Hev|]. apply chat_parse_json.
  - apply omap_map_Some. eapply Forall_impl; [exact Hev|]. apply modal_parse_json.
Qed.

End StorageRoundTrip.

Section ChatWitnesses.
Import Chatbot.

Lemma toggleScheduleProposalAll_selects_witness :
  exists p',
    proposalOf (u "ai-1")
      (toggleScheduleProposalAll (u "ai-1") (banner_messages [true; false; true])) = Some p' /\
    selectedItemsOf (items p') (selected p') = items (banner_proposal [true; false; true]).
Proof.
  destruct (toggleScheduleProposalAll_selects (u "ai-1")
              (banner_messages [true; false; true]) (banner_proposal [true; false; true])
              eq_refl ltac:(discriminate) eq_refl)
    as (p' & H1 & _ & _ & H2).
  exists p'. split; [exact H1|exact H2].
Defined.

Lemma updateScheduleProposalDate_sets_one_date_witness :
  updateScheduleProposalDate (u "ai-1") 2 (u "2025-02-30")
    (banner_messages [true; true; true]) = banner_messages [true; true; true].
Proof.
  apply (proj1 (updateScheduleProposalDate_sets_one_date (u "ai-1") 2 (u "2025-02-30")
                  (banner_messages [true; true; true]) (banner_proposal [true; true; true])
                  eq_refl ltac:(discriminate) ltac:(cbn; lia))).
  reflexivity.
Defined.

Lemma user_events_round_trip_witness :
  exists w',
    Calendar.saveUserEventsToStorage [sample_user_event] fresh_world = (Ok tt, w') /\
    Chatbot.loadUserEventsFromStorage w' = (Ok [chatEvent sample_user_event], w').
Proof.
  destruct (user_events_round_trip [sample_user_event] fresh_world)
    as (w' & H1 & _ & H3 & _).
  - constructor; [|constructor]. unfold storable.
    split; [reflexivity|]. split; [discriminate|]. split; [vm_compute; reflexivity|].
    split; [vm_compute; reflexivity|discriminate].
  - reflexivity.
  - reflexivity.
  - exists w'. split; [exact H1|exact H3].
Defined.

End ChatWitnesses.

(* ===================================================================== *)
(** * Further properties of the calendar and of the settings dialog *)

Section Editor.
Import Calendar.



End Editor.

Section Providers.
Import ApiKeyContext.

Lemma nonEmpty_spec s : nonEmpty s = true <-> s <> [].
Proof. unfold nonEmpty. rewrite negb_true_iff. apply jsstring_eqb_false. Qed.

(** X19.  The calendar, the chat component and the settings dialog settle
    on the provider by the same rule: the preferred provider when its key
    is there, else the other one when its key is there, else none; a
    provider without a key is never chosen, and the preview of the dialog
    is what the components choose once the trimmed keys are saved. *)
Theorem provider_selection (apiKey openRouterApiKey : jsstring)
    (preference : AiProviderPreference) :
  Chatbot.provider apiKey openRouterApiKey preference
    = Calendar.aiProvider apiKey openRouterApiKey preference /\
  ApiKeyModal.resolvedProvider preference apiKey openRouterApiKey
    = Calendar.aiProvider (cleaned apiKey) (cleaned openRouterApiKey) preference /\
  (Calendar.aiProvider apiKey openRouterApiKey preference = None <->
   apiKey = [] /\ openRouterApiKey = []) /\
  (Calendar.aiProvider apiKey openRouterApiKey preference = Some gemini <->
   apiKey <> [] /\ (preference = openrouter -> openRouterApiKey = [])) /\
  (Calendar.aiProvider apiKey openRouterApiKey preference = Some openrouter <->
   openRouterApiKey <> [] /\ (preference = openrouter \/ apiKey = [])) /\
  Calendar.aiProvider apiKey openRouterApiKey preference <> Some auto.
Proof.
  split; [reflexivity|]. split; [reflexivity|].
  unfold Calendar.aiProvider.
  assert (Hne : forall s, if nonEmpty s then s <> [] else s = []).
  { intros s. destruct (nonEmpty s) eqn:E; [by apply nonEmpty_spec|].
    destruct (decide (s = [])) as [|n]; [done|]. apply nonEmpty_spec in n. congruence. }
  pose proof (Hne apiKey) as Hg. pose proof (Hne openRouterApiKey) as Ho.
  destruct (nonEmpty apiKey), (nonEmpty openRouterApiKey), preference;
    repeat split; intros; try done; try congruence; try tauto;
    try (by left); try (by right); naive_solver.
Qed.

End Providers.

Section MaskedKeys.
Import ApiKeyModal.

Lemma lookup_repeat_42 (n i : nat) : (i < n)%nat -> repeat 42%N n !! i = Some 42%N.
Proof.
  revert i. induction n as [|n IH]; intros [|i] Hi; cbn; try lia; [done|].
  apply IH. lia.
Qed.

(** X20.  A masked key is as long as the key and shows at most its
    first four and its last four code units (six and four for the
    OpenRouter key); a key of at most eight (ten) units is masked
    entirely. *)
Theorem masked_keys (key : jsstring) :
  length (maskedGemini key) = length key /\
  length (maskedOpenRouter key) = length key /\
  (forall i : nat,
     (i < length key)%nat ->
     (length key <= 8 \/ 4 <= i < length key - 4)%nat ->
     maskedGemini key !! i = Some 42%N) /\
  (forall i : nat,
     (i < length key)%nat ->
     (length key <= 10 \/ 6 <= i < length key - 4)%nat ->
     maskedOpenRouter key !! i = Some 42%N) /\
  (forall i : nat,
     (8 < length key)%nat -> (i < 4 \/ length key - 4 <= i)%nat ->
     maskedGemini key !! i = key !! i) /\
  (forall i : nat,
     (10 < length key)%nat -> (i < 6 \/ length key - 4 <= i)%nat ->
     maskedOpenRouter key !! i = key !! i).
Proof.
  unfold maskedGemini, maskedOpenRouter, slice, sliceLast.
  change firstn with (@take N). change skipn with (@drop N).
  destruct key as [|c key']; [cbn; repeat split; intros; lia|].
  set (key := c :: key'). rewrite !(proj2 (jsstring_eqb_false key [])) by done.
  rewrite !drop_0, !Nat.sub_0_r.
  assert (Hlen : forall a b n, n = (a + b)%nat -> (n < length key)%nat ->
            length (take a key ++ repeat 42%N (length key - n)
                    ++ drop (length key - b) key) = length key).
  { intros a b n -> H. rewrite !length_app, length_take, repeat_length, length_drop. lia. }
  assert (Hstar : forall a b n i, n = (a + b)%nat -> (n < length key)%nat ->
            (a <= i < length key - b)%nat ->
            (take a key ++ repeat 42%N (length key - n)
             ++ drop (length key - b) key) !! i = Some 42%N).
  { intros a b n i -> H Hi.
    rewrite lookup_app_r by (rewrite length_take; lia).
    rewrite length_take, lookup_app_l by (rewrite repeat_length; lia).
    apply lookup_repeat_42. lia. }
  assert (Hshown : forall a b n i, n = (a + b)%nat -> (n < length key)%nat ->
            (i < a \/ length key - b <= i)%nat ->
            (take a key ++ repeat 42%N (length key - n)
             ++ drop (length key - b) key) !! i = key !! i).
  { intros a b n i -> H [Hi|Hi].
    - rewrite lookup_app_l by (rewrite length_take; lia). by apply lookup_take_lt.
    - rewrite lookup_app_r by (rewrite length_take; lia).
      rewrite length_take, lookup_app_r by (rewrite repeat_length; lia).
      rewrite repeat_length, lookup_drop. f_equal. lia. }
  destruct (Nat.leb_spec (length key) 8) as [H8|H8];
    destruct (Nat.leb_spec (length key) 10) as [H10|H10]; try lia;
    rewrite ?repeat_length, ?(Hlen 4 4 8)%nat, ?(Hlen 6 4 10)%nat by lia;
    (split; [reflexivity|]); (split; [reflexivity|]);
    repeat split; intros i Hi Hr; try lia;
    try (apply lookup_repeat_42; lia);
    try (apply (Hstar 4 4 8 i)%nat; lia); try (apply (Hstar 6 4 10 i)%nat; lia);
    try (apply (Hshown 4 4 8 i)%nat; lia); try (apply (Hshown 6 4 10 i)%nat; lia).
Qed.

End MaskedKeys.

Section StoreUpdates.
Import Calendar.

Lemma findById_id eventId events b : findById eventId events = Some b -> ce_id b = eventId.
Proof.
  unfold findById. intros H. apply find_some in H as [_ H]. by apply jsstring_eqb_true.
Qed.

Lemma findById_map_same_id (f : CalendarEvent -> CalendarEvent) eventId events b :
  (forall ev, ce_id (f ev) = ce_id ev) ->
  findById eventId events = Some b ->
  findById eventId (List.map f events) = Some (f b).
Proof.
  unfold findById. intros Hf. induction events as [|e l IH]; cbn; [done|].
  rewrite Hf. destruct (jsstring_eqb (ce_id e) eventId); [by intros [= ->]|auto].
Qed.

Lemma applyOverride_ne overrides overrides' ev :
  overrides' !! ce_id ev = overrides !! ce_id ev ->
  applyOverride overrides' ev = applyOverride overrides ev.
Proof. unfold applyOverride. by intros ->. Qed.

(** X21.  Dragging an event to another day shows it on that day and
    changes nothing else.  For a builtin event the date goes into its
    override (or out of it, when the day is the event's own), the title
    and the category of the override stay, every event with another id
    shows as before and the user events are untouched; for a user event
    the event itself is re-dated and the overrides are untouched.  In both
    cases the grounding cached for the event is dropped.  The id is not
    the name [__proto__], which an object does not keep as a property. *)
Theorem moveEventToDate_moves (eventId nextDateKey : jsstring) (st : Store) :
  eventId <> [] -> eventId <> u "__proto__" -> isDateKeyLike nextDateKey = true ->
  (forall b,
     findById eventId (userEvents st) = None ->
     findById eventId (baseEvents st) = Some b ->
     let st' := moveEventToDate eventId nextDateKey st in
     ce_date (applyOverride (builtinEventOverrides st') b) = nextDateKey /\
     (match builtinEventOverrides st !! eventId with
      | Some o => title o <> Some []
      | None => True
      end ->
      applyOverride (builtinEventOverrides st') b
      = withDate (applyOverride (builtinEventOverrides st) b) nextDateKey) /\
     (forall ev, ce_id ev <> eventId ->
                 applyOverride (builtinEventOverrides st') ev
                 = applyOverride (builtinEventOverrides st) ev) /\
     userEvents st' = userEvents st /\ baseEvents st' = baseEvents st /\
     eventGrounding st' !! eventId = None) /\
  (forall e,
     findById eventId (userEvents st) = Some e ->
     let st' := moveEventToDate eventId nextDateKey st in
     findById eventId (userEvents st') = Some (withDate e nextDateKey) /\
     length (userEvents st') = length (userEvents st) /\
     (forall k ev, userEvents st !! k = Some ev -> ce_id ev <> eventId ->
                   userEvents st' !! k = Some ev) /\
     builtinEventOverrides st' = builtinEventOverrides st /\
     baseEvents st' = baseEvents st /\
     (ce_date e <> nextDateKey -> eventGrounding st' !! eventId = None)).
Proof.
  intros Hid _ Hlike. split.
  - intros b Hu Hb st'. subst st'. unfold moveEventToDate.
    rewrite (proj2 (jsstring_eqb_false eventId []) Hid), Hlike, Hu, Hb. cbn [negb].
    pose proof (findById_id _ _ _ Hb) as Hbid.
    unfold setSelectedDate, clearAiCacheForEvent, setBuiltinEventOverrides.
    cbn [builtinEventOverrides userEvents baseEvents eventGrounding].
    rewrite lookup_delete_eq.
    assert (Hne : forall (f : BuiltinEventOverrides -> BuiltinEventOverrides),
               (forall k, k <> eventId -> f (builtinEventOverrides st) !! k
                                          = builtinEventOverrides st !! k) ->
               forall ev, ce_id ev <> eventId ->
                 applyOverride (f (builtinEventOverrides st)) ev
                 = applyOverride (builtinEventOverrides st) ev).
    { intros f Hf ev Hev. apply applyOverride_ne. by apply Hf. }
    destruct (jsstring_eqb (ce_date b) nextDateKey) eqn:Ed.
    + apply jsstring_eqb_true in Ed.
      unfold dropOverrideDate, applyOverride. rewrite Hbid.
      destruct (builtinEventOverrides st !! eventId) as [o|] eqn:Eo.
      * destruct (hasNoField (mkOverride None (title o) (category o))) eqn:En.
        -- rewrite lookup_delete_eq.
           unfold hasNoField in En. cbn [date title category present] in En.
           rewrite !andb_true_iff, !negb_true_iff in En. destruct En as [[_ Ht] Hc].
           apply bool_decide_eq_false in Hc.
           assert (category o = None) as Hc' by (destruct (category o); [exfalso; eauto|done]).
           split; [done|]. split.
           { intros Htitle. unfold withDate.
             cbn [ce_id ce_date ce_title ce_kind ce_category ce_source].
             assert (title o = None) as -> by (by destruct (title o) as [[|x t]|]).
             rewrite Hc'. cbn [default]. destruct b; cbn in *; by subst. }
           split; [|done]. intros ev Hev.
           rewrite lookup_delete_ne by done. reflexivity.
        -- rewrite lookup_insert_eq. cbn [date title category default].
           split; [done|]. split; [intros _; unfold withDate; cbn; by rewrite Ed|].
           split; [|done]. intros ev Hev.
           rewrite lookup_insert_ne by done. reflexivity.
      * rewrite Eo. split; [done|].
        split; [intros _; unfold withDate; destruct b; cbn in *; by subst|].
        by split.
    + unfold setOverrideDate, applyOverride. rewrite Hbid, lookup_insert_eq.
      cbn [date title category default].
      split; [done|]. split.
      { intros _. unfold withDate.
        destruct (builtinEventOverrides st !! eventId); destruct b; cbn in *; by subst. }
      split; [|done]. intros ev Hev. rewrite lookup_insert_ne by done. reflexivity.
  - intros e He st'. subst st'. unfold moveEventToDate.
    rewrite (proj2 (jsstring_eqb_false eventId []) Hid), Hlike, He. cbn [negb].
    pose proof (findById_id _ _ _ He) as Heid.
    destruct (jsstring_eqb (ce_date e) nextDateKey) eqn:Ed.
    + apply jsstring_eqb_true in Ed. split.
      { rewrite He. f_equal. unfold withDate. destruct e; cbn in *; by subst. }
      repeat split; done.
    + unfold setSelectedDate, clearAiCacheForEvent, setUserEvents.
      cbn [builtinEventOverrides userEvents baseEvents eventGrounding].
      split.
      { erewrite findById_map_same_id; [| |exact He].
        - cbv beta. rewrite Heid. unfold jsstring_eqb. by rewrite bool_decide_eq_true_2.
        - intros ev. destruct (jsstring_eqb (ce_id ev) eventId); reflexivity. }
      split; [by rewrite length_map|]. split.
      { intros k ev Hk Hev.
        change (@List.map CalendarEvent CalendarEvent)
          with (@fmap list _ CalendarEvent CalendarEvent).
        rewrite list_lookup_fmap, Hk. cbn.
        by rewrite (proj2 (jsstring_eqb_false _ _) Hev). }
      repeat split; try done. intros _. apply lookup_delete_eq.
Qed.

End StoreUpdates.

Section Trim.

Lemma trimStart_idem s : trimStart (trimStart s) = trimStart s.
Proof.
  induction s as [|c s IH]; cbn; [done|].
  destruct (isWhiteSpace c) eqn:E; [done|]. cbn. by rewrite E.
Qed.

Lemma trimStart_head s c s' : trimStart s = c :: s' -> isWhiteSpace c = false.
Proof.
  induction s as [|d s IH]; cbn; [done|].
  destruct (isWhiteSpace d) eqn:E; [auto|]. by intros [= <- _].
Qed.

Lemma trimStart_snoc s c :
  isWhiteSpace c = false -> exists y, trimStart (s ++ [c]) = y ++ [c].
Proof.
  intros Hc. induction s as [|d s [y IH]]; cbn.
  - rewrite Hc. by exists [].
  - destruct (isWhiteSpace d); [by exists y|]. by exists (d :: s).
Qed.

Lemma trimEnd_head c s :
  isWhiteSpace c = false -> exists y, trimEnd (c :: s) = c :: y.
Proof.
  intros Hc. unfold trimEnd. cbn [rev].
  destruct (trimStart_snoc (rev s) c Hc) as [y ->].
  rewrite rev_app_distr. cbn. by eexists.
Qed.

Lemma trimEnd_idem s : trimEnd (trimEnd s) = trimEnd s.
Proof. unfold trimEnd. by rewrite rev_involutive, trimStart_idem. Qed.

Lemma trim_idem s : trim (trim s) = trim s.
Proof.
  unfold trim.
  destruct (trimStart s) as [|c s'] eqn:E; [reflexivity|].
  pose proof (trimStart_head _ _ _ E) as Hc.
  destruct (trimEnd_head c s' Hc) as [y Hy]. rewrite Hy.
  cbn [trimStart]. rewrite Hc, <- Hy. apply trimEnd_idem.
Qed.

End Trim.

Section SaveDraft.
Import Calendar.

Lemma isInvalidDate_four_digit_year y m d :
  1000 <= y <= 9999 -> 0 <= m <= 11 -> 1 <= d <= 31 -> isInvalidDate y m d = false.
Proof.
  intros Hy Hm Hd. unfold isInvalidDate.
  destruct (Z.leb_spec 0 y), (Z.leb_spec y 99); try lia. cbn [andb].
  apply Z.ltb_ge. unfold dayNumber. cbv zeta.
  rewrite (Z.div_small m 12), (Z.mod_small m 12), Z.add_0_r by lia.
  destruct (m <? 2); Z.to_euclidean_division_equations; lia.
Qed.

Lemma draftDateValid_in_range ed :
  draftDateValid ed ->
  isInvalidDate (draftYear ed) (draftMonth ed - 1) (draftDay ed) = false.
Proof.
  intros (Hy & Hm & Hd).
  pose proof (daysInMonth_bounds (draftYear ed) (draftMonth ed - 1)).
  apply isInvalidDate_four_digit_year; lia.
Qed.

Lemma draftDateValid_accepted ed :
  draftDateValid ed ->
  jsstring_eqb (formatDateKey (newDate (draftYear ed) (draftMonth ed - 1) (draftDay ed)))
    (draftDateKey ed) = true /\
  isValidDateKey (draftDateKey ed) = true.
Proof.
  intros (Hy & Hm & Hd). unfold draftDateKey. split.
  - apply jsstring_eqb_true. rewrite newDate_exact by lia. by rewrite build_format by lia.
  - apply isValidDateKey_build; lia.
Qed.

(** X22.  Saving the editor on a builtin event makes the calendar show
    what the editor holds: the event appears on the drafted day with the
    trimmed drafted title and the drafted category, every event with
    another id shows as before, and the user events and the storage are
    not touched by the handler itself.  The id is not the name
    [__proto__], which an object does not keep as a property. *)
Theorem handleSaveDraft_edit_builtin (ed : Editor) (st : Store) (w : World)
    (eventId : jsstring) (b : CalendarEvent) :
  editorMode ed = edit -> draftKind ed = builtin ->
  draftId ed = Some eventId -> eventId <> [] -> eventId <> u "__proto__" ->
  findById eventId (baseEvents st) = Some b ->
  draftCleanedTitle ed <> [] -> draftDateValid ed ->
  exists st',
    handleSaveDraft ed st w = (Ok (closeEditor ed, st'), w) /\
    applyOverride (builtinEventOverrides st') b
    = mkCalendarEvent (ce_id b) (draftDateKey ed) (draftCleanedTitle ed) (ce_kind b)
        (default (ce_category b) (draftCategory ed)) (ce_source b) /\
    (forall ev, ce_id ev <> eventId ->
                applyOverride (builtinEventOverrides st') ev
                = applyOverride (builtinEventOverrides st) ev) /\
    userEvents st' = userEvents st /\ baseEvents st' = baseEvents st.
Proof.
  intros Hmode Hkind Hdraft Hid _ Hb Htitle Hdate.
  destruct (draftDateValid_accepted ed Hdate) as [Hacc _].
  unfold draftCleanedTitle, draftDateKey in *.
  unfold handleSaveDraft. cbv zeta.
  rewrite (proj2 (jsstring_eqb_false _ []) Htitle), (draftDateValid_in_range ed Hdate),
    Hacc, Hmode, Hdraft, Hkind.
  cbn [negb orb]. destruct eventId as [|c0 eventId']; [done|].
  set (eventId := c0 :: eventId') in *.
  eexists. split; [reflexivity|].
  unfold clearAiCacheForEvent, setBuiltinEventOverrides.
  cbn [builtinEventOverrides userEvents baseEvents].
  pose proof (findById_id _ _ _ Hb) as Hbid.
  unfold saveOverride. rewrite Hb. cbv zeta.
  assert (Hkey : buildDateKeyFromParts (draftYear ed) (draftMonth ed) (draftDay ed) <> []).
  { unfold buildDateKeyFromParts. intros Ek. apply (f_equal length) in Ek.
    rewrite !length_app in Ek. change (length (u "-")) with 1%nat in Ek.
    change (length []) with 0%nat in Ek. lia. }
  set (dateKey := buildDateKeyFromParts _ _ _) in *.
  set (cleaned := trim (draftTitle ed)) in *.
  split; [|split; [|done]].
  - unfold applyOverride. rewrite Hbid.
    destruct (hasNoField _) eqn:En.
    + rewrite lookup_delete_eq.
      unfold hasNoField in En. cbn [date title category] in En.
      rewrite !andb_true_iff, !negb_true_iff in En. destruct En as [[Hd Ht] Hc].
      apply bool_decide_eq_false in Hc.
      assert (draftCategory ed = None) as ->
          by (destruct (draftCategory ed); [exfalso; eauto|done]).
      destruct (jsstring_eqb dateKey (ce_date b)) eqn:E1.
      2:{ cbn [present] in Hd. by destruct dateKey. }
      destruct (jsstring_eqb cleaned (ce_title b)) eqn:E2.
      2:{ cbn in Ht. by destruct cleaned. }
      apply jsstring_eqb_true in E1, E2. destruct b; cbn in *. congruence.
    + rewrite lookup_insert_eq. cbn [date title category]. f_equal.
      * destruct (jsstring_eqb dateKey (ce_date b)) eqn:E1; [|done].
        by apply jsstring_eqb_true in E1.
      * destruct (jsstring_eqb cleaned (ce_title b)) eqn:E2; [|done].
        by apply jsstring_eqb_true in E2.
  - intros ev Hev. apply applyOverride_ne.
    destruct (hasNoField _); [by rewrite lookup_delete_ne|by rewrite lookup_insert_ne].
Qed.

(** X23.  [handleSaveDraft] never throws.  Either it reports an error,
    and then the events, the overrides, the caches and the world are as
    before and the editor stays as it was; or it closes the editor, and
    then the drafted title was not blank; in create mode the new event
    is a user event of source 'manual' with a fresh "user-" identifier,
    put in front of the others, and with a valid drafted day it is an
    event that every loader reads back. *)
Theorem handleSaveDraft_outcome (ed : Editor) (st : Store) (w : World) :
  exists ed' st' w',
    handleSaveDraft ed st w = (Ok (ed', st'), w') /\
    ls_items w' = ls_items w /\ dispatched w' = dispatched w /\
    ((exists msg, ed' = setDraftError msg ed /\ st' = st /\ w' = w) \/
     (ed' = closeEditor ed /\ draftCleanedTitle ed <> [] /\
      baseEvents st' = baseEvents st /\
      (editorMode ed = create ->
       exists c, draftCategory ed = Some c /\
         let newEvent :=
           mkCalendarEvent (u "user-" ++ nanoid_source w (nanoid_drawn w))
             (draftDateKey ed) (draftCleanedTitle ed) user c manual in
         userEvents st' = newEvent :: userEvents st /\
         builtinEventOverrides st' = builtinEventOverrides st /\
         (draftDateValid ed -> storable newEvent)))).
Proof.
  unfold handleSaveDraft, draftCleanedTitle, draftDateKey. cbv zeta.
  destruct (jsstring_eqb (trim (draftTitle ed)) []) eqn:Et.
  { eexists _, _, _. split; [reflexivity|]. do 2 (split; [done|]). left. by eexists. }
  apply jsstring_eqb_false in Et.
  destruct (_ || negb _) eqn:Ev.
  { eexists _, _, _. split; [reflexivity|]. do 2 (split; [done|]). left. by eexists. }
  destruct (editorMode ed) eqn:Em.
  - destruct (draftCategory ed) as [c|] eqn:Ec.
    + unfold bind, nanoid, ret. eexists _, _, _. split; [reflexivity|].
      cbn [ls_items dispatched]. do 2 (split; [done|]). right.
      split; [done|]. split; [done|]. split; [done|]. intros _.
      exists c. split; [done|]. cbv zeta. split; [done|]. split; [done|].
      intros Hvalid. unfold storable. cbn [ce_kind ce_id ce_date ce_title].
      split; [done|]. split; [done|].
      split; [apply (draftDateValid_accepted ed Hvalid)|]. split; [apply trim_idem|done].
    + eexists _, _, _. split; [reflexivity|]. do 2 (split; [done|]). left. by eexists.
  - destruct (draftId ed) as [[|c0 i]|].
    + eexists _, _, _. split; [reflexivity|]. do 2 (split; [done|]). left. by eexists.
    + destruct (draftKind ed).
      * eexists _, _, _. split; [reflexivity|]. do 2 (split; [done|]). right.
        repeat split; done.
      * destruct (draftCategory ed).
        -- eexists _, _, _. split; [reflexivity|]. do 2 (split; [done|]). right.
           repeat split; done.
        -- eexists _, _, _. split; [reflexivity|]. do 2 (split; [done|]). left. by eexists.
    + eexists _, _, _. split; [reflexivity|]. do 2 (split; [done|]). left. by eexists.
Qed.

(** X24.  Deleting from the editor removes what the editor points at and
    nothing else: for a builtin event the override is dropped, so the
    event shows as the schedule defines it; for a user event every event
    with that id is removed and the others keep their order; with no
    event in the editor nothing happens. *)
Theorem handleDeleteDraft_effect (ed : Editor) (st : Store) :
  (draftId ed = None \/ draftId ed = Some [] -> handleDeleteDraft ed st = (ed, st)) /\
  (forall eventId, draftId ed = Some eventId -> eventId <> [] ->
     eventId <> u "__proto__" ->
     let st' := snd (handleDeleteDraft ed st) in
     fst (handleDeleteDraft ed st) = closeEditor ed /\
     baseEvents st' = baseEvents st /\
     eventGrounding st' !! eventId = None /\
     (draftKind ed = builtin ->
      userEvents st' = userEvents st /\
      forall ev, applyOverride (builtinEventOverrides st') ev
                 = if jsstring_eqb (ce_id ev) eventId then ev
                   else applyOverride (builtinEventOverrides st) ev) /\
     (draftKind ed = user ->
      builtinEventOverrides st' = builtinEventOverrides st /\
      userEvents st'
      = List.filter (fun ev => negb (jsstring_eqb (ce_id ev) eventId)) (userEvents st) /\
      findById eventId (userEvents st') = None)).
Proof.
  unfold handleDeleteDraft. split.
  - by intros [->| ->].
  - intros eventId Hd Hid _. cbv zeta. rewrite Hd.
    destruct eventId as [|c0 i]; [done|]. set (eventId := c0 :: i) in *.
    destruct (draftKind ed) eqn:Ek; cbn [fst snd];
      unfold clearAiCacheForEvent, setBuiltinEventOverrides, setUserEvents;
      cbn [builtinEventOverrides userEvents baseEvents eventGrounding];
      (split; [done|]); (split; [done|]); (split; [apply lookup_delete_eq|]).
    + split; [|done]. intros _.
      split; [done|]. intros ev. unfold applyOverride.
      destruct (jsstring_eqb (ce_id ev) eventId) eqn:E.
      * apply jsstring_eqb_true in E. by rewrite E, lookup_delete_eq.
      * apply jsstring_eqb_false in E. by rewrite lookup_delete_ne.
    + split; [done|]. intros _.
      split; [done|]. split; [done|]. unfold findById.
      destruct (List.find _ _) as [x|] eqn:Ef; [|done].
      apply find_some in Ef as [Hin Hx]. apply filter_In in Hin as [_ Hn].
      by rewrite Hx in Hn.
Qed.

Lemma handleSaveDraft_edit_builtin_witness :
  exists st',
    handleSaveDraft budget_editor budget_store fresh_world
    = (Ok (closeEditor budget_editor, st'), fresh_world) /\
    applyOverride (builtinEventOverrides st') budget_event
    = mkCalendarEvent (ce_id budget_event) (u "2025-03-05") (u "예산편성 준비") builtin
        Budget manual.
Proof.
  destruct (handleSaveDraft_edit_builtin budget_editor budget_store fresh_world
              (ce_id budget_event) budget_event)
    as (st' & H1 & H2 & _).
  - reflexivity.
  - reflexivity.
  - reflexivity.
  - vm_compute. discriminate.
  - vm_compute. discriminate.
  - reflexivity.
  - vm_compute. discriminate.
  - unfold draftDateValid. vm_compute. repeat split; discriminate.
  - exists st'. split; [exact H1|exact H2].
Defined.

Lemma moveEventToDate_moves_witness :
  ce_date (applyOverride
             (builtinEventOverrides
                (moveEventToDate (ce_id budget_event) (u "2025-03-05") budget_store))
             budget_event) = u "2025-03-05".
Proof.
  apply (proj1 (proj1 (moveEventToDate_moves (ce_id budget_event) (u "2025-03-05")
                         budget_store ltac:(discriminate) ltac:(discriminate) eq_refl)
                  budget_event eq_refl eq_refl)).
Defined.

End SaveDraft.
